(** * Speak2SQL: operation history, SQL sanitizer, execution engine and
      mutation parser, embedded and verified.

    The development follows the Python sources:
    - [utils.py]          : [OperationHistory] (undo/redo log, persistence);
    - [database.py]       : [validate_sql], [detect_operation_type],
                            [execute_query], [execute_modification],
                            [execute_transaction], [close] and the
                            sample-row rendering of [get_schema_info];
    - [openai_handler.py] : [_preprocess_thinking_tags], [_process_response],
                            [clean_sql], [natural_to_sql] and
                            [natural_to_modify_sql];
    - [ui.py]             : the clean-up of a result frame before display,
                            in [execute_sql_query], [extract_table_name] and
                            [get_reversed_operation_type];
    - [settings.py]       : [AppSettings].

    Python values are dynamically typed; they are represented by [pyval].
    Python strings are represented by Stdlib strings whose characters stand
    for the code points 0..255; where a function returns text that
    [str.upper] can move out of that range, the text is a list of code
    points.  External collaborators (the MySQL driver, the frame
    constructor of [pandas], the [json] module, the file system, the
    clock, the completion service) are explicit arguments of the functions
    that use them. *)

From Stdlib Require Import ZArith List Ascii String Bool Lia.
From stdpp Require Import base list strings gmap pretty.

Import ListNotations.
Local Open Scope Z_scope.

(* ===================================================================== *)
(** * 1. Python values and built-in operations                           *)
(* ===================================================================== *)

(** The values that flow through the history log and through the JSON
    documents: [None], booleans, integers, strings, lists and dictionaries
    with string keys (kept in insertion order). *)
#[warnings="-register-all"]
Inductive pyval : Type :=
  | PNone
  | PBool (b : bool)
  | PInt (z : Z)
  | PStr (s : string)
  | PList (items : list pyval)
  | PDict (entries : list (string * pyval)).

(** Exceptions that the modelled code can raise or catch. *)
Inductive py_exn : Type :=
  | IndexError
  | TypeError
  | AttributeError.

(** [len(l)] as a Python integer. *)
Definition len {A} (l : list A) : Z := Z.of_nat (length l).

(** [l[:k]]: a negative bound counts from the end, and bounds are clipped. *)
Definition slice_to {A} (l : list A) (k : Z) : list A :=
  if k <? 0 then take (Z.to_nat (len l + k)) l else take (Z.to_nat k) l.

(** [l[1:]]. *)
Definition slice_from_1 {A} (l : list A) : list A := drop 1 l.

(** [l[i]]: a negative index counts from the end; out of range raises
    [IndexError], rendered as [None]. *)
Definition py_index {A} (l : list A) (i : Z) : option A :=
  if (0 <=? i) && (i <? len l) then l !! Z.to_nat i
  else if (- len l <=? i) && (i <? 0) then l !! Z.to_nat (len l + i)
  else None.

(** Truth value of a list: [if l]. *)
Definition list_truthy {A} (l : list A) : bool :=
  match l with [] => false | _ :: _ => true end.

(** Dictionary access on insertion-ordered entries. *)
Fixpoint dict_get (key : string) (entries : list (string * pyval)) : option pyval :=
  match entries with
  | [] => None
  | (k, v) :: rest => if String.eqb k key then Some v else dict_get key rest
  end.

(** [d[key] = v]: replaces the value of an existing key in place, appends a
    new key at the end. *)
Fixpoint dict_set (key : string) (v : pyval) (entries : list (string * pyval))
  : list (string * pyval) :=
  match entries with
  | [] => [(key, v)]
  | (k, w) :: rest =>
      if String.eqb k key then (k, v) :: rest else (k, w) :: dict_set key v rest
  end.

Definition dict_has (key : string) (entries : list (string * pyval)) : bool :=
  match dict_get key entries with Some _ => true | None => false end.

(** The values that Python can hold: at every depth the keys of a
    dictionary are distinct. *)
Fixpoint well_formed (v : pyval) : bool :=
  match v with
  | PList items => forallb well_formed items
  | PDict entries =>
      bool_decide (NoDup (map fst entries))
      && forallb (fun entry : string * pyval => well_formed (snd entry)) entries
  | _ => true
  end.

(* ===================================================================== *)
(** * 2. utils.py: OperationHistory                                       *)
(* ===================================================================== *)

(** The three attributes set by [__init__]. *)
Record OperationHistory : Type := mkHistory {
  history : list pyval;
  current_index : Z;
  max_history : Z
}.

(** [OperationHistory(max_history)]. *)
Definition init (max_history : Z) : OperationHistory :=
  mkHistory [] (-1) max_history.

(** [OperationHistory()], with the default capacity. *)
Definition init_default : OperationHistory := init 100.

(** The dictionary built by [add_operation]; [now] is the formatted
    reading of the clock. *)
Definition make_operation (now : string)
    (operation_type query natural_query affected_rows result rollback_sql : pyval)
  : pyval :=
  PDict [ ("timestamp"%string, PStr now);
          ("operation_type"%string, operation_type);
          ("sql"%string, query);
          ("natural_query"%string, natural_query);
          ("affected_rows"%string, affected_rows);
          ("result"%string, result);
          ("rollback_sql"%string, rollback_sql) ].

(** The first statement of [add_operation]: when the cursor is not on the
    last entry, the entries after it are dropped. *)
Definition truncate_after_cursor (self : OperationHistory) : list pyval :=
  if current_index self <? len (history self) - 1
  then slice_to (history self) (current_index self + 1)
  else history self.

(** The capacity check of [add_operation]: one entry leaves from the
    front when the sequence is longer than [max_history]. *)
Definition evict_oldest (max_history : Z) (entries : list pyval) : list pyval :=
  if len entries >? max_history then slice_from_1 entries else entries.

(** The body of [add_operation] once the record is built: truncate after
    the cursor, append, evict on overflow, move the cursor to the tail. *)
Definition append_operation (operation : pyval) (self : OperationHistory)
  : OperationHistory :=
  let history1 := truncate_after_cursor self in
  let history2 := history1 ++ [operation] in
  let history3 := evict_oldest (max_history self) history2 in
  mkHistory history3 (len history3 - 1) (max_history self).

(** [add_operation]: returns the record and the updated history. *)
Definition add_operation (now : string)
    (operation_type query natural_query affected_rows result rollback_sql : pyval)
    (self : OperationHistory) : pyval * OperationHistory :=
  let operation :=
    make_operation now operation_type query natural_query
                   affected_rows result rollback_sql in
  (operation, append_operation operation self).

Definition can_undo (self : OperationHistory) : bool :=
  current_index self >=? 0.

Definition can_redo (self : OperationHistory) : bool :=
  current_index self <? len (history self) - 1.

Definition set_index (self : OperationHistory) (i : Z) : OperationHistory :=
  mkHistory (history self) i (max_history self).

(** [get_previous_operation]: the result is the returned value ([PNone]
    for Python's [None]) or the exception raised by the indexing; the
    cursor moves only after a successful read. *)
Definition get_previous_operation (self : OperationHistory)
  : OperationHistory * (py_exn + pyval) :=
  if negb (can_undo self) then (self, inr PNone)
  else match py_index (history self) (current_index self) with
       | None => (self, inl IndexError)
       | Some operation =>
           (set_index self (current_index self - 1), inr operation)
       end.

(** [get_next_operation]: the cursor moves before the read. *)
Definition get_next_operation (self : OperationHistory)
  : OperationHistory * (py_exn + pyval) :=
  if negb (can_redo self) then (self, inr PNone)
  else
    let self1 := set_index self (current_index self + 1) in
    match py_index (history self1) (current_index self1) with
    | None => (self1, inl IndexError)
    | Some operation => (self1, inr operation)
    end.

Definition get_current_operation (self : OperationHistory) : pyval :=
  if (current_index self <? 0) || (current_index self >=? len (history self))
  then PNone
  else match py_index (history self) (current_index self) with
       | Some operation => operation
       | None => PNone
       end.

Definition get_all_operations (self : OperationHistory) : list pyval :=
  history self.

Definition clear_history (self : OperationHistory) : OperationHistory :=
  mkHistory [] (-1) (max_history self).

(** ** Persistence *)

(** The [json] module, as far as the code uses it: [json.dump] of a value
    (every [pyval] is serialisable) and [json.load], which raises
    [JSONDecodeError] ([None]) on a text that is not a JSON document. *)
Record json_module : Type := mkJson {
  json_dumps : pyval -> string;
  json_loads : string -> option pyval
}.

(** What a path of the file system can hold: a text file, a file whose
    bytes do not decode as UTF-8 text, or something that cannot be opened
    (a directory, a file without permission). *)
Inductive file_node : Type :=
  | TextFile (content : string)
  | BinaryFile
  | Locked.

(** [open(filename, 'w')] followed by writing [text]: [None] when the
    path cannot be opened for writing. *)
Definition write_text (fs : gmap string file_node) (filename text : string)
  : option (gmap string file_node) :=
  match fs !! filename with
  | Some Locked => None
  | _ => Some (<[filename := TextFile text]> fs)
  end.

(** [save_to_file]: the whole sequence is written, the cursor is not. *)
Definition save_to_file (json : json_module) (filename : string)
    (self : OperationHistory) (fs : gmap string file_node)
  : gmap string file_node * bool :=
  match write_text fs filename (json_dumps json (PList (history self))) with
  | Some fs' => (fs', true)
  | None => (fs, false)
  end.

(** The outcomes of [load_from_file].  [Loaded] carries the returned flag
    and the history object.  When the document decodes to something that
    is not an array the attribute [history] holds that value, which is
    outside [OperationHistory]: [LoadedNonList] records the value, the
    returned flag and the cursor. *)
Inductive load_outcome : Type :=
  | Loaded (ok : bool) (self : OperationHistory)
  | LoadedNonList (v : pyval) (ok : bool) (index : Z).

(** Truth value of a Python value, and [len] where it is defined. *)
Definition py_truthy (v : pyval) : bool :=
  match v with
  | PNone => false
  | PBool b => b
  | PInt z => negb (z =? 0)
  | PStr s => negb (String.eqb s "")
  | PList items => list_truthy items
  | PDict entries => list_truthy entries
  end.

Definition py_len (v : pyval) : option Z :=
  match v with
  | PStr s => Some (Z.of_nat (String.length s))
  | PList items => Some (len items)
  | PDict entries => Some (len entries)
  | _ => None
  end.

(** [load_from_file].  A missing file ([FileNotFoundError]) and every
    other failure before the assignment leave the object untouched and
    return [False].  Once the document is assigned, [len] is called twice:
    in the cursor, when the value is true, and in the message that is
    logged; on a value without a length it raises [TypeError] inside the
    [try] block, and the function returns [False] with the attribute
    already replaced (and the cursor already at [-1] when the value is
    false). *)
Definition load_from_file (json : json_module) (filename : string)
    (self : OperationHistory) (fs : gmap string file_node) : load_outcome :=
  match fs !! filename with
  | None => Loaded false self
  | Some Locked => Loaded false self
  | Some BinaryFile => Loaded false self
  | Some (TextFile text) =>
      match json_loads json text with
      | None => Loaded false self
      | Some (PList items) =>
          Loaded true
            (mkHistory items
               (if list_truthy items then len items - 1 else -1)
               (max_history self))
      | Some v =>
          if py_truthy v
          then match py_len v with
               | Some n => LoadedNonList v true (n - 1)
               | None => LoadedNonList v false (current_index self)
               end
          else match py_len v with
               | Some _ => LoadedNonList v true (-1)
               | None => LoadedNonList v false (-1)
               end
      end
  end.

(** The paths from which [load_from_file] gets no document: no file, a
    file that cannot be opened or decoded, a text that [json.load]
    rejects. *)
Definition unloadable (json : json_module) (filename : string)
    (fs : gmap string file_node) : bool :=
  match fs !! filename with
  | Some (TextFile text) =>
      match json_loads json text with
      | None => true
      | Some _ => false
      end
  | _ => true
  end.

(* ===================================================================== *)
(** * 3. Python strings: stripping, prefixes and the regular expressions *)
(* ===================================================================== *)

(** Text is processed as a list of characters; [chars] and [text] convert
    from and to strings. *)
Definition chars (s : string) : list ascii := list_ascii_of_string s.
Definition text (l : list ascii) : string := string_of_list_ascii l.

Definition squote : ascii := ascii_of_nat 39.
Definition dquote : ascii := ascii_of_nat 34.
Definition newline : ascii := ascii_of_nat 10.

(** The two quote characters, the set that [validate_sql] strips. *)
Definition is_quote (c : ascii) : bool :=
  Ascii.eqb c squote || Ascii.eqb c dquote.

(** [str.isspace] on the code points below 256: tab to carriage return,
    the separators 28..31, space, NEL (133) and the no-break space (160).
    The class [\s] of [re] is the same set. *)
Definition is_space (c : ascii) : bool :=
  let n := nat_of_ascii c in
  ((9 <=? n) && (n <=? 13) || (28 <=? n) && (n <=? 32)
   || (n =? 133) || (n =? 160))%nat.

Fixpoint lstrip_by (f : ascii -> bool) (s : list ascii) : list ascii :=
  match s with
  | [] => []
  | c :: rest => if f c then lstrip_by f rest else s
  end.

Fixpoint rstrip_by (f : ascii -> bool) (s : list ascii) : list ascii :=
  match s with
  | [] => []
  | c :: rest =>
      match rstrip_by f rest with
      | [] => if f c then [] else [c]
      | kept => c :: kept
      end
  end.

(** [s.strip(set)], [s.rstrip()] and [s.strip()]. *)
Definition strip_by (f : ascii -> bool) (s : list ascii) : list ascii :=
  rstrip_by f (lstrip_by f s).
Definition rstrip (s : list ascii) : list ascii := rstrip_by is_space s.
Definition strip (s : list ascii) : list ascii := strip_by is_space s.

(** ASCII lower case.  The patterns matched with [re.IGNORECASE] below are
    ASCII, and among the code points below 256 an ASCII letter of a
    pattern matches only its two ASCII cases. *)
Definition lower_ascii (c : ascii) : ascii :=
  let n := nat_of_ascii c in
  if ((65 <=? n) && (n <=? 90))%nat then ascii_of_nat (n + 32) else c.

Definition char_match (ignorecase : bool) (a b : ascii) : bool :=
  if ignorecase then Ascii.eqb (lower_ascii a) (lower_ascii b)
  else Ascii.eqb a b.

(** When [s] starts with the literal [p], what follows it. *)
Fixpoint match_prefix (ignorecase : bool) (p s : list ascii)
  : option (list ascii) :=
  match p with
  | [] => Some s
  | a :: p' =>
      match s with
      | [] => None
      | b :: s' =>
          if char_match ignorecase a b then match_prefix ignorecase p' s'
          else None
      end
  end.

(** [s.startswith(p)] and [s.endswith(p)]. *)
Definition startswith (p s : list ascii) : bool :=
  match match_prefix false p s with Some _ => true | None => false end.
Definition endswith (p s : list ascii) : bool :=
  startswith (rev p) (rev s).

(** [p in s] for strings. *)
Fixpoint contains (p s : list ascii) : bool :=
  startswith p s ||
  match s with
  | [] => false
  | _ :: s' => contains p s'
  end.

(** Number of characters of [s] up to the end of the first occurrence of
    the literal [p]. *)
Fixpoint find_end (ignorecase : bool) (p s : list ascii) : option nat :=
  match match_prefix ignorecase p s with
  | Some _ => Some (length p)
  | None =>
      match s with
      | [] => None
      | _ :: s' => option_map S (find_end ignorecase p s')
      end
  end.

(** [re.sub(OPEN + '.*?' + CLOSE, '', s, flags=re.DOTALL)] for literals
    [OPEN] and [CLOSE] (with [re.IGNORECASE] when [ignorecase]): scanning
    from the left, where [OPEN] starts and a [CLOSE] follows it, the text
    up to the end of the first such [CLOSE] is dropped.  [skip] counts the
    characters of the current match that are still to be dropped. *)
Fixpoint remove_between_from (ignorecase : bool) (opening closing : list ascii)
    (skip : nat) (s : list ascii) : list ascii :=
  match s with
  | [] => []
  | c :: rest =>
      match skip with
      | S k => remove_between_from ignorecase opening closing k rest
      | O =>
          match match_prefix ignorecase opening s with
          | Some body =>
              match find_end ignorecase closing body with
              | Some n =>
                  remove_between_from ignorecase opening closing
                    (length opening + n - 1)%nat rest
              | None =>
                  c :: remove_between_from ignorecase opening closing O rest
              end
          | None => c :: remove_between_from ignorecase opening closing O rest
          end
      end
  end.

Definition remove_between (ignorecase : bool) (opening closing : string)
    (s : list ascii) : list ascii :=
  remove_between_from ignorecase (chars opening) (chars closing) O s.

(** [re.sub(r'--.*?$', '', s, flags=re.MULTILINE)]: from each leftmost
    [--] of a line up to, not including, the newline or the end. *)
Fixpoint remove_line_comments_from (in_comment : bool) (s : list ascii)
  : list ascii :=
  match s with
  | [] => []
  | c :: rest =>
      if in_comment then
        if Ascii.eqb c newline then c :: remove_line_comments_from false rest
        else remove_line_comments_from true rest
      else
        match rest with
        | d :: rest' =>
            if Ascii.eqb c "-" && Ascii.eqb d "-"
            then remove_line_comments_from true rest'
            else c :: remove_line_comments_from false rest
        | [] => [c]
        end
  end.

Definition remove_line_comments (s : list ascii) : list ascii :=
  remove_line_comments_from false s.

(** [re.sub(r'^```\s*LANG\s*', '', s, flags=re.IGNORECASE)]. *)
Definition strip_open_fence (lang : string) (s : list ascii) : list ascii :=
  match match_prefix true (chars "```") s with
  | Some after_ticks =>
      match match_prefix true (chars lang) (lstrip_by is_space after_ticks) with
      | Some after_lang => lstrip_by is_space after_lang
      | None => s
      end
  | None => s
  end.

(** [re.sub(r'```\s*$', '', s, flags=re.IGNORECASE)]: a fence followed by
    white space only, up to the end, is dropped. *)
Fixpoint strip_close_fence (s : list ascii) : list ascii :=
  match s with
  | [] => []
  | c :: rest =>
      match match_prefix true (chars "```") s with
      | Some tail =>
          if forallb is_space tail then [] else c :: strip_close_fence rest
      | None => c :: strip_close_fence rest
      end
  end.

(** [str.upper] on one code point below 256: the ASCII and Latin-1 lower
    case letters, and the sharp s, which becomes two characters.  The
    micro sign and y with diaeresis have their upper case above 255 and
    are kept here: the functions that use [upper] only test whether the
    text starts with an ASCII keyword.  [extract_table_name], which
    returns a piece of the text, uses [upper_points]. *)
Definition upper_char (c : ascii) : list ascii :=
  let n := nat_of_ascii c in
  if ((97 <=? n) && (n <=? 122))%nat then [ascii_of_nat (n - 32)]
  else if (n =? 223)%nat then ["S"%char; "S"%char]
  else if ((224 <=? n) && (n <=? 254) && negb (n =? 247))%nat
       then [ascii_of_nat (n - 32)]
  else [c].

Definition upper (s : list ascii) : list ascii := concat (map upper_char s).

(* ===================================================================== *)
(** * 4. database.py                                                      *)
(* ===================================================================== *)

(** The statement that makes a query end with a semicolon, shared by
    [validate_sql] and [natural_to_modify_sql]. *)
Definition ensure_semicolon (query : list ascii) : list ascii :=
  if negb (endswith (chars ";") (rstrip query))
  then rstrip query ++ chars ";"
  else query.

(** [validate_sql] on characters, statement by statement of the source. *)
Definition validate_chars (query : list ascii) : list ascii :=
  let query := strip_by is_quote query in
  let query := ensure_semicolon query in
  let query := remove_between false "/*" "*/" query in
  let query := remove_line_comments query in
  query.

Definition validate_sql (query : string) : string :=
  text (validate_chars (chars query)).

(** [detect_operation_type]. *)
Definition detect_operation_type (sql : string) : string :=
  let sql := upper (strip (chars sql)) in
  if startswith (chars "SELECT") sql then "SELECT"
  else if startswith (chars "INSERT") sql then "INSERT"
  else if startswith (chars "UPDATE") sql then "UPDATE"
  else if startswith (chars "DELETE") sql then "DELETE"
  else if startswith (chars "CREATE TABLE") sql then "CREATE"
  else if startswith (chars "ALTER TABLE") sql then "ALTER"
  else if startswith (chars "DROP TABLE") sql then "DROP"
  else "UNKNOWN".

(** [handle_exception(e, context)]: the message that is logged and
    returned. *)
Definition handle_exception (e context : string) : string :=
  (context +:+ " 错误: " +:+ e)%string.

(** ** The MySQL driver *)

(** A cell of a result set: [None], a [bytes] or [bytearray] value, an
    integer or a string. *)
Inductive cell : Type :=
  | CNone
  | CBytes (data : list Byte.byte)
  | CInt (z : Z)
  | CStr (s : string).

(** [isinstance(value, (bytes, bytearray))]. *)
Definition is_bytes (value : cell) : bool :=
  match value with
  | CBytes _ => true
  | _ => false
  end.

(** A value held by a data frame.  The constructor of pandas infers a
    type for each column and converts the values of some columns: a
    fetched value is either kept ([Kept]: the Python object itself, or
    for an integer of an integer column the machine integer of the same
    value) or replaced by a float ([Float z] is [float(z)], [NaN] stands
    for a missing value). *)
Inductive frame_value : Type :=
  | Kept (value : cell)
  | NaN
  | Float (z : Z).

(** [isinstance(x, (bytes, bytearray))] on a value of a frame. *)
Definition holds_bytes (x : frame_value) : bool :=
  match x with
  | Kept value => is_bytes value
  | _ => false
  end.

(** A data frame: the column names and the rows. *)
Record dataframe : Type := mkFrame {
  df_columns : list string;
  df_rows : list (list frame_value)
}.

(** The pandas library, as far as the code uses it: the call
    [pd.DataFrame(results, columns=columns)] on the rows that the driver
    fetched, every row having the length of the list of names. *)
Record pandas_module : Type := mkPandas {
  pd_DataFrame : list (list cell) -> list string -> dataframe
}.

(** What is used of the constructor below: the frame has the names and
    as many rows as it was given, and a bytes value is stored as it is,
    at its place. *)
Definition keeps_bytes (pd : pandas_module) : Prop :=
  forall (rows : list (list cell)) (columns : list string),
    Forall (fun row : list cell => length row = length columns) rows ->
    df_columns (pd_DataFrame pd rows columns) = columns /\
    length (df_rows (pd_DataFrame pd rows columns)) = length rows /\
    forall i j row data,
      rows !! i = Some row -> row !! j = Some (CBytes data) ->
      exists row',
        df_rows (pd_DataFrame pd rows columns) !! i = Some row' /\
        row' !! j = Some (Kept (CBytes data)).

(** The calls made on the connection and on its cursor.  A session is the
    state of the server as seen through one connection.  A call that
    raises [mysql.connector.Error] returns the message of the error. *)
Record driver (session : Type) : Type := mkDriver {
  drv_execute : string -> session -> session * option string;
  drv_fetchall : session -> session * (string + list (list cell));
  drv_description : session -> list string;
  drv_rowcount : session -> Z;
  drv_commit : session -> session * option string;
  drv_rollback : session -> session;
  drv_is_connected : session -> bool
}.
Arguments drv_execute {session}.
Arguments drv_fetchall {session}.
Arguments drv_description {session}.
Arguments drv_rowcount {session}.
Arguments drv_commit {session}.
Arguments drv_rollback {session}.
Arguments drv_is_connected {session}.

(** [is_connected]: [self.connection is not None and
    self.connection.is_connected()]. *)
Definition is_connected {session} (drv : driver session)
    (connection : option session) : bool :=
  match connection with
  | None => false
  | Some s => drv_is_connected drv s
  end.

(** [execute_query].  Without a connection object the attribute access
    raises; a driver error is logged and [None] is returned; otherwise
    the frame that pandas builds from the fetched rows is returned. *)
Definition execute_query {session} (drv : driver session) (pd : pandas_module)
    (connection : option session) (query : string)
  : option session * (py_exn + option dataframe) :=
  match connection with
  | None => (None, inl AttributeError)
  | Some s =>
      let query := validate_sql query in
      match drv_execute drv query s with
      | (s1, Some err) => (Some s1, inr None)
      | (s1, None) =>
          match drv_fetchall drv s1 with
          | (s2, inl err) => (Some s2, inr None)
          | (s2, inr results) =>
              (Some s2,
               inr (Some (pd_DataFrame pd results (drv_description drv s2))))
          end
      end
  end.

(** One entry of the list returned by [execute_transaction]. *)
Inductive statement_result : Type :=
  | SelectResult (data : dataframe)
  | ModifyResult (operation_type : string) (affected_rows : Z).

(** One turn of the loop of [execute_transaction]. *)
Definition execute_statement {session} (drv : driver session)
    (pd : pandas_module) (sql : string) (s : session)
  : session * (string + statement_result) :=
  match drv_execute drv sql s with
  | (s1, Some err) => (s1, inl err)
  | (s1, None) =>
      let operation_type := detect_operation_type sql in
      if startswith (chars "SELECT") (chars operation_type) then
        match drv_fetchall drv s1 with
        | (s2, inl err) => (s2, inl err)
        | (s2, inr rows) =>
            (s2, inr (SelectResult
                        (pd_DataFrame pd rows (drv_description drv s2))))
        end
      else (s1, inr (ModifyResult operation_type (drv_rowcount drv s1)))
  end.

(** The loop: it stops at the first error. *)
Fixpoint execute_statements {session} (drv : driver session)
    (pd : pandas_module)
    (sql_list : list string) (s : session) (results : list statement_result)
  : session * (string + list statement_result) :=
  match sql_list with
  | [] => (s, inr results)
  | sql :: rest =>
      match execute_statement drv pd sql s with
      | (s1, inl err) => (s1, inl err)
      | (s1, inr r) => execute_statements drv pd rest s1 (results ++ [r])
      end
  end.

(** The handler of [mysql.connector.Error]. *)
Definition rollback_if_connected {session} (drv : driver session)
    (s : session) : session :=
  if drv_is_connected drv s then drv_rollback drv s else s.

(** [execute_transaction]: [inl] is [(False, message)], [inr] is
    [(True, results)]. *)
Definition execute_transaction {session} (drv : driver session)
    (pd : pandas_module)
    (connection : option session) (sql_list : list string)
  : option session * (string + list statement_result) :=
  match connection with
  | None => (None, inl "数据库未连接"%string)
  | Some s =>
      if negb (drv_is_connected drv s)
      then (Some s, inl "数据库未连接"%string)
      else if negb (list_truthy sql_list)
      then (Some s, inl "没有SQL语句需要执行"%string)
      else
        match execute_statements drv pd sql_list s [] with
        | (s1, inl err) =>
            (Some (rollback_if_connected drv s1),
             inl (handle_exception err "执行事务"))
        | (s1, inr results) =>
            match drv_commit drv s1 with
            | (s2, Some err) =>
                (Some (rollback_if_connected drv s2),
                 inl (handle_exception err "执行事务"))
            | (s2, None) => (Some s2, inr results)
            end
        end
  end.

(** What the transactional contract of the driver says about the
    contents of the database: [durable] is the committed contents,
    [visible] what the session reads.  No statement commits by itself, a
    failed commit commits nothing, and a rollback discards the work of
    the session. *)
Record transactional {session db : Type} (drv : driver session)
    (durable visible : session -> db) : Prop := mkTransactional {
  execute_keeps_durable :
    forall sql s, durable (fst (drv_execute drv sql s)) = durable s;
  fetchall_keeps_durable :
    forall s, durable (fst (drv_fetchall drv s)) = durable s;
  failed_commit_keeps_durable :
    forall s s' err, drv_commit drv s = (s', Some err) -> durable s' = durable s;
  rollback_keeps_durable :
    forall s, durable (drv_rollback drv s) = durable s;
  rollback_discards :
    forall s, visible (drv_rollback drv s) = durable s
}.

(** The statement [sql] does not make the server commit: executing it
    leaves the committed contents as they are.  The data-definition
    statements of MySQL ([CREATE TABLE], [ALTER TABLE], [DROP TABLE] and
    others) do commit, whatever the session has done before. *)
Definition no_implicit_commit {session db : Type} (drv : driver session)
    (durable : session -> db) (sql : string) : Prop :=
  forall s, durable (fst (drv_execute drv sql s)) = durable s.

(** The part of the transactional contract that does not depend on the
    statements: fetching commits nothing, a failed commit commits
    nothing, and a rollback discards the work of the session. *)
Record session_contract {session db : Type} (drv : driver session)
    (durable visible : session -> db) : Prop := mkSessionContract {
  sc_fetchall_keeps_durable :
    forall s, durable (fst (drv_fetchall drv s)) = durable s;
  sc_failed_commit_keeps_durable :
    forall s s' err, drv_commit drv s = (s', Some err) -> durable s' = durable s;
  sc_rollback_keeps_durable :
    forall s, durable (drv_rollback drv s) = durable s;
  sc_rollback_discards :
    forall s, visible (drv_rollback drv s) = durable s
}.

(** ** Sample rows of [get_schema_info] *)

(** The conversion applied to each value of a sample row. *)
Definition render_sample_value (value : cell) : cell :=
  match value with
  | CBytes data =>
      CStr ("BINARY(" +:+ pretty (length data) +:+ " bytes)")%string
  | CNone => CNone
  | CInt z => CStr (pretty z)
  | CStr s => CStr s
  end.

(** The inner loop [for i, value in enumerate(row)] filling [row_data];
    [None] is the [IndexError] of [column_names[i]]. *)
Fixpoint sample_row_data (column_names : list string) (i : nat)
    (row : list cell) (row_data : gmap string cell)
  : option (gmap string cell) :=
  match row with
  | [] => Some row_data
  | value :: rest =>
      match column_names !! i with
      | None => None
      | Some name =>
          sample_row_data column_names (S i) rest
            (<[name := render_sample_value value]> row_data)
      end
  end.

(** The outer loop over the fetched rows; an exception ends the loop and
    keeps the rows converted so far. *)
Fixpoint sample_data (column_names : list string) (sample_rows : list (list cell))
  : list (gmap string cell) :=
  match sample_rows with
  | [] => []
  | row :: rest =>
      match sample_row_data column_names O row ∅ with
      | None => []
      | Some row_data => row_data :: sample_data column_names rest
      end
  end.

(** ** ui.py: the data frame before display *)

(** The function that [execute_sql_query] applies, after [execute_query]
    has returned, to the cells of the object-typed columns of the data
    frame. *)
Definition display_value (x : frame_value) : frame_value :=
  match x with
  | Kept (CBytes data) =>
      Kept (CStr ("BINARY(" +:+ pretty (length data) +:+ " bytes)")%string)
  | _ => x
  end.

(** The positions of the columns named [col], counted from [i]. *)
Fixpoint positions (col : string) (columns : list string) (i : nat) : list nat :=
  match columns with
  | [] => []
  | c :: rest =>
      if String.eqb c col then i :: positions col rest (S i)
      else positions col rest (S i)
  end.

(** The loop [for col in results.columns] of [execute_sql_query].  When
    [col] names one column, [results[col]] is that column and its cells
    are converted (a column of another dtype than object holds no bytes,
    and the conversion leaves the other values as they are).  When [col]
    names several columns, [results[col]] is a frame, the access to its
    dtype raises, and the handler of the exception ends the loop. *)
Fixpoint preprocess_loop (todo columns : list string)
    (rows : list (list frame_value)) : list (list frame_value) :=
  match todo with
  | [] => rows
  | col :: rest =>
      match positions col columns O with
      | [j] => preprocess_loop rest columns (map (alter display_value j) rows)
      | _ => rows
      end
  end.

Definition preprocess_results (results : dataframe) : dataframe :=
  mkFrame (df_columns results)
          (preprocess_loop (df_columns results) (df_columns results)
                           (df_rows results)).

(** No row holds a binary cell in column [j]. *)
Definition column_clean (j : nat) (rows : list (list frame_value)) : Prop :=
  Forall (fun row : list frame_value =>
            forall c, row !! j = Some c -> holds_bytes c = false) rows.

(* ===================================================================== *)
(** * 5. openai_handler.py: the write-path translation                    *)
(* ===================================================================== *)

(** [_preprocess_thinking_tags]: the four patterns, each removed with
    [re.DOTALL | re.IGNORECASE]. *)
Definition _preprocess_thinking_tags (content : list ascii) : list ascii :=
  if negb (list_truthy content) then content
  else
    let content := remove_between true "<think>" "</think>" content in
    let content := remove_between true "<thinking>" "</thinking>" content in
    let content := remove_between true "<thoughts>" "</thoughts>" content in
    let content := remove_between true "[THINKING]" "[/THINKING]" content in
    content.

(** The tag pairs of the four patterns. *)
Definition thinking_tags : list (string * string) :=
  [("<think>"%string, "</think>"%string);
   ("<thinking>"%string, "</thinking>"%string);
   ("<thoughts>"%string, "</thoughts>"%string);
   ("[THINKING]"%string, "[/THINKING]"%string)].

(** [o] is the literal [tag] in some letter case: what a tag of a pattern
    matches under [re.IGNORECASE]. *)
Definition is_tag (tag : string) (o : list ascii) : Prop :=
  match_prefix true (chars tag) o = Some [].

(** A text in which no tag of the four patterns can start. *)
Definition inert (s : list ascii) : Prop :=
  ~ In "<"%char s /\ ~ In "["%char s.

(** A tag starts with [<] or the opening square bracket and holds neither
    of them further on. *)
Definition tag_shape (tag : string) : Prop :=
  exists o0 rest,
    chars tag = o0 :: rest /\ (o0 = "<"%char \/ o0 = "["%char) /\
    inert (map lower_ascii rest).

(** The outcome of the request to the completion service: an exception,
    or a response whose content field is a string or is missing. *)
Inductive completion : Type :=
  | ApiError
  | ApiReply (content : option string).

(** [_process_response] on the content field of the response; without a
    string in it the function ends with [None]. *)
Definition _process_response (content : option string) : option (list ascii) :=
  match content with
  | None => None
  | Some c =>
      let content := strip (chars c) in
      if list_truthy content then Some (_preprocess_thinking_tags content)
      else None
  end.

Definition required_fields : list string :=
  ["operation_type"%string; "sql"%string].

(** [field in result]; [None] is the [TypeError] raised for a value that
    is not a container. *)
Definition py_in (field : string) (result : pyval) : option bool :=
  match result with
  | PDict entries => Some (dict_has field entries)
  | PList items =>
      Some (existsb (fun v => match v with
                              | PStr s => String.eqb s field
                              | _ => false
                              end) items)
  | PStr s => Some (contains (chars field) (chars s))
  | _ => None
  end.

(** The loop over [required_fields]: [Some true] when no field is
    missing, [Some false] at the first missing field. *)
Fixpoint check_required (fields : list string) (result : pyval) : option bool :=
  match fields with
  | [] => Some true
  | field :: rest =>
      match py_in field result with
      | None => None
      | Some false => Some false
      | Some true => check_required rest result
      end
  end.

(** The clean-up of [result["sql"]]: quotes stripped, a semicolon added
    when missing.  [None] stands for the exception raised when [result]
    is not a dictionary or the field is not a string. *)
Definition clean_sql_field (result : pyval) : option pyval :=
  match py_in "sql" result with
  | None => None
  | Some false => Some result
  | Some true =>
      match result with
      | PDict entries =>
          match dict_get "sql" entries with
          | Some (PStr sql) =>
              let sql := strip_by is_quote (chars sql) in
              let sql := ensure_semicolon sql in
              Some (PDict (dict_set "sql" (PStr (text sql)) entries))
          | _ => None
          end
      | _ => None
      end
  end.

(** The text handed to [json.loads]: thinking tags and Markdown fences
    removed, white space stripped. *)
Definition mutation_document (content : list ascii) : string :=
  let content := _preprocess_thinking_tags content in
  let content := strip_open_fence "json" content in
  let content := strip_close_fence content in
  text (strip content).

(** [natural_to_modify_sql] from the outcome of the request on; the
    prompts only feed the request.  [None] is the returned [None]. *)
Definition natural_to_modify_sql (json : json_module) (reply : completion)
  : option pyval :=
  match reply with
  | ApiError => None
  | ApiReply response =>
      match _process_response response with
      | None => None
      | Some content =>
          if negb (list_truthy content) then None
          else
            match json_loads json (mutation_document content) with
            | None => None
            | Some result =>
                match check_required required_fields result with
                | Some true => clean_sql_field result
                | _ => None
                end
            end
      end
  end.

(** A complete mutation descriptor: a dictionary holding both mandatory
    fields, the statement being a string. *)
Definition complete_descriptor (v : pyval) : Prop :=
  exists entries sql,
    v = PDict entries /\
    dict_has "operation_type" entries = true /\
    dict_get "sql" entries = Some (PStr sql).

(* ===================================================================== *)
(** * 6. Concrete collaborators                                           *)
(* ===================================================================== *)

(** A small JSON writer and reader, used to run the persistence and the
    mutation parser on concrete documents.  The writer follows
    [json.dump(..., ensure_ascii=False, indent=2)]; the reader accepts
    the documents whose values are in [pyval] (numbers with a fraction
    or an exponent are not). *)
Module MiniJson.

Definition backslash : ascii := "\"%char.

Definition hex_digit (n : nat) : ascii :=
  if (n <? 10)%nat then ascii_of_nat (48 + n) else ascii_of_nat (87 + n).

Definition escape_char (c : ascii) : list ascii :=
  let n := nat_of_ascii c in
  if Ascii.eqb c dquote then [backslash; dquote]
  else if Ascii.eqb c backslash then [backslash; backslash]
  else if (n =? 8)%nat then [backslash; "b"%char]
  else if (n =? 9)%nat then [backslash; "t"%char]
  else if (n =? 10)%nat then [backslash; "n"%char]
  else if (n =? 12)%nat then [backslash; "f"%char]
  else if (n =? 13)%nat then [backslash; "r"%char]
  else if (n <? 32)%nat
       then [backslash; "u"%char; "0"%char; "0"%char;
             hex_digit (n / 16); hex_digit (n mod 16)]
  else [c].

Definition dump_string (s : string) : list ascii :=
  dquote :: concat (map escape_char (chars s)) ++ [dquote].

Definition indentation (level : nat) : list ascii :=
  newline :: repeat " "%char (2 * level).

Definition digit_char (d : N) : ascii := ascii_of_N (48 + d).

(** The decimal digits of [n], most significant first; [fuel] bounds the
    number of digits. *)
Fixpoint dump_digits (fuel : nat) (n : N) : list ascii :=
  match fuel with
  | O => []
  | S fuel' =>
      if (n <? 10)%N then [digit_char n]
      else dump_digits fuel' (n / 10) ++ [digit_char (n mod 10)]
  end.

Definition dump_N (n : N) : list ascii :=
  dump_digits (S (N.to_nat (N.log2 n))) n.

Definition dump_int (z : Z) : list ascii :=
  match z with
  | Z0 => dump_N 0
  | Zpos p => dump_N (Npos p)
  | Zneg p => "-"%char :: dump_N (Npos p)
  end.

(** The texts of [parts], with [separator] between two of them. *)
Fixpoint join (separator : list ascii) (parts : list (list ascii)) : list ascii :=
  match parts with
  | [] => []
  | part :: rest =>
      match rest with
      | [] => part
      | _ :: _ => part ++ separator ++ join separator rest
      end
  end.

Fixpoint dump (level : nat) (v : pyval) : list ascii :=
  match v with
  | PNone => chars "null"
  | PBool true => chars "true"
  | PBool false => chars "false"
  | PInt z => dump_int z
  | PStr s => dump_string s
  | PList [] => chars "[]"
  | PList items =>
      chars "[" ++ indentation (S level)
      ++ join (chars "," ++ indentation (S level)) (map (dump (S level)) items)
      ++ indentation level ++ chars "]"
  | PDict [] => chars "{}"
  | PDict entries =>
      chars "{" ++ indentation (S level)
      ++ join (chars "," ++ indentation (S level))
           (map (fun entry : string * pyval =>
                   dump_string (fst entry) ++ chars ": "
                   ++ dump (S level) (snd entry)) entries)
      ++ indentation level ++ chars "}"
  end.

Definition dumps (v : pyval) : string := text (dump O v).

Definition is_json_space (c : ascii) : bool :=
  let n := nat_of_ascii c in
  ((n =? 32) || (n =? 9) || (n =? 10) || (n =? 13))%nat.

Definition skip_space (s : list ascii) : list ascii := lstrip_by is_json_space s.

Definition digit_value (c : ascii) : option Z :=
  let n := nat_of_ascii c in
  if ((48 <=? n) && (n <=? 57))%nat then Some (Z.of_nat (n - 48)) else None.

Definition hex_value (c : ascii) : option nat :=
  let n := nat_of_ascii c in
  if ((48 <=? n) && (n <=? 57))%nat then Some (n - 48)%nat
  else if ((97 <=? n) && (n <=? 102))%nat then Some (n - 87)%nat
  else if ((65 <=? n) && (n <=? 70))%nat then Some (n - 55)%nat
  else None.

(** The digits at the head of [s], read in base ten after [acc]. *)
Fixpoint load_digits (acc : Z) (s : list ascii) : Z * list ascii :=
  match s with
  | [] => (acc, [])
  | c :: rest =>
      match digit_value c with
      | Some d => load_digits (10 * acc + d) rest
      | None => (acc, s)
      end
  end.

Definition starts_number_tail (s : list ascii) : bool :=
  match s with
  | c :: _ => Ascii.eqb c "." || Ascii.eqb c "e" || Ascii.eqb c "E"
  | [] => false
  end.

Definition load_unsigned (s : list ascii) : option (Z * list ascii) :=
  match s with
  | [] => None
  | c :: rest =>
      match digit_value c with
      | None => None
      | Some d =>
          let '(n, rest') :=
            if d =? 0 then (0, rest) else load_digits d rest in
          match rest' with
          | c' :: _ =>
              match digit_value c' with
              | Some _ => None
              | None =>
                  if starts_number_tail rest' then None else Some (n, rest')
              end
          | [] => Some (n, rest')
          end
      end
  end.

Definition load_number (s : list ascii) : option (pyval * list ascii) :=
  match s with
  | c :: rest =>
      if Ascii.eqb c "-" then
        match load_unsigned rest with
        | Some (n, rest') => Some (PInt (- n), rest')
        | None => None
        end
      else
        match load_unsigned s with
        | Some (n, rest') => Some (PInt n, rest')
        | None => None
        end
  | [] => None
  end.

Definition unescape (c : ascii) : option ascii :=
  if Ascii.eqb c dquote then Some dquote
  else if Ascii.eqb c backslash then Some backslash
  else if Ascii.eqb c "/" then Some "/"%char
  else if Ascii.eqb c "b" then Some (ascii_of_nat 8)
  else if Ascii.eqb c "t" then Some (ascii_of_nat 9)
  else if Ascii.eqb c "n" then Some (ascii_of_nat 10)
  else if Ascii.eqb c "f" then Some (ascii_of_nat 12)
  else if Ascii.eqb c "r" then Some (ascii_of_nat 13)
  else None.

Definition load_hex4 (a b c d : ascii) : option ascii :=
  match hex_value a, hex_value b, hex_value c, hex_value d with
  | Some O, Some O, Some h, Some l => Some (ascii_of_nat (16 * h + l))
  | _, _, _, _ => None
  end.

(** The characters after an opening quote, up to the closing one. *)
Fixpoint load_string (s : list ascii) (acc : list ascii)
  : option (string * list ascii) :=
  match s with
  | [] => None
  | c :: rest =>
      if Ascii.eqb c dquote then Some (text (rev acc), rest)
      else if Ascii.eqb c backslash then
        match rest with
        | [] => None
        | e :: rest1 =>
            if Ascii.eqb e "u" then
              match rest1 with
              | h1 :: h2 :: h3 :: h4 :: rest2 =>
                  match load_hex4 h1 h2 h3 h4 with
                  | Some x => load_string rest2 (x :: acc)
                  | None => None
                  end
              | _ => None
              end
            else
              match unescape e with
              | Some x => load_string rest1 (x :: acc)
              | None => None
              end
        end
      else if (nat_of_ascii c <? 32)%nat then None
      else load_string rest (c :: acc)
  end.

Definition load_literal (word : string) (v : pyval) (s : list ascii)
  : option (pyval * list ascii) :=
  match match_prefix false (chars word) s with
  | Some rest => Some (v, rest)
  | None => None
  end.

Fixpoint load_value (fuel : nat) (s : list ascii) : option (pyval * list ascii) :=
  match fuel with
  | O => None
  | S fuel' =>
      match skip_space s with
      | [] => None
      | c :: rest =>
          if Ascii.eqb c "n" then load_literal "null" PNone (c :: rest)
          else if Ascii.eqb c "t" then load_literal "true" (PBool true) (c :: rest)
          else if Ascii.eqb c "f" then load_literal "false" (PBool false) (c :: rest)
          else if Ascii.eqb c dquote then
            match load_string rest [] with
            | Some (str, rest') => Some (PStr str, rest')
            | None => None
            end
          else if Ascii.eqb c "[" then
            match skip_space rest with
            | c' :: rest' =>
                if Ascii.eqb c' "]" then Some (PList [], rest')
                else match load_items fuel' rest [] with
                     | Some (items, rest'') => Some (PList items, rest'')
                     | None => None
                     end
            | [] => None
            end
          else if Ascii.eqb c "{" then
            match skip_space rest with
            | c' :: rest' =>
                if Ascii.eqb c' "}" then Some (PDict [], rest')
                else match load_entries fuel' rest [] with
                     | Some (entries, rest'') => Some (PDict entries, rest'')
                     | None => None
                     end
            | [] => None
            end
          else load_number (c :: rest)
      end
  end
with load_items (fuel : nat) (s : list ascii) (acc : list pyval)
  : option (list pyval * list ascii) :=
  match fuel with
  | O => None
  | S fuel' =>
      match load_value fuel' s with
      | None => None
      | Some (v, rest) =>
          match skip_space rest with
          | c :: rest' =>
              if Ascii.eqb c "," then load_items fuel' rest' (acc ++ [v])
              else if Ascii.eqb c "]" then Some (acc ++ [v], rest')
              else None
          | [] => None
          end
      end
  end
with load_entries (fuel : nat) (s : list ascii) (acc : list (string * pyval))
  : option (list (string * pyval) * list ascii) :=
  match fuel with
  | O => None
  | S fuel' =>
      match skip_space s with
      | q :: after_quote =>
          if Ascii.eqb q dquote then
            match load_string after_quote [] with
            | None => None
            | Some (key, rest) =>
                match skip_space rest with
                | colon :: rest1 =>
                    if Ascii.eqb colon ":" then
                      match load_value fuel' rest1 with
                      | None => None
                      | Some (v, rest2) =>
                          match skip_space rest2 with
                          | c :: rest3 =>
                              if Ascii.eqb c ","
                              then load_entries fuel' rest3 (dict_set key v acc)
                              else if Ascii.eqb c "}"
                              then Some (dict_set key v acc, rest3)
                              else None
                          | [] => None
                          end
                      end
                    else None
                | [] => None
                end
            end
          else None
      | [] => None
      end
  end.

(** The fuel that reading back the text of [v] takes. *)
Fixpoint cost (v : pyval) : nat :=
  match v with
  | PList items => S (list_sum (map (fun item => S (cost item)) items))
  | PDict entries =>
      S (list_sum (map (fun entry : string * pyval => S (cost (snd entry)))
                       entries))
  | _ => 1%nat
  end.

(** What may follow a number: anything but a digit, a fraction or an
    exponent. *)
Definition ends_number (rest : list ascii) : bool :=
  match rest with
  | [] => true
  | c :: _ =>
      match digit_value c with
      | Some _ => false
      | None => negb (starts_number_tail rest)
      end
  end.

(** The first character of the text of a value: no white space, no
    closing bracket. *)
Definition value_start (c : ascii) : bool :=
  negb (is_json_space c) && negb (Ascii.eqb c "]") && negb (Ascii.eqb c "}").

(** The reader gives [v] back from its text, whatever follows a number
    being allowed to follow, with fuel for the [cost] of [v]. *)
Definition reads_back (v : pyval) : Prop :=
  well_formed v = true ->
  forall level fuel rest,
    (cost v <= fuel)%nat ->
    ends_number rest = true ->
    load_value fuel (dump level v ++ rest) = Some (v, rest).

Definition loads (s : string) : option pyval :=
  match load_value (2 * String.length s + 2) (chars s) with
  | Some (v, rest) =>
      match skip_space rest with
      | [] => Some v
      | _ :: _ => None
      end
  | None => None
  end.

Definition impl : json_module := mkJson dumps loads.

End MiniJson.

(** The constructor of pandas 2 on rows of [None], bytes, integers and
    strings: a column that holds integers and [None] and nothing else
    becomes a column of floats, [None] giving [NaN]; in every other
    column the values are kept. *)
Module MiniPandas.

Definition column (rows : list (list cell)) (j : nat) : list cell :=
  omap (fun row : list cell => row !! j) rows.

Definition is_none (value : cell) : bool :=
  match value with CNone => true | _ => false end.

Definition is_int (value : cell) : bool :=
  match value with CInt _ => true | _ => false end.

(** The column is converted to floats. *)
Definition to_floats (values : list cell) : bool :=
  existsb is_none values && existsb is_int values
  && forallb (fun value => is_none value || is_int value) values.

Definition convert (floats : bool) (value : cell) : frame_value :=
  if floats then
    match value with
    | CNone => NaN
    | CInt z => Float z
    | _ => Kept value
    end
  else Kept value.

Definition DataFrame (rows : list (list cell)) (columns : list string)
  : dataframe :=
  mkFrame columns
    (map (fun row : list cell =>
            imap (fun j value => convert (to_floats (column rows j)) value) row)
         rows).

Definition impl : pandas_module := mkPandas DataFrame.

End MiniPandas.

(** A driver over a database of one table [t] with one column [x] whose
    values are unique.  It understands the statements listed in
    [execute], with or without the final semicolon. *)
Module ToyDriver.

Record session : Type := mkSession {
  committed : list cell;
  working : list cell;
  unread : option (list (list cell));
  rowcount : Z;
  alive : bool
}.

Definition cell_eqb (a b : cell) : bool :=
  match a, b with
  | CNone, CNone => true
  | CBytes x, CBytes y =>
      bool_decide (map Byte.to_N x = map Byte.to_N y)
  | CInt x, CInt y => x =? y
  | CStr x, CStr y => String.eqb x y
  | _, _ => false
  end.

Definition insert (v : cell) (s : session) : session * option string :=
  if existsb (cell_eqb v) (working s)
  then (s, Some "1062 (23000): Duplicate entry for key 't.x'"%string)
  else (mkSession (committed s) (working s ++ [v]) None 1 (alive s), None).

Definition is_semicolon (c : ascii) : bool := Ascii.eqb c ";".

Definition execute (sql : string) (s : session) : session * option string :=
  let statement := text (rstrip_by is_semicolon (chars sql)) in
  if String.eqb statement "INSERT INTO t VALUES (1)" then insert (CInt 1) s
  else if String.eqb statement "INSERT INTO t VALUES (2)" then insert (CInt 2) s
  else if String.eqb statement "INSERT INTO t VALUES (x'00ff')"
       then insert (CBytes [Byte.x00; Byte.xff]) s
  else if String.eqb statement "SELECT x FROM t"
       then (mkSession (committed s) (working s)
               (Some (map (fun c => [c]) (working s))) (-1) (alive s), None)
  else (s, Some "1064 (42000): You have an error in your SQL syntax"%string).

Definition fetchall (s : session) : session * (string + list (list cell)) :=
  match unread s with
  | Some rows =>
      (mkSession (committed s) (working s) None (len rows) (alive s), inr rows)
  | None => (s, inl "No result set to fetch from."%string)
  end.

Definition description (s : session) : list string := ["x"%string].

Definition commit (s : session) : session * option string :=
  (mkSession (working s) (working s) None (rowcount s) (alive s), None).

Definition rollback (s : session) : session :=
  mkSession (committed s) (committed s) None (rowcount s) (alive s).

Definition drv : driver session :=
  mkDriver session execute fetchall description rowcount commit rollback alive.

(** A fresh connection to a database holding [rows]. *)
Definition connect (rows : list cell) : session :=
  mkSession rows rows None (-1) true.

End ToyDriver.

(** A driver over a database that holds the table [t] of [ToyDriver] and
    the names of the other tables.  Besides the statements of
    [ToyDriver] it understands [CREATE TABLE u (x INT)], which, as every
    data-definition statement of MySQL, commits the work of the session
    and is committed itself. *)
Module DdlDriver.

Record database : Type := mkDatabase {
  rows : list cell;
  tables : list string
}.

Record session : Type := mkSession {
  committed : database;
  working : database;
  unread : option (list (list cell));
  rowcount : Z;
  alive : bool
}.

Definition insert (v : cell) (s : session) : session * option string :=
  if existsb (ToyDriver.cell_eqb v) (rows (working s))
  then (s, Some "1062 (23000): Duplicate entry for key 't.x'"%string)
  else (mkSession (committed s)
          (mkDatabase (rows (working s) ++ [v]) (tables (working s)))
          None 1 (alive s), None).

Definition create_table (name : string) (s : session)
  : session * option string :=
  if existsb (String.eqb name) (tables (working s))
  then (mkSession (working s) (working s) None (rowcount s) (alive s),
        Some "1050 (42S01): Table already exists"%string)
  else
    let created :=
      mkDatabase (rows (working s)) (tables (working s) ++ [name]) in
    (mkSession created created None 0 (alive s), None).

Definition execute (sql : string) (s : session) : session * option string :=
  let statement := text (rstrip_by ToyDriver.is_semicolon (chars sql)) in
  if String.eqb statement "INSERT INTO t VALUES (1)" then insert (CInt 1) s
  else if String.eqb statement "INSERT INTO t VALUES (2)" then insert (CInt 2) s
  else if String.eqb statement "CREATE TABLE u (x INT)" then create_table "u" s
  else if String.eqb statement "SELECT x FROM t"
       then (mkSession (committed s) (working s)
               (Some (map (fun c => [c]) (rows (working s)))) (-1) (alive s),
             None)
  else (s, Some "1064 (42000): You have an error in your SQL syntax"%string).

Definition fetchall (s : session) : session * (string + list (list cell)) :=
  match unread s with
  | Some fetched =>
      (mkSession (committed s) (working s) None (len fetched) (alive s),
       inr fetched)
  | None => (s, inl "No result set to fetch from."%string)
  end.

Definition description (s : session) : list string := ["x"%string].

Definition commit (s : session) : session * option string :=
  (mkSession (working s) (working s) None (rowcount s) (alive s), None).

Definition rollback (s : session) : session :=
  mkSession (committed s) (committed s) None (rowcount s) (alive s).

Definition drv : driver session :=
  mkDriver session execute fetchall description rowcount commit rollback alive.

(** A fresh connection to a database holding [content]. *)
Definition connect (content : database) : session :=
  mkSession content content None (-1) true.

End DdlDriver.

(** ** Values used in the examples *)

Definition op_A : pyval :=
  make_operation "2024-01-01 10:00:00" (PStr "SELECT") (PStr "SELECT 1;")
    (PStr "A") (PInt 1) (PStr "ok") PNone.
Definition op_B : pyval :=
  make_operation "2024-01-01 10:00:01" (PStr "INSERT")
    (PStr "INSERT INTO t VALUES (1);") (PStr "B") (PInt 1) (PStr "ok")
    (PStr "DELETE FROM t WHERE x = 1;").
Definition op_C : pyval :=
  make_operation "2024-01-01 10:00:02" (PStr "UPDATE")
    (PStr "UPDATE t SET x = 2;") (PStr "C") (PInt 1) (PStr "ok") PNone.
Definition op_D : pyval :=
  make_operation "2024-01-01 10:00:03" (PStr "DELETE")
    (PStr "DELETE FROM t WHERE x = 2;") (PStr "D") (PInt 1) (PStr "ok") PNone.

(** A reply of the completion service: a thinking block, then a fenced
    JSON object that lacks the [sql] field. *)
Definition document_without_sql : pyval :=
  PDict [ ("operation_type"%string, PStr "INSERT");
          ("affected_table"%string, PStr "t");
          ("description"%string, PStr "adds a row") ].
Definition reply_without_sql : string :=
  ("<think>plan</think>```json" +:+ MiniJson.dumps document_without_sql
   +:+ "```")%string.

(** A reply holding every field of the contract. *)
Definition document_complete : pyval :=
  PDict [ ("operation_type"%string, PStr "INSERT");
          ("sql"%string, PStr "'INSERT INTO t VALUES (1)'");
          ("affected_table"%string, PStr "t");
          ("rollback_sql"%string, PStr "DELETE FROM t WHERE x = 1;");
          ("description"%string, PStr "adds a row") ].
Definition reply_complete : string :=
  ("```json" +:+ MiniJson.dumps document_complete +:+ "```")%string.

(** The calls of the examples, written on the history alone. *)
Definition add_A (h : OperationHistory) : OperationHistory :=
  snd (add_operation "2024-01-01 10:00:00" (PStr "SELECT") (PStr "SELECT 1;")
         (PStr "A") (PInt 1) (PStr "ok") PNone h).
Definition add_B (h : OperationHistory) : OperationHistory :=
  snd (add_operation "2024-01-01 10:00:01" (PStr "INSERT")
         (PStr "INSERT INTO t VALUES (1);") (PStr "B") (PInt 1) (PStr "ok")
         (PStr "DELETE FROM t WHERE x = 1;") h).
Definition add_C (h : OperationHistory) : OperationHistory :=
  snd (add_operation "2024-01-01 10:00:02" (PStr "UPDATE")
         (PStr "UPDATE t SET x = 2;") (PStr "C") (PInt 1) (PStr "ok") PNone h).
Definition add_D (h : OperationHistory) : OperationHistory :=
  snd (add_operation "2024-01-01 10:00:03" (PStr "DELETE")
         (PStr "DELETE FROM t WHERE x = 2;") (PStr "D") (PInt 1) (PStr "ok")
         PNone h).
Definition undo (h : OperationHistory) : OperationHistory :=
  fst (get_previous_operation h).

(** The histories reached from the empty one through the mutating
    methods that do not read a file. *)
Inductive built (capacity : Z) : OperationHistory -> Prop :=
  | built_init : built capacity (init capacity)
  | built_add h operation :
      built capacity h -> built capacity (append_operation operation h)
  | built_undo h :
      built capacity h -> built capacity (fst (get_previous_operation h))
  | built_redo h :
      built capacity h -> built capacity (fst (get_next_operation h))
  | built_clear h :
      built capacity h -> built capacity (clear_history h).

(** The histories reached through the mutating methods and the loads of
    files that hold a JSON array.  A load that fails before the assignment
    leaves the object as it is.  A load of a document that is not an array
    leaves in [history] a value that is not a list ([LoadedNonList]): such
    an object is outside [OperationHistory] and outside this predicate. *)
Inductive reachable (capacity : Z) : OperationHistory -> Prop :=
  | reachable_init : reachable capacity (init capacity)
  | reachable_add h operation :
      reachable capacity h -> reachable capacity (append_operation operation h)
  | reachable_undo h :
      reachable capacity h -> reachable capacity (fst (get_previous_operation h))
  | reachable_redo h :
      reachable capacity h -> reachable capacity (fst (get_next_operation h))
  | reachable_clear h :
      reachable capacity h -> reachable capacity (clear_history h)
  | reachable_load h json filename fs h' :
      reachable capacity h ->
      load_from_file json filename h fs = Loaded true h' ->
      reachable capacity h'.

(* ===================================================================== *)
(** * 6b. Further functions of the sources                               *)
(* ===================================================================== *)

(** ** database.py *)

(** The kinds that [execute_modification] accepts. *)
Definition modification_types : list string :=
  ["INSERT"%string; "UPDATE"%string; "DELETE"%string;
   "CREATE"%string; "ALTER"%string; "DROP"%string].

(** [execute_modification]: [inl] is [(False, message)], [inr] is
    [(True, affected_rows)]. *)
Definition execute_modification {session} (drv : driver session)
    (connection : option session) (sql : string)
  : option session * (string + Z) :=
  match connection with
  | None => (None, inl "数据库未连接"%string)
  | Some s =>
      if negb (drv_is_connected drv s)
      then (Some s, inl "数据库未连接"%string)
      else
        let sql := validate_sql sql in
        let operation_type := detect_operation_type sql in
        if negb (existsb (String.eqb operation_type) modification_types)
        then (Some s, inl ("不支持的操作类型: " +:+ operation_type)%string)
        else
          match drv_execute drv sql s with
          | (s1, Some err) =>
              (Some (rollback_if_connected drv s1),
               inl (handle_exception err "执行修改操作"))
          | (s1, None) =>
              let affected_rows := drv_rowcount drv s1 in
              match drv_commit drv s1 with
              | (s2, Some err) =>
                  (Some (rollback_if_connected drv s2),
                   inl (handle_exception err "执行修改操作"))
              | (s2, None) => (Some s2, inr affected_rows)
              end
          end
  end.

(** [close]: the connection object is dropped. *)
Definition close {session} (connection : option session) : option session :=
  None.

(** How a result of [execute_transaction] answers its statement, run
    from the session [s] and leaving the session [s']: the statement is
    executed without error; when its kind starts with [SELECT] the rows
    are fetched and the result is the frame built from them and from the
    column names of the cursor; otherwise the result is the kind with the
    row count of the cursor. *)
Definition answers {session} (drv : driver session) (pd : pandas_module)
    (sql : string) (s : session) (result : statement_result) (s' : session)
  : Prop :=
  exists s1,
    drv_execute drv sql s = (s1, None) /\
    if startswith (chars "SELECT") (chars (detect_operation_type sql))
    then exists rows,
           drv_fetchall drv s1 = (s', inr rows) /\
           result = SelectResult (pd_DataFrame pd rows (drv_description drv s'))
    else s' = s1 /\
         result = ModifyResult (detect_operation_type sql) (drv_rowcount drv s1).

(** The statements of a list answered one after the other, each from
    the session that the one before left. *)
Inductive answers_in_order {session} (drv : driver session) (pd : pandas_module)
  : session -> list string -> list statement_result -> session -> Prop :=
  | answers_nil s : answers_in_order drv pd s [] [] s
  | answers_cons s sql result s1 rest results s2 :
      answers drv pd sql s result s1 ->
      answers_in_order drv pd s1 rest results s2 ->
      answers_in_order drv pd s (sql :: rest) (result :: results) s2.

(** ** database.py: what the sanitizer leaves *)

(** The text holds no block comment: no [/*] that a [*/] follows. *)
Definition block_free (s : list ascii) : Prop :=
  forall before after,
    s = before ++ chars "/*" ++ after -> contains (chars "*/") after = false.

(** ** openai_handler.py: the read-path translation *)

Definition sql_keywords : list string :=
  ["SELECT"%string; "INSERT"%string; "UPDATE"%string; "DELETE"%string;
   "CREATE"%string; "ALTER"%string; "DROP"%string; "SHOW"%string;
   "USE"%string].

(** One of the keywords starts [s], whatever the case. *)
Definition starts_with_keyword (s : list ascii) : bool :=
  existsb (fun keyword =>
             match match_prefix true (chars keyword) s with
             | Some _ => true
             | None => false
             end) sql_keywords.

(** The match of [^.*?(SELECT|...|USE)] with [re.IGNORECASE]: the text
    from the first keyword on, when one starts before the first newline. *)
Fixpoint find_keyword (s : list ascii) : option (list ascii) :=
  if starts_with_keyword s then Some s
  else
    match s with
    | [] => None
    | c :: rest => if Ascii.eqb c newline then None else find_keyword rest
    end.

(** [re.sub(r'^.*?(SELECT|...|USE)', r'\1', sql, flags=re.IGNORECASE)]. *)
Definition drop_before_keyword (s : list ascii) : list ascii :=
  match find_keyword s with
  | Some from_keyword => from_keyword
  | None => s
  end.

(** [sql.split(';')[0]]. *)
Fixpoint before_semicolon (s : list ascii) : list ascii :=
  match s with
  | [] => []
  | c :: rest => if Ascii.eqb c ";" then [] else c :: before_semicolon rest
  end.

(** The last two statements of [clean_sql]. *)
Definition first_statement (s : list ascii) : list ascii :=
  before_semicolon (drop_before_keyword s) ++ chars ";".

(** The text of [clean_sql] once the thinking tags and the fences are
    removed. *)
Definition sql_text (sql : list ascii) : list ascii :=
  let sql := remove_between true "<think>" "</think>" sql in
  let sql := remove_between true "<thinking>" "</thinking>" sql in
  let sql := remove_between true "<thoughts>" "</thoughts>" sql in
  let sql := remove_between true "[THINKING]" "[/THINKING]" sql in
  let sql := strip_open_fence "sql" sql in
  let sql := strip_close_fence sql in
  sql.

(** [clean_sql]; [None] for an empty text. *)
Definition clean_sql (sql : list ascii) : option (list ascii) :=
  if negb (list_truthy sql) then None
  else Some (first_statement (sql_text sql)).

(** [natural_to_sql] from the outcome of the request on. *)
Definition natural_to_sql (reply : completion) : option string :=
  match reply with
  | ApiError => None
  | ApiReply response =>
      match _process_response response with
      | None => None
      | Some sql =>
          if negb (list_truthy sql) then None
          else
            match clean_sql sql with
            | Some cleaned => Some (text cleaned)
            | None => None
            end
      end
  end.

(** Number of semicolons of a text. *)
Definition semicolons (s : list ascii) : nat :=
  length (List.filter (fun c => Ascii.eqb c ";") s).

(** ** ui.py: the history dialog *)



(** ** settings.py: AppSettings *)

(** [self.settings.value(key, default)] on the stored settings. *)
Definition value (settings : gmap string string) (key default_value : string)
  : string :=
  default default_value (settings !! key).

Definition get_api_type (settings : gmap string string) : string :=
  value settings "api_type" "openai".

Definition set_api_type (api_type : string) (settings : gmap string string)
  : gmap string string :=
  <["api_type"%string := api_type]> settings.

Definition get_api_key (settings : gmap string string) : string :=
  value settings "api_key" "".

Definition set_api_key (api_key : string) (settings : gmap string string)
  : gmap string string :=
  <["api_key"%string := api_key]> settings.

Definition get_api_base_url (settings : gmap string string) : string :=
  let api_type := get_api_type settings in
  if String.eqb api_type "ollama"
  then value settings "ollama_api_base_url" "http://localhost:11434"
  else value settings "openai_api_base_url" "https://api.openai.com/v1".

Definition set_api_base_url (api_base_url : string)
    (settings : gmap string string) : gmap string string :=
  let api_type := get_api_type settings in
  if String.eqb api_type "ollama"
  then <["ollama_api_base_url"%string := api_base_url]> settings
  else <["openai_api_base_url"%string := api_base_url]> settings.

Definition get_model (settings : gmap string string) : string :=
  let api_type := get_api_type settings in
  if String.eqb api_type "ollama"
  then value settings "ollama_model" "llama3"
  else value settings "openai_model" "gpt-4o-mini".

Definition set_model (model : string) (settings : gmap string string)
  : gmap string string :=
  let api_type := get_api_type settings in
  if String.eqb api_type "ollama"
  then <["ollama_model"%string := model]> settings
  else <["openai_model"%string := model]> settings.

Definition get_db_host (settings : gmap string string) : string :=
  value settings "db_host" "".
Definition set_db_host (host : string) (settings : gmap string string)
  : gmap string string :=
  <["db_host"%string := host]> settings.

Definition get_db_user (settings : gmap string string) : string :=
  value settings "db_user" "".
Definition set_db_user (user : string) (settings : gmap string string)
  : gmap string string :=
  <["db_user"%string := user]> settings.

Definition get_db_password (settings : gmap string string) : string :=
  value settings "db_password" "".
Definition set_db_password (password : string) (settings : gmap string string)
  : gmap string string :=
  <["db_password"%string := password]> settings.

Definition get_db_name (settings : gmap string string) : string :=
  value settings "db_name" "".
Definition set_db_name (db_name : string) (settings : gmap string string)
  : gmap string string :=
  <["db_name"%string := db_name]> settings.

(** [save_db_connection]: the four setters, in the order of the source. *)
Definition save_db_connection (host user password db_name : string)
    (settings : gmap string string) : gmap string string :=
  set_db_name db_name
    (set_db_password password (set_db_user user (set_db_host host settings))).

(** ** ui.py: the table named by a statement *)

(** [str.upper] on one code point below 256, as code points: the micro
    sign becomes the Greek capital mu (924) and y with diaeresis its
    capital (376), both beyond 255, and the sharp s becomes two
    characters. *)
Definition upper_point (c : ascii) : list N :=
  let n := N_of_ascii c in
  if ((97 <=? n) && (n <=? 122))%N then [(n - 32)%N]
  else if (n =? 181)%N then [924%N]
  else if (n =? 223)%N then [83%N; 83%N]
  else if ((224 <=? n) && (n <=? 254) && negb (n =? 247))%N
       then [(n - 32)%N]
  else if (n =? 255)%N then [376%N]
  else [n].

(** The upper case of a text of code points below 256. *)
Definition upper_points (s : list ascii) : list N :=
  concat (map upper_point s).

(** The class [\w] of [re] on the code points of such a text: those below
    256, and the two capitals beyond. *)
Definition is_word (n : N) : bool :=
  ((48 <=? n) && (n <=? 57) || (65 <=? n) && (n <=? 90) || (n =? 95)
   || (97 <=? n) && (n <=? 122) || (n =? 170)
   || (178 <=? n) && (n <=? 179) || (n =? 181)
   || (185 <=? n) && (n <=? 186) || (188 <=? n) && (n <=? 190)
   || (192 <=? n) && (n <=? 214) || (216 <=? n) && (n <=? 246)
   || (248 <=? n) && (n <=? 255) || (n =? 376) || (n =? 924))%N.

(** The class [\s] of [re] on the same code points: the set of
    [is_space]; neither capital beyond 255 is white space. *)
Definition is_white (n : N) : bool :=
  ((9 <=? n) && (n <=? 13) || (28 <=? n) && (n <=? 32)
   || (n =? 133) || (n =? 160))%N.

(** When the code points [s] start with the literal [p], what follows
    it. *)
Fixpoint match_literal (p : list ascii) (s : list N) : option (list N) :=
  match p with
  | [] => Some s
  | a :: p' =>
      match s with
      | [] => None
      | b :: s' =>
          if (N_of_ascii a =? b)%N then match_literal p' s' else None
      end
  end.

(** [s.startswith(p)] on code points. *)
Definition starts_with (p : list ascii) (s : list N) : bool :=
  match match_literal p s with Some _ => true | None => false end.

(** The longest prefix of [s] made of characters of the class [f], and
    what is left without it. *)
Fixpoint leading {A} (f : A -> bool) (s : list A) : list A :=
  match s with
  | [] => []
  | c :: rest => if f c then c :: leading f rest else []
  end.

Fixpoint after_leading {A} (f : A -> bool) (s : list A) : list A :=
  match s with
  | [] => []
  | c :: rest => if f c then after_leading f rest else s
  end.

(** The group of [\s+(\w+)] matched at the start of [rest]: white space,
    all of it, then the word that follows. *)
Definition name_after (rest : list N) : option (list N) :=
  match rest with
  | [] => None
  | c :: _ =>
      if is_white c then
        match leading is_word (after_leading is_white rest) with
        | [] => None
        | name => Some name
        end
      else None
  end.

(** [re.search(P + r"\s+(\w+)", s)] for a literal [P]: the group of the
    leftmost match. *)
Fixpoint search_name (p : list ascii) (s : list N) : option (list N) :=
  match match match_literal p s with
        | Some rest => name_after rest
        | None => None
        end with
  | Some name => Some name
  | None =>
      match s with
      | [] => None
      | _ :: s' => search_name p s'
      end
  end.

(** [extract_table_name]: the name, as code points.  The statement is
    stripped and put in upper case before the tests and the search, as in
    the source. *)
Definition extract_table_name (sql : string) : option (list N) :=
  let sql := upper_points (strip (chars sql)) in
  if starts_with (chars "INSERT INTO") sql
  then search_name (chars "INSERT INTO") sql
  else if starts_with (chars "UPDATE") sql
  then search_name (chars "UPDATE") sql
  else if starts_with (chars "DELETE FROM") sql
  then search_name (chars "DELETE FROM") sql
  else if starts_with (chars "SELECT") sql
  then search_name (chars "FROM") sql
  else None.

(** ** ui.py: the clean-up of the data frame *)

(** What the clean-up of a column does to a row that was reached from
    [row] by such clean-ups. *)
Definition cleaned_from (row row' : list frame_value) : Prop :=
  length row' = length row /\
  forall j c,
    row !! j = Some c ->
    row' !! j = Some c \/
    (holds_bytes c = true /\ row' !! j = Some (display_value c)).

(** ** Repeated navigation in the history *)

(** [n] calls of [get_previous_operation], of [get_next_operation]. *)
Fixpoint undo_times (n : nat) (self : OperationHistory) : OperationHistory :=
  match n with
  | O => self
  | S n' => undo_times n' (fst (get_previous_operation self))
  end.

Fixpoint redo_times (n : nat) (self : OperationHistory) : OperationHistory :=
  match n with
  | O => self
  | S n' => redo_times n' (fst (get_next_operation self))
  end.

(* ===================================================================== *)
(** * 7. Facts about lists and slices                                     *)
(* ===================================================================== *)

Lemma len_nil {A} : len (@nil A) = 0.
Proof. reflexivity. Qed.

Lemma len_app {A} (l k : list A) : len (l ++ k) = len l + len k.
Proof. unfold len. rewrite length_app. lia. Qed.

Lemma len_nonneg {A} (l : list A) : 0 <= len l.
Proof. unfold len. lia. Qed.

Lemma len_take {A} (l : list A) (n : nat) :
  len (take n l) = Z.min (Z.of_nat n) (len l).
Proof. unfold len. rewrite length_take. lia. Qed.

Lemma len_drop_1 {A} (l : list A) :
  len (slice_from_1 l) = Z.max 0 (len l - 1).
Proof. unfold len, slice_from_1. rewrite length_drop. lia. Qed.

Lemma slice_to_nonneg {A} (l : list A) (k : Z) :
  0 <= k -> slice_to l k = take (Z.to_nat k) l.
Proof.
  intros Hk. unfold slice_to.
  destruct (Z.ltb_spec k 0); [lia | reflexivity].
Qed.

Lemma slice_to_prefix {A} (l : list A) (k : Z) : exists n, slice_to l k = take n l.
Proof. unfold slice_to. destruct (k <? 0); eauto. Qed.

Lemma len_slice_to {A} (l : list A) (k : Z) : len (slice_to l k) <= len l.
Proof.
  destruct (slice_to_prefix l k) as [n ->]. rewrite len_take. lia.
Qed.

Lemma py_index_in_range {A} (l : list A) (i : Z) :
  0 <= i < len l -> py_index l i = l !! Z.to_nat i.
Proof.
  intros [H0 H1]. unfold py_index.
  destruct (Z.leb_spec 0 i); [|lia].
  destruct (Z.ltb_spec i (len l)); [reflexivity | lia].
Qed.

Lemma lookup_in_range {A} (l : list A) (i : Z) :
  0 <= i < len l -> exists x, l !! Z.to_nat i = Some x.
Proof.
  intros H. apply lookup_lt_is_Some_2. unfold len in H. lia.
Qed.

Lemma py_index_last {A} (l : list A) (x : A) :
  py_index (l ++ [x]) (len (l ++ [x]) - 1) = Some x.
Proof.
  rewrite py_index_in_range.
  - replace (Z.to_nat (len (l ++ [x]) - 1)) with (length l)
      by (rewrite len_app; unfold len; simpl; lia).
    apply list_lookup_middle. reflexivity.
  - rewrite len_app. pose proof (len_nonneg l).
    change (len [x]) with 1. lia.
Qed.

(* ===================================================================== *)
(** * 8. OperationHistory: the cursor and the capacity                    *)
(* ===================================================================== *)

Lemma truncate_after_cursor_take (self : OperationHistory) :
  -1 <= current_index self ->
  current_index self < len (history self) - 1 ->
  truncate_after_cursor self
  = take (Z.to_nat (current_index self + 1)) (history self).
Proof.
  intros Hlo Hhi. unfold truncate_after_cursor.
  destruct (Z.ltb_spec (current_index self) (len (history self) - 1)); [|lia].
  apply slice_to_nonneg. lia.
Qed.

Lemma len_truncate_after_cursor (self : OperationHistory) :
  len (truncate_after_cursor self) <= len (history self).
Proof.
  unfold truncate_after_cursor.
  destruct (current_index self <? len (history self) - 1);
    [apply len_slice_to | lia].
Qed.

Lemma evict_oldest_spec (capacity : Z) (entries : list pyval) :
  (len entries <= capacity /\ evict_oldest capacity entries = entries) \/
  (capacity < len entries /\
   evict_oldest capacity entries = slice_from_1 entries).
Proof.
  unfold evict_oldest. destruct (Z.gtb_spec (len entries) capacity).
  - right. split; [lia | reflexivity].
  - left. split; [lia | reflexivity].
Qed.

Lemma can_redo_append_operation (operation : pyval) (self : OperationHistory) :
  can_redo (append_operation operation self) = false.
Proof.
  unfold can_redo, append_operation. simpl. apply Z.ltb_irrefl.
Qed.

Lemma evict_oldest_last (capacity : Z) (l : list pyval) (x : pyval) :
  1 <= capacity ->
  exists l', evict_oldest capacity (l ++ [x]) = l' ++ [x].
Proof.
  intros Hcap.
  destruct (evict_oldest_spec capacity (l ++ [x])) as [[_ ->] | [Hlt ->]].
  - eauto.
  - destruct l as [|y l].
    + rewrite len_app in Hlt. unfold len in Hlt. simpl in Hlt. lia.
    + exists l. reflexivity.
Qed.

(** Every history built without reading a file keeps the cursor between
    [-1] and the last index, and holds at most [capacity] entries. *)
Lemma built_invariant (capacity : Z) (h : OperationHistory) :
  0 <= capacity ->
  built capacity h ->
  max_history h = capacity /\
  -1 <= current_index h <= len (history h) - 1 /\
  len (history h) <= capacity.
Proof.
  intros Hcap Hb. induction Hb as [|h op Hb IH|h Hb IH|h Hb IH|h Hb IH].
  - simpl. rewrite len_nil. lia.
  - destruct IH as (Hm & Hc & Hl).
    unfold append_operation. simpl.
    pose proof (len_truncate_after_cursor h) as Ht.
    set (entries := truncate_after_cursor h ++ [op]).
    assert (He : len entries = len (truncate_after_cursor h) + 1)
      by (unfold entries; rewrite len_app; reflexivity).
    destruct (evict_oldest_spec (max_history h) entries) as [[H1 ->] | [H1 ->]].
    + pose proof (len_nonneg (truncate_after_cursor h)). lia.
    + rewrite len_drop_1.
      pose proof (len_nonneg (truncate_after_cursor h)). lia.
  - destruct IH as (Hm & Hc & Hl).
    unfold get_previous_operation, can_undo.
    destruct (Z.geb_spec (current_index h) 0); simpl; [|lia].
    destruct (py_index (history h) (current_index h)); simpl; lia.
  - destruct IH as (Hm & Hc & Hl).
    unfold get_next_operation, can_redo.
    destruct (Z.ltb_spec (current_index h) (len (history h) - 1)); simpl; [|lia].
    destruct (py_index (history h) (current_index h + 1)); simpl; lia.
  - destruct IH as (Hm & Hc & Hl). simpl. rewrite len_nil. lia.
Qed.

(** Whatever the methods called and the arrays loaded, the cursor stays
    between [-1] and the last index. *)
Lemma reachable_cursor_range (capacity : Z) (h : OperationHistory) :
  reachable capacity h ->
  -1 <= current_index h <= len (history h) - 1.
Proof.
  intros Hr.
  induction Hr as [|h op Hr IH|h Hr IH|h Hr IH|h Hr IH|h json filename fs h' Hr IH Hl].
  - simpl. rewrite len_nil. lia.
  - unfold append_operation. simpl.
    pose proof (len_nonneg
      (evict_oldest (max_history h) (truncate_after_cursor h ++ [op]))).
    lia.
  - unfold get_previous_operation, can_undo.
    destruct (Z.geb_spec (current_index h) 0); simpl; [|lia].
    destruct (py_index (history h) (current_index h)); simpl; lia.
  - unfold get_next_operation, can_redo.
    destruct (Z.ltb_spec (current_index h) (len (history h) - 1)); simpl; [|lia].
    destruct (py_index (history h) (current_index h + 1)); simpl; lia.
  - simpl. rewrite len_nil. lia.
  - unfold load_from_file in Hl.
    destruct (fs !! filename) as [[text| |]|]; try discriminate.
    destruct (json_loads json text) as [[| | | |items|]|]; try discriminate;
      try (destruct (py_truthy _); destruct (py_len _); discriminate).
    inversion Hl; subst. simpl.
    destruct items; simpl; [rewrite len_nil; lia|].
    pose proof (len_nonneg items). unfold len in *. simpl. lia.
Qed.

(** C1.  In a history whose cursor is not on the last entry,
    [add_operation] keeps exactly the entries up to the cursor, appends the
    new record after them (before the capacity check) and leaves no
    operation to redo.  After adding A, B and C, undoing twice and adding
    D, the history is [A; D] with the cursor on D. *)
Theorem add_operation_discards_redo_branch
    (now : string)
    (operation_type query natural_query affected_rows result rollback_sql : pyval)
    (self : OperationHistory) :
  -1 <= current_index self ->
  current_index self < len (history self) - 1 ->
  let operation :=
    make_operation now operation_type query natural_query
                   affected_rows result rollback_sql in
  let kept := take (Z.to_nat (current_index self + 1)) (history self) in
  let self' :=
    snd (add_operation now operation_type query natural_query
                       affected_rows result rollback_sql self) in
  len kept = current_index self + 1 /\
  history self' = evict_oldest (max_history self) (kept ++ [operation]) /\
  (len kept < max_history self -> history self' = kept ++ [operation]) /\
  current_index self' = len (history self') - 1 /\
  can_redo self' = false /\
  (let h := add_D (undo (undo (add_C (add_B (add_A init_default))))) in
   history h = [op_A; op_D] /\
   current_index h = 1 /\
   py_index (history h) (current_index h) = Some op_D /\
   can_redo h = false).
Proof.
  intros Hlo Hhi operation kept self'.
  assert (Hh : history self'
               = evict_oldest (max_history self) (kept ++ [operation])).
  { unfold self', add_operation, append_operation. simpl.
    rewrite truncate_after_cursor_take by assumption. reflexivity. }
  repeat split.
  - unfold kept. rewrite len_take. lia.
  - exact Hh.
  - intros Hroom. rewrite Hh.
    destruct (evict_oldest_spec (max_history self) (kept ++ [operation]))
      as [[_ ->] | [Hover _]]; [reflexivity|].
    rewrite len_app in Hover. change (len [operation]) with 1 in Hover. lia.
  - apply can_redo_append_operation.
Qed.

Lemma add_operation_discards_redo_branch_witness :
  (-1 <= 0 /\ 0 < len [op_A; op_B; op_C] - 1) /\
  history
    (snd (add_operation "2024-01-01 10:00:03" (PStr "DELETE")
            (PStr "DELETE FROM t WHERE x = 2;") (PStr "D") (PInt 1)
            (PStr "ok") PNone (mkHistory [op_A; op_B; op_C] 0 100)))
  = [op_A; op_D].
Proof.
  assert (Hlo : -1 <= current_index (mkHistory [op_A; op_B; op_C] 0 100))
    by (simpl; lia).
  assert (Hhi : current_index (mkHistory [op_A; op_B; op_C] 0 100)
                < len (history (mkHistory [op_A; op_B; op_C] 0 100)) - 1)
    by (vm_compute; reflexivity).
  split; [split; [exact Hlo | exact Hhi] |].
  refine (proj1 (proj2 (proj2
    (add_operation_discards_redo_branch "2024-01-01 10:00:03" (PStr "DELETE")
       (PStr "DELETE FROM t WHERE x = 2;") (PStr "D") (PInt 1) (PStr "ok")
       PNone (mkHistory [op_A; op_B; op_C] 0 100) Hlo Hhi))) _).
  vm_compute. reflexivity.
Defined.

(** C2, as stated, fails on a history that holds more entries than its
    capacity, which [load_from_file] produces from a longer file: with
    capacity 2 and three loaded entries, adding D leaves three entries. *)
Lemma add_operation_over_capacity_after_load :
  let fs : gmap string file_node :=
    {[ "operation_history.json"%string :=
         TextFile (MiniJson.dumps (PList [op_A; op_B; op_C])) ]} in
  let loaded := mkHistory [op_A; op_B; op_C] 2 2 in
  load_from_file MiniJson.impl "operation_history.json" (init 2) fs
  = Loaded true loaded /\
  1 <= max_history loaded /\
  history (add_D loaded) = [op_B; op_C; op_D] /\
  ~ len (history (add_D loaded)) <= max_history (add_D loaded).
Proof.
  repeat split; try (vm_compute; reflexivity).
  - vm_compute. discriminate.
  - vm_compute. intros H. apply H. reflexivity.
Qed.

(** C2, amended.  In a history of capacity at least 1 that holds at most
    [max_history] entries, after [add_operation] the sequence still holds
    at most [max_history] entries; on overflow exactly the oldest entry
    has left from the front; the cursor is on the last entry, which is
    the new record.  With capacity 2, adding A, B and C gives [B; C] with
    the cursor at index 1. *)
Theorem add_operation_within_capacity
    (now : string)
    (operation_type query natural_query affected_rows result rollback_sql : pyval)
    (self : OperationHistory) :
  1 <= max_history self ->
  len (history self) <= max_history self ->
  let operation :=
    make_operation now operation_type query natural_query
                   affected_rows result rollback_sql in
  let appended := truncate_after_cursor self ++ [operation] in
  let self' :=
    snd (add_operation now operation_type query natural_query
                       affected_rows result rollback_sql self) in
  max_history self' = max_history self /\
  len (history self') <= max_history self /\
  ((len appended <= max_history self /\ history self' = appended) \/
   (max_history self < len appended /\
    exists oldest, appended = oldest :: history self')) /\
  current_index self' = len (history self') - 1 /\
  py_index (history self') (current_index self') = Some operation /\
  (let h := add_C (add_B (add_A (init 2))) in
   history h = [op_B; op_C] /\ current_index h = 1 /\
   py_index (history h) (current_index h) = Some op_C).
Proof.
  intros Hcap Hlen operation appended self'.
  assert (Hh : history self' = evict_oldest (max_history self) appended)
    by reflexivity.
  assert (Hi : current_index self' = len (history self') - 1) by reflexivity.
  assert (Happ : len appended = len (truncate_after_cursor self) + 1)
    by (unfold appended; rewrite len_app; reflexivity).
  pose proof (len_truncate_after_cursor self) as Ht.
  pose proof (len_nonneg (truncate_after_cursor self)) as Hn.
  split; [reflexivity|]. split; [|split; [|split; [exact Hi|split]]].
  - rewrite Hh.
    destruct (evict_oldest_spec (max_history self) appended)
      as [[H1 ->] | [H1 ->]]; [lia|].
    rewrite len_drop_1. lia.
  - rewrite Hh.
    destruct (evict_oldest_spec (max_history self) appended)
      as [[H1 ->] | [H1 ->]]; [left; split; [lia | reflexivity]|].
    right. split; [lia|].
    unfold appended. destruct (truncate_after_cursor self) as [|oldest rest].
    + exists operation. rewrite Happ, len_nil in H1. lia.
    + exists oldest. reflexivity.
  - rewrite Hi, Hh. unfold appended.
    destruct (evict_oldest_last (max_history self)
                (truncate_after_cursor self) operation Hcap) as [l' ->].
    apply py_index_last.
  - vm_compute. repeat split; reflexivity.
Qed.

Lemma add_operation_within_capacity_witness :
  (1 <= 2 /\ len [op_A; op_B] <= 2) /\
  len (history
         (snd (add_operation "2024-01-01 10:00:02" (PStr "UPDATE")
                 (PStr "UPDATE t SET x = 2;") (PStr "C") (PInt 1) (PStr "ok")
                 PNone (mkHistory [op_A; op_B] 1 2))))
  <= 2.
Proof.
  assert (Hcap : 1 <= max_history (mkHistory [op_A; op_B] 1 2))
    by (simpl; lia).
  assert (Hlen : len (history (mkHistory [op_A; op_B] 1 2))
                 <= max_history (mkHistory [op_A; op_B] 1 2))
    by (vm_compute; discriminate).
  split; [split; [exact Hcap | exact Hlen] |].
  exact (proj1 (proj2
    (add_operation_within_capacity "2024-01-01 10:00:02" (PStr "UPDATE")
       (PStr "UPDATE t SET x = 2;") (PStr "C") (PInt 1) (PStr "ok") PNone
       (mkHistory [op_A; op_B] 1 2) Hcap Hlen))).
Defined.

(** C10.  In a history whose cursor is on an entry,
    [get_previous_operation] followed by [get_next_operation] returns the
    same record from both calls and leaves the history, cursor included,
    as it was. *)
Theorem undo_then_redo_restores_cursor (self : OperationHistory) :
  0 <= current_index self ->
  current_index self <= len (history self) - 1 ->
  can_undo self = true /\
  exists operation,
    history self !! Z.to_nat (current_index self) = Some operation /\
    snd (get_previous_operation self) = inr operation /\
    current_index (fst (get_previous_operation self))
    = current_index self - 1 /\
    snd (get_next_operation (fst (get_previous_operation self)))
    = inr operation /\
    fst (get_next_operation (fst (get_previous_operation self))) = self.
Proof.
  intros Hlo Hhi.
  assert (Hu : can_undo self = true).
  { unfold can_undo. destruct (Z.geb_spec (current_index self) 0);
      [reflexivity | lia]. }
  split; [exact Hu|].
  destruct (lookup_in_range (history self) (current_index self))
    as [operation Hop]; [lia|].
  assert (Hidx : py_index (history self) (current_index self) = Some operation).
  { rewrite py_index_in_range by lia. exact Hop. }
  exists operation. split; [exact Hop|].
  unfold get_previous_operation. rewrite Hu, Hidx. simpl.
  split; [reflexivity|]. split; [reflexivity|].
  unfold get_next_operation, can_redo. simpl.
  destruct (Z.ltb_spec (current_index self - 1) (len (history self) - 1));
    [|lia].
  simpl.
  replace (current_index self - 1 + 1) with (current_index self) by lia.
  rewrite Hidx. simpl. split; [reflexivity|].
  destruct self; reflexivity.
Qed.

Lemma undo_then_redo_restores_cursor_witness :
  (0 <= 1 /\ 1 <= len [op_A; op_B; op_C] - 1) /\
  can_undo (mkHistory [op_A; op_B; op_C] 1 100) = true.
Proof.
  assert (Hlo : 0 <= current_index (mkHistory [op_A; op_B; op_C] 1 100))
    by (simpl; lia).
  assert (Hhi : current_index (mkHistory [op_A; op_B; op_C] 1 100)
                <= len (history (mkHistory [op_A; op_B; op_C] 1 100)) - 1)
    by (vm_compute; discriminate).
  split; [split; [exact Hlo | exact Hhi] |].
  exact (proj1 (undo_then_redo_restores_cursor
                  (mkHistory [op_A; op_B; op_C] 1 100) Hlo Hhi)).
Defined.

(* ===================================================================== *)
(** * 9. OperationHistory: persistence                                    *)
(* ===================================================================== *)

Lemma write_text_lookup (fs fs' : gmap string file_node) (filename text : string) :
  write_text fs filename text = Some fs' ->
  fs' !! filename = Some (TextFile text).
Proof.
  unfold write_text. intros H.
  destruct (fs !! filename) as [[| |]|]; inversion H; apply lookup_insert_eq.
Qed.

Lemma write_text_unlocked (fs : gmap string file_node) (filename text : string) :
  fs !! filename <> Some Locked ->
  write_text fs filename text = Some (<[filename := TextFile text]> fs).
Proof.
  unfold write_text. intros H.
  destruct (fs !! filename) as [[| |]|]; congruence.
Qed.

(** What saving and loading back give, when the [json] module reads back
    the document it wrote and the path can be opened for writing. *)
Lemma save_then_load_outcome
    (json : json_module) (filename : string)
    (self target : OperationHistory) (fs : gmap string file_node) :
  json_loads json (json_dumps json (PList (history self)))
  = Some (PList (history self)) ->
  fs !! filename <> Some Locked ->
  snd (save_to_file json filename self fs) = true /\
  load_from_file json filename target
    (fst (save_to_file json filename self fs))
  = Loaded true
      (mkHistory (history self) (len (history self) - 1) (max_history target)).
Proof.
  intros Hjson Hfile. unfold save_to_file.
  rewrite write_text_unlocked by assumption. simpl.
  split; [reflexivity|].
  unfold load_from_file. rewrite lookup_insert_eq, Hjson.
  destruct (history self); reflexivity.
Qed.

(** C3, as stated, fails when the cursor is not on the last entry: the
    file holds the sequence only, and loading puts the cursor on the last
    entry. *)
Lemma save_then_load_moves_cursor :
  let self := mkHistory [op_A; op_B] 0 100 in
  let saved := save_to_file MiniJson.impl "operation_history.json" self ∅ in
  -1 <= current_index self <= len (history self) - 1 /\
  snd saved = true /\
  load_from_file MiniJson.impl "operation_history.json" self (fst saved)
  = Loaded true (mkHistory [op_A; op_B] 1 100) /\
  current_index (mkHistory [op_A; op_B] 1 100) <> current_index self.
Proof.
  repeat split; try (vm_compute; reflexivity); vm_compute; discriminate.
Qed.

(** C3, amended.  Saving a history and loading the file back (into any
    history object) reproduces the same ordered sequence of records; the
    cursor is put on the last entry, [-1] for an empty sequence, so it is
    the cursor of the saved history exactly when that one was on its last
    entry.  The [json] module is assumed to read back the document it
    wrote for this sequence (the writer and reader of [MiniJson] do so
    for every sequence of well-formed records), and the path to be
    writable. *)
Theorem save_then_load_restores_sequence
    (json : json_module) (filename : string)
    (self target : OperationHistory) (fs : gmap string file_node) :
  json_loads json (json_dumps json (PList (history self)))
  = Some (PList (history self)) ->
  fs !! filename <> Some Locked ->
  let saved := save_to_file json filename self fs in
  snd saved = true /\
  exists loaded,
    load_from_file json filename target (fst saved) = Loaded true loaded /\
    history loaded = history self /\
    current_index loaded = len (history self) - 1 /\
    (history self = [] -> current_index loaded = -1) /\
    (current_index loaded = current_index self <->
     current_index self = len (history self) - 1) /\
    max_history loaded = max_history target.
Proof.
  intros Hjson Hfile saved.
  destruct (save_then_load_outcome json filename self target fs Hjson Hfile)
    as [Hsaved Hloaded].
  split; [exact Hsaved|].
  eexists. split; [exact Hloaded|]. simpl. repeat split.
  - intros ->. reflexivity.
  - intros <-. reflexivity.
  - intros ->. reflexivity.
Qed.

Lemma save_then_load_restores_sequence_witness :
  (json_loads MiniJson.impl (json_dumps MiniJson.impl (PList [op_A; op_B]))
   = Some (PList [op_A; op_B]) /\
   (∅ : gmap string file_node) !! "operation_history.json"%string
   <> Some Locked) /\
  snd (save_to_file MiniJson.impl "operation_history.json"
         (mkHistory [op_A; op_B] 0 100) ∅) = true.
Proof.
  assert (Hjson :
    json_loads MiniJson.impl
      (json_dumps MiniJson.impl
         (PList (history (mkHistory [op_A; op_B] 0 100))))
    = Some (PList (history (mkHistory [op_A; op_B] 0 100))))
    by (vm_compute; reflexivity).
  assert (Hfile : (∅ : gmap string file_node) !! "operation_history.json"%string
                  <> Some Locked)
    by (rewrite lookup_empty; discriminate).
  split; [split; [exact Hjson | exact Hfile] |].
  exact (proj1 (save_then_load_restores_sequence MiniJson.impl
                  "operation_history.json" (mkHistory [op_A; op_B] 0 100)
                  init_default ∅ Hjson Hfile)).
Defined.

(** C8, as stated, fails on a history that holds entries: a failed load
    returns [False] and leaves them in place. *)
Lemma failed_load_keeps_entries :
  let self := add_A init_default in
  let fs : gmap string file_node :=
    {[ "broken.json"%string := TextFile "[{" ]} in
  load_from_file MiniJson.impl "operation_history.json" self fs
  = Loaded false self /\
  load_from_file MiniJson.impl "broken.json" self fs = Loaded false self /\
  history self = [op_A] /\
  history self <> [].
Proof.
  repeat split; try (vm_compute; reflexivity); vm_compute; discriminate.
Qed.

(** C8, amended.  When the file is missing, cannot be opened or decoded,
    or holds a text that is not a JSON document, [load_from_file] raises
    nothing, returns [False] and leaves the history as it was; a history
    that was empty, as the one the application loads into at start-up,
    is empty afterwards. *)
Theorem load_failure_keeps_history
    (json : json_module) (filename : string)
    (self : OperationHistory) (fs : gmap string file_node) :
  unloadable json filename fs = true ->
  load_from_file json filename self fs = Loaded false self /\
  (forall capacity,
     exists after,
       load_from_file json filename (init capacity) fs = Loaded false after /\
       history after = [] /\ current_index after = -1).
Proof.
  intros Hfail.
  assert (Hany : forall h, load_from_file json filename h fs = Loaded false h).
  { intros h. unfold unloadable in Hfail. unfold load_from_file.
    destruct (fs !! filename) as [[text| |]|]; try reflexivity.
    destruct (json_loads json text); [discriminate | reflexivity]. }
  split; [apply Hany|].
  intros capacity. exists (init capacity). rewrite Hany. repeat split.
Qed.

Lemma load_failure_keeps_history_witness :
  unloadable MiniJson.impl "operation_history.json" ∅ = true /\
  load_from_file MiniJson.impl "operation_history.json" init_default ∅
  = Loaded false init_default.
Proof.
  assert (Hfail : unloadable MiniJson.impl "operation_history.json" ∅ = true)
    by (vm_compute; reflexivity).
  split; [exact Hfail|].
  exact (proj1 (load_failure_keeps_history MiniJson.impl
                  "operation_history.json" init_default ∅ Hfail)).
Defined.

(* ===================================================================== *)
(** * 10. The write-path translation                                      *)
(* ===================================================================== *)

Lemma dict_has_set (key key' : string) (v : pyval)
    (entries : list (string * pyval)) :
  dict_has key entries = true -> dict_has key (dict_set key' v entries) = true.
Proof.
  unfold dict_has. induction entries as [|[k w] rest IH]; simpl.
  - discriminate.
  - destruct (String.eqb_spec k key') as [->|Hne]; simpl.
    + destruct (String.eqb key' key); [reflexivity | exact (fun H => H)].
    + destruct (String.eqb k key); [reflexivity | exact IH].
Qed.

Lemma dict_get_set (key : string) (v : pyval) (entries : list (string * pyval)) :
  dict_get key (dict_set key v entries) = Some v.
Proof.
  induction entries as [|[k w] rest IH]; simpl.
  - rewrite String.eqb_refl. reflexivity.
  - destruct (String.eqb_spec k key) as [->|Hne]; simpl.
    + rewrite String.eqb_refl. reflexivity.
    + destruct (String.eqb_spec k key); [contradiction | exact IH].
Qed.

Lemma check_required_fields (result : pyval) :
  check_required required_fields result = Some true ->
  py_in "operation_type" result = Some true /\
  py_in "sql" result = Some true.
Proof.
  unfold check_required, required_fields.
  destruct (py_in "operation_type" result) as [[|]|]; try discriminate.
  destruct (py_in "sql" result) as [[|]|]; try discriminate.
  split; reflexivity.
Qed.

(** Whatever the reply, a returned value is a complete descriptor. *)
Lemma natural_to_modify_sql_complete (json : json_module) (reply : completion)
    (v : pyval) :
  natural_to_modify_sql json reply = Some v -> complete_descriptor v.
Proof.
  unfold natural_to_modify_sql.
  destruct reply as [|response]; [discriminate|].
  destruct (_process_response response) as [content|]; [|discriminate].
  destruct (negb (list_truthy content)); [discriminate|].
  destruct (json_loads json (mutation_document content)) as [result|];
    [|discriminate].
  destruct (check_required required_fields result) as [[|]|] eqn:Hreq;
    try discriminate.
  apply check_required_fields in Hreq. destruct Hreq as [Hop Hsql].
  unfold clean_sql_field. rewrite Hsql.
  destruct result as [| | | str | items | entries]; try discriminate.
  unfold py_in in Hop. injection Hop as Hop.
  destruct (dict_get "sql" entries) as [[| | | sql | |]|]; try discriminate.
  intros H. inversion H; subst. eexists _, _. split; [reflexivity|].
  split; [apply dict_has_set; exact Hop | apply dict_get_set].
Qed.

(** C7.  When the content of the reply, once cleaned, parses to a JSON
    object that lacks [operation_type] or [sql], [natural_to_modify_sql]
    returns [None]; and whatever the reply, a value it returns is a
    complete descriptor, never a partial one. *)
Theorem natural_to_modify_sql_missing_field
    (json : json_module) (response : option string)
    (content : list ascii) (entries : list (string * pyval)) :
  _process_response response = Some content ->
  json_loads json (mutation_document content) = Some (PDict entries) ->
  dict_has "operation_type" entries = false \/ dict_has "sql" entries = false ->
  natural_to_modify_sql json (ApiReply response) = None /\
  (forall reply v,
     natural_to_modify_sql json reply = Some v -> complete_descriptor v).
Proof.
  intros Hcontent Hjson Hmissing.
  split; [|intros reply v; apply natural_to_modify_sql_complete].
  unfold natural_to_modify_sql. rewrite Hcontent.
  destruct (negb (list_truthy content)); [reflexivity|].
  rewrite Hjson. simpl.
  destruct Hmissing as [-> | Hsql]; [reflexivity|].
  rewrite Hsql. destruct (dict_has "operation_type" entries); reflexivity.
Qed.

Lemma natural_to_modify_sql_missing_field_witness :
  (_process_response (Some reply_without_sql)
   = Some (chars ("```json" +:+ MiniJson.dumps document_without_sql +:+ "```")) /\
   json_loads MiniJson.impl
     (mutation_document
        (chars ("```json" +:+ MiniJson.dumps document_without_sql +:+ "```")))
   = Some document_without_sql /\
   dict_has "sql" [ ("operation_type"%string, PStr "INSERT");
                    ("affected_table"%string, PStr "t");
                    ("description"%string, PStr "adds a row") ] = false) /\
  natural_to_modify_sql MiniJson.impl (ApiReply (Some reply_without_sql)) = None.
Proof.
  assert (Hcontent :
    _process_response (Some reply_without_sql)
    = Some (chars ("```json" +:+ MiniJson.dumps document_without_sql +:+ "```")))
    by (vm_compute; reflexivity).
  assert (Hjson :
    json_loads MiniJson.impl
      (mutation_document
         (chars ("```json" +:+ MiniJson.dumps document_without_sql +:+ "```")))
    = Some (PDict [ ("operation_type"%string, PStr "INSERT");
                    ("affected_table"%string, PStr "t");
                    ("description"%string, PStr "adds a row") ]))
    by (vm_compute; reflexivity).
  assert (Hsql :
    dict_has "sql" [ ("operation_type"%string, PStr "INSERT");
                     ("affected_table"%string, PStr "t");
                     ("description"%string, PStr "adds a row") ] = false)
    by (vm_compute; reflexivity).
  split; [split; [exact Hcontent | split; [exact Hjson | exact Hsql]] |].
  exact (proj1 (natural_to_modify_sql_missing_field MiniJson.impl
                  (Some reply_without_sql) _ _ Hcontent Hjson
                  (or_intror Hsql))).
Defined.

(** A reply holding both fields is accepted, and its statement cleaned. *)
Example natural_to_modify_sql_accepts :
  natural_to_modify_sql MiniJson.impl (ApiReply (Some reply_complete))
  = Some (PDict [ ("operation_type"%string, PStr "INSERT");
                  ("sql"%string, PStr "INSERT INTO t VALUES (1);");
                  ("affected_table"%string, PStr "t");
                  ("rollback_sql"%string, PStr "DELETE FROM t WHERE x = 1;");
                  ("description"%string, PStr "adds a row") ]).
Proof. vm_compute. reflexivity. Qed.

(* ===================================================================== *)
(** * 11. Facts about stripping and searching                             *)
(* ===================================================================== *)

Lemma lstrip_by_suffix (f : ascii -> bool) (s : list ascii) :
  exists dropped, s = dropped ++ lstrip_by f s.
Proof.
  induction s as [|c rest [d IH]]; simpl.
  - exists []. reflexivity.
  - destruct (f c).
    + exists (c :: d). simpl. f_equal. exact IH.
    + exists []. reflexivity.
Qed.

Lemma lstrip_by_head (f : ascii -> bool) (s : list ascii) :
  lstrip_by f s = [] \/
  exists c rest, lstrip_by f s = c :: rest /\ f c = false.
Proof.
  induction s as [|c rest IH]; simpl.
  - left. reflexivity.
  - destruct (f c) eqn:Hc; [exact IH|]. right. eauto.
Qed.

Lemma lstrip_by_keep (f : ascii -> bool) (c : ascii) (rest : list ascii) :
  f c = false -> lstrip_by f (c :: rest) = c :: rest.
Proof. intros H. simpl. rewrite H. reflexivity. Qed.

Lemma rstrip_by_cons_keep (f : ascii -> bool) (c : ascii) (rest : list ascii) :
  f c = false -> rstrip_by f (c :: rest) = c :: rstrip_by f rest.
Proof.
  intros H. simpl. rewrite H. destruct (rstrip_by f rest); reflexivity.
Qed.

Lemma rstrip_by_prefix (f : ascii -> bool) (s : list ascii) :
  exists dropped, s = rstrip_by f s ++ dropped.
Proof.
  induction s as [|c rest [d IH]]; simpl.
  - exists []. reflexivity.
  - destruct (rstrip_by f rest) as [|k kept] eqn:Hk.
    + destruct (f c).
      * exists (c :: rest). reflexivity.
      * exists rest. reflexivity.
    + exists d. simpl. f_equal. exact IH.
Qed.

Lemma rstrip_by_snoc (f : ascii -> bool) (l : list ascii) (c : ascii) :
  f c = false -> rstrip_by f (l ++ [c]) = l ++ [c].
Proof.
  intros Hc. induction l as [|a l IH]; simpl.
  - rewrite Hc. reflexivity.
  - rewrite IH. destruct (l ++ [c]) eqn:E; [|reflexivity].
    destruct l; discriminate.
Qed.

Lemma rstrip_by_last (f : ascii -> bool) (s : list ascii) :
  rstrip_by f s = [] \/
  exists l c, rstrip_by f s = l ++ [c] /\ f c = false.
Proof.
  induction s as [|a rest IH]; simpl.
  - left. reflexivity.
  - destruct IH as [-> | (l & c & -> & Hc)].
    + destruct (f a) eqn:Ha; [left; reflexivity|].
      right. exists [], a. split; [reflexivity | exact Ha].
    + right. exists (a :: l), c. split; [|exact Hc].
      change ((a :: l) ++ [c]) with (a :: (l ++ [c])).
      destruct (l ++ [c]) eqn:E; [destruct l; discriminate | reflexivity].
Qed.

Lemma rstrip_by_idempotent (f : ascii -> bool) (s : list ascii) :
  rstrip_by f (rstrip_by f s) = rstrip_by f s.
Proof.
  destruct (rstrip_by_last f s) as [-> | (l & c & -> & Hc)].
  - reflexivity.
  - apply rstrip_by_snoc. exact Hc.
Qed.

(** A stripped text neither starts nor ends with a stripped character. *)
Lemma strip_by_head (f : ascii -> bool) (s : list ascii) :
  strip_by f s = [] \/
  exists c rest, strip_by f s = c :: rest /\ f c = false.
Proof.
  unfold strip_by.
  destruct (lstrip_by_head f s) as [-> | (c & rest & -> & Hc)].
  - left. reflexivity.
  - right. rewrite rstrip_by_cons_keep by exact Hc. eauto.
Qed.

Lemma strip_by_fixed (f : ascii -> bool) (s : list ascii) :
  (s = [] \/ exists c rest, s = c :: rest /\ f c = false) ->
  rstrip_by f s = s ->
  strip_by f s = s.
Proof.
  intros Hhead Hlast. unfold strip_by.
  destruct Hhead as [-> | (c & rest & -> & Hc)]; [reflexivity|].
  rewrite lstrip_by_keep by exact Hc. exact Hlast.
Qed.

Lemma strip_by_idempotent (f : ascii -> bool) (s : list ascii) :
  strip_by f (strip_by f s) = strip_by f s.
Proof.
  apply strip_by_fixed.
  - apply strip_by_head.
  - unfold strip_by. apply rstrip_by_idempotent.
Qed.

Lemma chars_append (a b : string) : chars (a +:+ b) = chars a ++ chars b.
Proof.
  unfold chars. induction a as [|c a IH]; simpl; [reflexivity|].
  rewrite IH. reflexivity.
Qed.

Lemma lstrip_by_all (f : ascii -> bool) (pad s : list ascii) :
  forallb f pad = true -> lstrip_by f (pad ++ s) = lstrip_by f s.
Proof.
  induction pad as [|c pad IH]; simpl; [reflexivity|].
  intros H. apply andb_true_iff in H as [Hc Hpad]. rewrite Hc. auto.
Qed.

Lemma rstrip_by_all (f : ascii -> bool) (pad : list ascii) :
  forallb f pad = true -> rstrip_by f pad = [].
Proof.
  induction pad as [|c pad IH]; simpl; [reflexivity|].
  intros H. apply andb_true_iff in H as [Hc Hpad].
  rewrite IH by exact Hpad. rewrite Hc. reflexivity.
Qed.

(** Stripping on the right of a concatenation. *)
Lemma rstrip_by_app (f : ascii -> bool) (u v : list ascii) :
  rstrip_by f (u ++ v)
  = match rstrip_by f v with
    | [] => rstrip_by f u
    | kept => u ++ kept
    end.
Proof.
  induction u as [|c u IH]; simpl.
  - destruct (rstrip_by f v); reflexivity.
  - rewrite IH. destruct (rstrip_by f v) as [|k kept]; [reflexivity|].
    destruct u; reflexivity.
Qed.

Lemma strip_by_padded (f : ascii -> bool) (before s after : list ascii) :
  forallb f before = true -> forallb f after = true ->
  strip_by f (before ++ s ++ after) = strip_by f s.
Proof.
  intros Hb Ha. unfold strip_by. rewrite lstrip_by_all by exact Hb.
  induction s as [|c s IH]; simpl.
  - destruct (lstrip_by_suffix f after) as [d Hd].
    destruct (lstrip_by_head f after) as [-> | (x & rest & Hx & Hfx)];
      [reflexivity|].
    exfalso. rewrite Hx in Hd. rewrite Hd in Ha.
    rewrite forallb_app in Ha. simpl in Ha. rewrite Hfx in Ha.
    rewrite andb_false_r in Ha. discriminate.
  - destruct (f c); [exact IH|].
    change (c :: s ++ after) with ((c :: s) ++ after).
    rewrite rstrip_by_app, (rstrip_by_all f after Ha). reflexivity.
Qed.

Lemma lstrip_by_sublist (f : ascii -> bool) (s : list ascii) :
  sublist (lstrip_by f s) s.
Proof.
  destruct (lstrip_by_suffix f s) as [d Hd]. rewrite Hd at 2.
  apply sublist_inserts_l. reflexivity.
Qed.

Lemma rstrip_by_sublist (f : ascii -> bool) (s : list ascii) :
  sublist (rstrip_by f s) s.
Proof.
  destruct (rstrip_by_prefix f s) as [d Hd]. rewrite Hd at 2.
  apply sublist_inserts_r. reflexivity.
Qed.

Lemma strip_by_sublist (f : ascii -> bool) (s : list ascii) :
  sublist (strip_by f s) s.
Proof.
  unfold strip_by. etransitivity; [apply rstrip_by_sublist|].
  apply lstrip_by_sublist.
Qed.

Lemma remove_between_from_sublist (ignorecase : bool)
    (opening closing : list ascii) (s : list ascii) :
  forall skip,
    sublist (remove_between_from ignorecase opening closing skip s) s.
Proof.
  induction s as [|c rest IH]; intros skip; cbn [remove_between_from].
  - reflexivity.
  - destruct skip as [|k]; [|apply sublist_cons, IH].
    destruct (match_prefix ignorecase opening (c :: rest)) as [body|];
      [|apply sublist_skip, IH].
    destruct (find_end ignorecase closing body);
      [apply sublist_cons, IH | apply sublist_skip, IH].
Qed.

Lemma remove_between_sublist (ignorecase : bool) (opening closing : string)
    (s : list ascii) :
  sublist (remove_between ignorecase opening closing s) s.
Proof. apply remove_between_from_sublist. Qed.

Lemma remove_line_comments_from_sublist (s : list ascii) :
  forall in_comment, sublist (remove_line_comments_from in_comment s) s.
Proof.
  induction s as [s IH] using (induction_ltof1 _ (@length ascii)).
  unfold ltof in IH. intros in_comment.
  destruct s as [|c rest]; [reflexivity|].
  destruct in_comment; cbn [remove_line_comments_from].
  - destruct (Ascii.eqb c newline).
    + apply sublist_skip, IH. simpl. lia.
    + apply sublist_cons, IH. simpl. lia.
  - destruct rest as [|d rest']; [reflexivity|].
    destruct (Ascii.eqb c "-" && Ascii.eqb d "-").
    + apply sublist_cons, sublist_cons, IH. simpl. lia.
    + apply sublist_skip, IH. simpl. lia.
Qed.

Lemma ensure_semicolon_sublist (q : list ascii) :
  sublist (ensure_semicolon q) (q ++ chars ";").
Proof.
  unfold ensure_semicolon.
  destruct (negb (endswith (chars ";") (rstrip q))).
  - apply sublist_app; [apply rstrip_by_sublist | reflexivity].
  - apply sublist_inserts_r. reflexivity.
Qed.

Lemma validate_chars_sublist (q : list ascii) :
  sublist (validate_chars q) (q ++ chars ";").
Proof.
  unfold validate_chars.
  etransitivity; [apply remove_line_comments_from_sublist|].
  etransitivity; [apply remove_between_sublist|].
  etransitivity; [apply ensure_semicolon_sublist|].
  apply sublist_app; [apply strip_by_sublist | reflexivity].
Qed.

Lemma match_prefix_suffix (ignorecase : bool) (p s rest : list ascii) :
  match_prefix ignorecase p s = Some rest ->
  exists matched, s = matched ++ rest /\ length matched = length p.
Proof.
  revert s. induction p as [|a p IH]; intros s H; simpl in H.
  - injection H as <-. exists []. split; reflexivity.
  - destruct s as [|b s]; [discriminate|].
    destruct (char_match ignorecase a b); [|discriminate].
    destruct (IH _ H) as (m & -> & Hm). exists (b :: m).
    split; [reflexivity | simpl; rewrite Hm; reflexivity].
Qed.

Lemma char_match_exact (a b : ascii) : char_match false a b = true <-> a = b.
Proof. unfold char_match. apply Ascii.eqb_eq. Qed.

Lemma match_prefix_exact (p s rest : list ascii) :
  match_prefix false p s = Some rest <-> s = p ++ rest.
Proof.
  revert s. induction p as [|a p IH]; intros s; simpl.
  - split; [intros H; inversion H; reflexivity | intros ->; reflexivity].
  - destruct s as [|b s]; [split; discriminate|].
    destruct (Ascii.eqb_spec a b) as [<-|Hab].
    + rewrite IH.
      split; [intros ->; reflexivity | intros H; inversion H; reflexivity].
    + split; [discriminate|]. intros H. inversion H; subst. contradiction.
Qed.

Lemma startswith_true (p s : list ascii) :
  startswith p s = true <-> exists rest, s = p ++ rest.
Proof.
  unfold startswith. split.
  - destruct (match_prefix false p s) as [rest|] eqn:E; [|discriminate].
    intros _. exists rest. apply match_prefix_exact. exact E.
  - intros [rest H]. apply match_prefix_exact in H. rewrite H. reflexivity.
Qed.

Lemma contains_true (p s : list ascii) :
  contains p s = true <-> exists before after, s = before ++ p ++ after.
Proof.
  induction s as [|c s IH].
  - simpl. rewrite orb_false_r, startswith_true. split.
    + intros [rest H]. exists [], rest. exact H.
    + intros (before & after & H). destruct before; [|discriminate].
      exists after. exact H.
  - simpl. rewrite orb_true_iff, startswith_true, IH. split.
    + intros [[rest H] | (before & after & H)].
      * exists [], rest. exact H.
      * exists (c :: before), after. simpl. f_equal. exact H.
    + intros (before & after & H). destruct before as [|b before].
      * left. exists after. exact H.
      * right. inversion H; subst. eauto.
Qed.

Lemma contains_false_part (p before s after : list ascii) :
  contains p (before ++ s ++ after) = false -> contains p s = false.
Proof.
  intros H. destruct (contains p s) eqn:E; [|reflexivity].
  apply contains_true in E. destruct E as (b & a & ->).
  rewrite <- H. symmetry. apply contains_true.
  exists (before ++ b), (a ++ after). rewrite <- !app_assoc. reflexivity.
Qed.

Lemma contains_false_lstrip (p : list ascii) (f : ascii -> bool) (s : list ascii) :
  contains p s = false -> contains p (lstrip_by f s) = false.
Proof.
  intros H. destruct (lstrip_by_suffix f s) as [d Hd].
  rewrite Hd in H. apply (contains_false_part p d _ []).
  rewrite app_nil_r. exact H.
Qed.

Lemma contains_false_rstrip (p : list ascii) (f : ascii -> bool) (s : list ascii) :
  contains p s = false -> contains p (rstrip_by f s) = false.
Proof.
  intros H. destruct (rstrip_by_prefix f s) as [d Hd].
  rewrite Hd in H. apply (contains_false_part p [] _ d). exact H.
Qed.

(** Appending a character that is not the last one of the pattern creates
    no occurrence. *)
Lemma contains_false_snoc (p : list ascii) (z c : ascii) (s : list ascii) :
  z <> c ->
  contains (p ++ [z]) s = false -> contains (p ++ [z]) (s ++ [c]) = false.
Proof.
  intros Hzc H. destruct (contains (p ++ [z]) (s ++ [c])) eqn:E; [|reflexivity].
  apply contains_true in E. destruct E as (before & after & E).
  induction after as [|x after' _] using rev_ind.
  - rewrite app_nil_r, app_assoc in E.
    apply app_inj_tail in E. destruct E as [_ E]. congruence.
  - rewrite !app_assoc in E. apply app_inj_tail in E. destruct E as [E _].
    rewrite <- H. symmetry. apply contains_true.
    exists before, after'. rewrite E, <- !app_assoc. reflexivity.
Qed.

(* ===================================================================== *)
(** * 12. The SQL sanitizer                                               *)
(* ===================================================================== *)

Lemma remove_between_from_no_match (ignorecase : bool)
    (opening closing : list ascii) (c : ascii) (rest : list ascii) :
  match_prefix ignorecase opening (c :: rest) = None ->
  remove_between_from ignorecase opening closing O (c :: rest)
  = c :: remove_between_from ignorecase opening closing O rest.
Proof.
  intros H. cbn [remove_between_from]. rewrite H. reflexivity.
Qed.

(** Without an opening delimiter nothing is removed. *)
Lemma remove_between_absent (opening closing : string) (s : list ascii) :
  contains (chars opening) s = false ->
  remove_between false opening closing s = s.
Proof.
  unfold remove_between. induction s as [|c rest IH]; intros H.
  - reflexivity.
  - cbn [contains] in H. apply orb_false_iff in H. destruct H as [H1 H2].
    unfold startswith in H1.
    destruct (match_prefix false (chars opening) (c :: rest)) eqn:E;
      [discriminate|].
    rewrite remove_between_from_no_match by exact E.
    rewrite IH by exact H2. reflexivity.
Qed.

Lemma startswith_two (a b c d : ascii) (rest : list ascii) :
  startswith [a; b] (c :: d :: rest) = false ->
  Ascii.eqb c a && Ascii.eqb d b = false.
Proof.
  intros H. destruct (Ascii.eqb_spec c a) as [->|]; [|reflexivity].
  destruct (Ascii.eqb_spec d b) as [->|]; [|reflexivity].
  rewrite <- H. symmetry. apply startswith_true. exists rest. reflexivity.
Qed.

(** Without two consecutive dashes nothing is removed. *)
Lemma remove_line_comments_absent (s : list ascii) :
  contains (chars "--") s = false -> remove_line_comments s = s.
Proof.
  unfold remove_line_comments. induction s as [|c rest IH]; intros H.
  - reflexivity.
  - cbn [contains] in H. apply orb_false_iff in H. destruct H as [H1 H2].
    cbn [remove_line_comments_from].
    destruct rest as [|d rest']; [reflexivity|].
    change (chars "--") with ["-"%char; "-"%char] in H1.
    rewrite (startswith_two _ _ _ _ _ H1).
    rewrite IH by exact H2. reflexivity.
Qed.

Lemma endswith_snoc (c : ascii) (l : list ascii) : endswith [c] (l ++ [c]) = true.
Proof.
  unfold endswith. rewrite rev_unit. apply startswith_true.
  exists (rev l). reflexivity.
Qed.

(** Once the quotes are stripped and the semicolon ensured, both steps
    leave the text as it is. *)
Lemma ensure_semicolon_fixed (q : list ascii) :
  let y := ensure_semicolon (strip_by is_quote q) in
  strip_by is_quote y = y /\ ensure_semicolon y = y.
Proof.
  intros y. unfold y, ensure_semicolon.
  set (q1 := strip_by is_quote q).
  change (chars ";") with [";"%char].
  destruct (endswith [";"%char] (rstrip q1)) eqn:E; cbn [negb].
  - split; [apply strip_by_idempotent | rewrite E; reflexivity].
  - split.
    + apply strip_by_fixed; [|apply rstrip_by_snoc; reflexivity].
      right. destruct (rstrip q1) as [|c r] eqn:Hr.
      * exists ";"%char, []. split; reflexivity.
      * exists c, (r ++ [";"%char]). split; [reflexivity|].
        destruct (strip_by_head is_quote q) as [Hq | (c0 & rest0 & Hq & Hc0)];
          fold q1 in Hq.
        -- rewrite Hq in Hr. discriminate.
        -- destruct (rstrip_by_prefix is_space q1) as [d Hd].
           fold (rstrip q1) in Hd. rewrite Hr, Hq in Hd.
           inversion Hd; subst. exact Hc0.
    + unfold rstrip. rewrite rstrip_by_snoc by reflexivity.
      rewrite endswith_snoc. reflexivity.
Qed.

Lemma contains_false_prepared (p : list ascii) (z : ascii) (q : list ascii) :
  z <> ";"%char ->
  contains (p ++ [z]) q = false ->
  contains (p ++ [z]) (ensure_semicolon (strip_by is_quote q)) = false.
Proof.
  intros Hz H.
  assert (Hs : contains (p ++ [z]) (strip_by is_quote q) = false)
    by (apply contains_false_rstrip, contains_false_lstrip; exact H).
  unfold ensure_semicolon.
  destruct (negb (endswith (chars ";") (rstrip (strip_by is_quote q))));
    [|exact Hs].
  apply contains_false_snoc; [exact Hz|].
  apply contains_false_rstrip. exact Hs.
Qed.

(** On a text without comment markers [validate_sql] only strips the
    quotes and ensures the semicolon. *)
Lemma validate_chars_without_comments (q : list ascii) :
  contains (chars "/*") q = false ->
  contains (chars "--") q = false ->
  validate_chars q = ensure_semicolon (strip_by is_quote q).
Proof.
  intros Hblock Hline. unfold validate_chars.
  rewrite remove_between_absent.
  - apply remove_line_comments_absent.
    apply (contains_false_prepared ["-"%char] "-"%char);
      [discriminate | exact Hline].
  - apply (contains_false_prepared ["/"%char] "*"%char);
      [discriminate | exact Hblock].
Qed.

Lemma chars_text (l : list ascii) : chars (text l) = l.
Proof. apply list_ascii_of_string_of_list_ascii. Qed.

(** C5, as stated, fails: removing a comment can uncover a quote that a
    second pass strips, and a final line comment takes the appended
    semicolon with it, which a second pass appends again. *)
Lemma validate_sql_not_idempotent :
  validate_sql "/**/'a;" = "'a;"%string /\
  validate_sql (validate_sql "/**/'a;") = "a;"%string /\
  validate_sql (validate_sql "/**/'a;") <> validate_sql "/**/'a;" /\
  validate_sql (validate_sql "SELECT 1 -- c") <> validate_sql "SELECT 1 -- c".
Proof.
  repeat split; try (vm_compute; reflexivity); vm_compute; discriminate.
Qed.

(** C5, amended.  On every input that contains neither of the comment
    markers [/*] and [--], the sanitizer is idempotent. *)
Theorem validate_sql_idempotent_without_comments (x : string) :
  contains (chars "/*") (chars x) = false ->
  contains (chars "--") (chars x) = false ->
  validate_sql (validate_sql x) = validate_sql x.
Proof.
  intros Hblock Hline. unfold validate_sql. rewrite chars_text. f_equal.
  rewrite (validate_chars_without_comments (chars x)) by assumption.
  destruct (ensure_semicolon_fixed (chars x)) as [Hstrip Hsemi].
  rewrite validate_chars_without_comments.
  - rewrite Hstrip. exact Hsemi.
  - apply (contains_false_prepared ["/"%char] "*"%char);
      [discriminate | exact Hblock].
  - apply (contains_false_prepared ["-"%char] "-"%char);
      [discriminate | exact Hline].
Qed.

Lemma validate_sql_idempotent_without_comments_witness :
  (contains (chars "/*") (chars "'SELECT * FROM t' ") = false /\
   contains (chars "--") (chars "'SELECT * FROM t' ") = false) /\
  validate_sql (validate_sql "'SELECT * FROM t' ")
  = validate_sql "'SELECT * FROM t' ".
Proof.
  assert (Hblock : contains (chars "/*") (chars "'SELECT * FROM t' ") = false)
    by (vm_compute; reflexivity).
  assert (Hline : contains (chars "--") (chars "'SELECT * FROM t' ") = false)
    by (vm_compute; reflexivity).
  split; [split; [exact Hblock | exact Hline] |].
  exact (validate_sql_idempotent_without_comments "'SELECT * FROM t' "
           Hblock Hline).
Defined.

(** The order of the statements of [validate_sql]: the semicolon is
    appended before the comments are removed, so a final line comment
    takes it away and the result holds no semicolon at all. *)
Lemma validate_sql_loses_semicolon :
  validate_sql "SELECT 1 -- c" = "SELECT 1 "%string /\
  endswith (chars ";") (chars (validate_sql "SELECT 1 -- c")) = false /\
  endswith (chars ";") (rstrip (chars (validate_sql "SELECT 1 -- c"))) = false /\
  contains (chars ";") (chars (validate_sql "SELECT 1 -- c")) = false.
Proof.
  assert (H : validate_sql "SELECT 1 -- c" = "SELECT 1 "%string)
    by (vm_compute; reflexivity).
  rewrite H. repeat split.
Qed.

(* ===================================================================== *)
(** * 13. The execution engine                                            *)
(* ===================================================================== *)

Section Transactions.

Context {session db : Type} (drv : driver session) (pd : pandas_module)
        (durable visible : session -> db).
Hypothesis contract : session_contract drv durable visible.

Lemma execute_statement_durable (sql : string) (s : session) :
  no_implicit_commit drv durable sql ->
  durable (fst (execute_statement drv pd sql s)) = durable s.
Proof.
  intros Hsql. unfold execute_statement.
  pose proof (Hsql s) as He.
  destruct (drv_execute drv sql s) as [s1 [err|]]; simpl in He; [exact He|].
  destruct (startswith (chars "SELECT") (chars (detect_operation_type sql)));
    [|exact He].
  pose proof (sc_fetchall_keeps_durable drv durable visible contract s1) as Hf.
  destruct (drv_fetchall drv s1) as [s2 [err|rows]]; simpl in *; congruence.
Qed.

Lemma execute_statements_durable (sql_list : list string) (s : session)
    (results : list statement_result) :
  List.Forall (no_implicit_commit drv durable) sql_list ->
  durable (fst (execute_statements drv pd sql_list s results)) = durable s.
Proof.
  intros Hall. revert s results.
  induction Hall as [|sql rest Hsql Hrest IH]; intros s results.
  - reflexivity.
  - cbn [execute_statements].
    pose proof (execute_statement_durable sql s Hsql) as H1.
    destruct (execute_statement drv pd sql s) as [s1 [err|r]]; simpl in H1.
    + exact H1.
    + rewrite IH. exact H1.
Qed.


Lemma rollback_if_connected_durable (s : session) :
  durable (rollback_if_connected drv s) = durable s.
Proof.
  unfold rollback_if_connected. destruct (drv_is_connected drv s);
    [apply (sc_rollback_keeps_durable drv durable visible contract)
    | reflexivity].
Qed.


(** Whenever [execute_transaction] reports a failure on statements none
    of which makes the server commit, the committed contents are those
    of before the call. *)
Lemma execute_transaction_failure_durable (s s' : session)
    (sql_list : list string) (message : string) :
  List.Forall (no_implicit_commit drv durable) sql_list ->
  execute_transaction drv pd (Some s) sql_list = (Some s', inl message) ->
  durable s' = durable s.
Proof.
  intros Hall. unfold execute_transaction.
  destruct (negb (drv_is_connected drv s)); [intros H; inversion H; reflexivity|].
  destruct (negb (list_truthy sql_list)); [intros H; inversion H; reflexivity|].
  pose proof (execute_statements_durable sql_list s [] Hall) as Hs.
  destruct (execute_statements drv pd sql_list s []) as [s1 [err|results]];
    simpl in Hs.
  - intros H. inversion H; subst.
    rewrite rollback_if_connected_durable. exact Hs.
  - destruct (drv_commit drv s1) as [s2 [err|]] eqn:Hc; intros H;
      inversion H; subst.
    rewrite rollback_if_connected_durable.
    rewrite (sc_failed_commit_keeps_durable drv durable visible contract
               _ _ _ Hc).
    exact Hs.
Qed.

End Transactions.

(** The transactional contract is the contract of the session together
    with the absence of implicit commits, for every statement. *)
Lemma transactional_session_contract {session db : Type} (drv : driver session)
    (durable visible : session -> db) :
  transactional drv durable visible -> session_contract drv durable visible.
Proof.
  intros [He Hf Hc Hr Hd]. constructor; assumption.
Qed.

Lemma transactional_no_implicit_commit {session db : Type} (drv : driver session)
    (durable visible : session -> db) (sql : string) :
  transactional drv durable visible -> no_implicit_commit drv durable sql.
Proof.
  intros [He Hf Hc Hr Hd] s. apply He.
Qed.

Lemma toy_driver_transactional :
  transactional ToyDriver.drv ToyDriver.committed ToyDriver.working.
Proof.
  constructor.
  - intros sql s. cbn [drv_execute ToyDriver.drv]. unfold ToyDriver.execute.
    repeat match goal with
           | |- context [if ?b then _ else _] => destruct b
           end; try reflexivity;
      unfold ToyDriver.insert; destruct (existsb _ _); reflexivity.
  - intros s. cbn [drv_fetchall ToyDriver.drv]. unfold ToyDriver.fetchall.
    destruct (ToyDriver.unread s); reflexivity.
  - intros s s' err H. cbn [drv_commit ToyDriver.drv] in H.
    unfold ToyDriver.commit in H. inversion H.
  - intros s. reflexivity.
  - intros s. reflexivity.
Qed.



(** The statement that the code classifies as [CREATE] makes this driver
    commit. *)
Lemma ddl_driver_create_commits :
  detect_operation_type "CREATE TABLE u (x INT)" = "CREATE"%string /\
  ~ no_implicit_commit DdlDriver.drv DdlDriver.committed
      "CREATE TABLE u (x INT)".
Proof.
  split; [vm_compute; reflexivity|].
  intros H.
  specialize (H (DdlDriver.connect (DdlDriver.mkDatabase [] []))).
  vm_compute in H. discriminate H.
Qed.




(* ===================================================================== *)
(** * 14. Binary cells                                                    *)
(* ===================================================================== *)

Lemma render_sample_value_not_bytes (value : cell) :
  is_bytes (render_sample_value value) = false.
Proof. destruct value; reflexivity. Qed.

Lemma sample_row_data_not_bytes (column_names : list string) (row : list cell) :
  forall (i : nat) (row_data result : gmap string cell),
    (forall name value, row_data !! name = Some value -> is_bytes value = false) ->
    sample_row_data column_names i row row_data = Some result ->
    forall name value, result !! name = Some value -> is_bytes value = false.
Proof.
  induction row as [|cell0 rest IH]; intros i row_data result Hinv Hrun.
  - inversion Hrun; subst. exact Hinv.
  - cbn [sample_row_data] in Hrun.
    destruct (column_names !! i) as [column|]; [|discriminate].
    apply (IH _ _ _) with (2 := Hrun).
    intros name value Hlookup.
    apply lookup_insert_Some in Hlookup.
    destruct Hlookup as [[_ <-] | [_ Hold]].
    + apply render_sample_value_not_bytes.
    + apply (Hinv name value Hold).
Qed.

Lemma display_value_not_bytes (value : frame_value) :
  holds_bytes (display_value value) = false.
Proof. destruct value as [[]| |]; reflexivity. Qed.

(** The constructor of [MiniPandas] stores a bytes value as it is. *)
Lemma mini_pandas_keeps_bytes : keeps_bytes MiniPandas.impl.
Proof.
  intros rows columns _. cbn [pd_DataFrame MiniPandas.impl].
  unfold MiniPandas.DataFrame. cbn [df_columns df_rows].
  split; [reflexivity|]. split; [apply length_map|].
  intros i j row data Hrow Hcell. eexists. split.
  - rewrite list_lookup_fmap, Hrow. reflexivity.
  - rewrite list_lookup_imap, Hcell. cbn [fmap option_fmap option_map].
    unfold MiniPandas.convert. destruct (MiniPandas.to_floats _); reflexivity.
Qed.

Lemma positions_absent (col : string) (columns : list string) (i : nat) :
  col ∉ columns -> positions col columns i = [].
Proof.
  revert i. induction columns as [|c rest IH]; intros i Hnot; simpl.
  - reflexivity.
  - apply not_elem_of_cons in Hnot. destruct Hnot as [Hne Hrest].
    destruct (String.eqb_spec c col) as [->|_]; [contradiction|].
    apply IH. exact Hrest.
Qed.

Lemma positions_unique (col : string) (columns : list string) (i j : nat) :
  NoDup columns -> columns !! j = Some col ->
  positions col columns i = [(i + j)%nat].
Proof.
  revert i j. induction columns as [|c rest IH]; intros i j Hnd Hj.
  - discriminate.
  - apply NoDup_cons in Hnd. destruct Hnd as [Hc Hrest].
    destruct j as [|j]; simpl in *.
    + injection Hj as ->. rewrite String.eqb_refl.
      rewrite positions_absent by exact Hc. f_equal. lia.
    + destruct (String.eqb_spec c col) as [->|_].
      * exfalso. apply Hc. apply list_elem_of_lookup. eauto.
      * rewrite (IH (S i) j Hrest Hj). f_equal. lia.
Qed.

Lemma alter_display_clean (j k : nat) (rows : list (list frame_value)) :
  j = k \/ column_clean j rows ->
  column_clean j (map (alter display_value k) rows).
Proof.
  unfold column_clean. intros H. apply Forall_forall.
  intros row' Hin c Hc. apply list_elem_of_fmap in Hin.
  destruct Hin as (row & -> & Hin).
  destruct (decide (k = j)) as [->|Hne].
  - rewrite list_lookup_alter_eq in Hc.
    destruct (row !! j); [|discriminate].
    injection Hc as <-. apply display_value_not_bytes.
  - rewrite list_lookup_alter_ne in Hc by exact Hne.
    destruct H as [->|H]; [contradiction|].
    rewrite Forall_forall in H. apply (H row Hin c Hc).
Qed.

Lemma preprocess_loop_keeps (columns todo : list string) (j : nat) :
  forall rows,
    column_clean j rows -> column_clean j (preprocess_loop todo columns rows).
Proof.
  induction todo as [|col rest IH]; intros rows Hclean; simpl.
  - exact Hclean.
  - destruct (positions col columns 0) as [|k [|]]; try exact Hclean.
    apply IH. apply alter_display_clean. right. exact Hclean.
Qed.

Lemma preprocess_loop_cleans (columns todo : list string) (col : string) (j : nat) :
  (forall col', col' ∈ todo -> exists k, positions col' columns 0 = [k]) ->
  col ∈ todo ->
  positions col columns 0 = [j] ->
  forall rows, column_clean j (preprocess_loop todo columns rows).
Proof.
  induction todo as [|c rest IH]; intros Hall Hin Hj rows.
  - inversion Hin.
  - simpl. destruct (Hall c) as [k Hk]; [left|]. rewrite Hk.
    destruct (decide (c = col)) as [->|Hne].
    + rewrite Hj in Hk. injection Hk as <-.
      apply preprocess_loop_keeps. apply alter_display_clean. left. reflexivity.
    + apply elem_of_cons in Hin. destruct Hin as [->|Hin]; [contradiction|].
      apply IH; [|exact Hin|exact Hj].
      intros col' Hcol'. apply Hall. right. exact Hcol'.
Qed.

(** With distinct column names, the frame that the caller displays holds
    no binary cell in any of its columns. *)
Lemma preprocess_results_clean (results : dataframe) (j : nat) :
  NoDup (df_columns results) ->
  (j < length (df_columns results))%nat ->
  column_clean j (df_rows (preprocess_results results)).
Proof.
  intros Hnd Hj. unfold preprocess_results. simpl.
  destruct (lookup_lt_is_Some_2 (df_columns results) j Hj) as [col Hcol].
  apply (preprocess_loop_cleans _ _ col).
  - intros col' Hin. apply list_elem_of_lookup in Hin. destruct Hin as [k Hk].
    exists (0 + k)%nat. apply positions_unique; assumption.
  - apply list_elem_of_lookup. eauto.
  - apply (positions_unique col _ 0 j Hnd Hcol).
Qed.

(** The frame of one binary cell, before and after the caller's clean-up;
    with a repeated column name the clean-up stops and the cells stay. *)
Example preprocess_results_placeholder :
  preprocess_results
    (mkFrame ["x"%string] [[Kept (CBytes [Byte.x00; Byte.xff])]])
  = mkFrame ["x"%string] [[Kept (CStr "BINARY(2 bytes)")]] /\
  preprocess_results
    (mkFrame ["x"%string; "x"%string]
             [[Kept (CBytes [Byte.x00]); Kept (CBytes [Byte.xff])]])
  = mkFrame ["x"%string; "x"%string]
            [[Kept (CBytes [Byte.x00]); Kept (CBytes [Byte.xff])]].
Proof. split; vm_compute; reflexivity. Qed.

(** C9, as stated, fails: [execute_query] hands the fetched rows to the
    constructor of the frame and returns the frame, in which a binary
    cell is the raw bytes. *)
Lemma execute_query_returns_raw_bytes :
  let connection := Some (ToyDriver.connect [CBytes [Byte.x00; Byte.xff]]) in
  snd (execute_query ToyDriver.drv MiniPandas.impl connection "SELECT x FROM t")
  = inr (Some (mkFrame ["x"%string] [[Kept (CBytes [Byte.x00; Byte.xff])]])) /\
  render_sample_value (CBytes [Byte.x00; Byte.xff])
  = CStr "BINARY(2 bytes)" /\
  Kept (CBytes [Byte.x00; Byte.xff]) <> Kept (CStr "BINARY(2 bytes)").
Proof.
  repeat split; try (vm_compute; reflexivity). discriminate.
Qed.

(** C9, amended.  A successful [execute_query] converts nothing itself:
    it returns the frame that [pd.DataFrame] builds from the rows exactly
    as the driver fetched them and from the column names of the cursor;
    since the constructor stores a bytes value as it is, every binary
    cell of the result set is in the returned frame, at its place, as raw
    bytes.  The placeholder is produced by [get_schema_info] for its
    sample rows: there every binary value becomes the text
    [BINARY(n bytes)], [n] being its length, and no value of a converted
    row is binary.  The caller in ui.py applies the same replacement to
    the returned frame before it is displayed: when the column names are
    distinct, no cell of a column is binary afterwards. *)
Theorem binary_cells_rendering {session : Type} (drv : driver session)
    (pd : pandas_module) :
  (forall (s : session) (query : string) connection' data,
     execute_query drv pd (Some s) query = (connection', inr (Some data)) ->
     exists s1 s2 rows,
       drv_execute drv (validate_sql query) s = (s1, None) /\
       drv_fetchall drv s1 = (s2, inr rows) /\
       data = pd_DataFrame pd rows (drv_description drv s2) /\
       connection' = Some s2 /\
       (keeps_bytes pd ->
        Forall (fun row : list cell =>
                  length row = length (drv_description drv s2)) rows ->
        df_columns data = drv_description drv s2 /\
        length (df_rows data) = length rows /\
        forall i j row bytes,
          rows !! i = Some row -> row !! j = Some (CBytes bytes) ->
          exists row',
            df_rows data !! i = Some row' /\
            row' !! j = Some (Kept (CBytes bytes)) /\
            holds_bytes (Kept (CBytes bytes)) = true)) /\
  (forall data,
     render_sample_value (CBytes data)
     = CStr ("BINARY(" +:+ pretty (length data) +:+ " bytes)")) /\
  (forall column_names row row_data,
     sample_row_data column_names O row ∅ = Some row_data ->
     forall name value, row_data !! name = Some value ->
                        is_bytes value = false) /\
  (forall value,
     holds_bytes (display_value value) = false /\
     (holds_bytes value = false -> display_value value = value)) /\
  (forall results j,
     NoDup (df_columns results) ->
     (j < length (df_columns results))%nat ->
     column_clean j (df_rows (preprocess_results results))) /\
  sample_data ["id"%string; "photo"%string]
              [[CInt 7; CBytes [Byte.x00; Byte.xff]]; [CNone; CStr "x"]]
  = [ {[ "id"%string := CStr "7"; "photo"%string := CStr "BINARY(2 bytes)" ]};
      {[ "id"%string := CNone; "photo"%string := CStr "x" ]} ].
Proof.
  split; [|split; [|split; [|split; [|split]]]].
  - intros s query connection' data Hrun. unfold execute_query in Hrun.
    destruct (drv_execute drv (validate_sql query) s) as [s1 [err|]] eqn:He;
      [discriminate|].
    destruct (drv_fetchall drv s1) as [s2 [err|rows]] eqn:Hf; [discriminate|].
    inversion Hrun; subst. exists s1, s2, rows.
    split; [reflexivity|]. split; [exact Hf|]. split; [reflexivity|].
    split; [reflexivity|].
    intros Hpd Hshape.
    destruct (Hpd rows (drv_description drv s2) Hshape) as (Hc & Hl & Hcells).
    split; [exact Hc|]. split; [exact Hl|].
    intros i j row bytes Hrow Hcell.
    destruct (Hcells i j row bytes Hrow Hcell) as (row' & Hrow' & Hcell').
    exists row'. split; [exact Hrow'|]. split; [exact Hcell' | reflexivity].
  - reflexivity.
  - intros column_names row row_data Hrun.
    apply (sample_row_data_not_bytes column_names row O ∅ row_data);
      [|exact Hrun].
    intros name value Hlookup. rewrite lookup_empty in Hlookup. discriminate.
  - intros value. destruct value as [[]| |]; split; try reflexivity; discriminate.
  - intros results j. apply preprocess_results_clean.
  - vm_compute. reflexivity.
Qed.

(* ===================================================================== *)
(** * 15. What the sanitizer guarantees                                   *)
(* ===================================================================== *)

(** Inside a comment the next character written is a newline. *)
Lemma remove_line_comments_inside_head (s : list ascii) :
  remove_line_comments_from true s = [] \/
  exists t, remove_line_comments_from true s = newline :: t.
Proof.
  induction s as [|c rest IH]; cbn [remove_line_comments_from].
  - left. reflexivity.
  - destruct (Ascii.eqb_spec c newline) as [->|_]; [right; eauto | exact IH].
Qed.

(** Outside a comment the first character written is the first one read,
    unless a comment starts there. *)
Lemma remove_line_comments_outside_head (s : list ascii) :
  remove_line_comments_from false s = [] \/
  (exists t, remove_line_comments_from false s = newline :: t) \/
  (exists c rest t,
     s = c :: rest /\ remove_line_comments_from false s = c :: t).
Proof.
  destruct s as [|c [|d rest]]; cbn [remove_line_comments_from].
  - left. reflexivity.
  - right. right. exists c, [], []. split; reflexivity.
  - destruct (Ascii.eqb c "-" && Ascii.eqb d "-").
    + destruct (remove_line_comments_inside_head rest) as [-> | [t ->]];
        [left; reflexivity | right; left; eauto].
    + right. right. eexists _, _, _. split; reflexivity.
Qed.

Lemma startswith_two_cons (a b c : ascii) (s : list ascii) :
  startswith [a; b] (c :: s) = true <->
  c = a /\ exists t, s = b :: t.
Proof.
  rewrite startswith_true. split.
  - intros [rest H]. inversion H; subst. eauto.
  - intros [-> [t ->]]. exists t. reflexivity.
Qed.

Lemma contains_two_cons_false (a b c : ascii) (s : list ascii) :
  contains [a; b] s = false ->
  (c = a -> forall t, s <> b :: t) ->
  contains [a; b] (c :: s) = false.
Proof.
  intros Hs Hhead. cbn [contains]. rewrite Hs, orb_false_r.
  destruct (startswith [a; b] (c :: s)) eqn:E; [|reflexivity].
  apply startswith_two_cons in E. destruct E as [-> [t ->]].
  exfalso. apply (Hhead eq_refl t). reflexivity.
Qed.

Lemma contains_two_cons_inv (a b c : ascii) (s : list ascii) :
  contains [a; b] (c :: s) = false ->
  contains [a; b] s = false /\ (c = a -> forall t, s <> b :: t).
Proof.
  cbn [contains]. intros H. apply orb_false_iff in H. destruct H as [H1 H2].
  split; [exact H2|]. intros -> t ->.
  assert (startswith [a; b] (a :: b :: t) = true)
    by (apply startswith_two_cons; eauto).
  congruence.
Qed.

(** Removing the line comments creates no occurrence of a two-character
    pattern whose second character is not a newline. *)
Lemma remove_line_comments_from_keeps_absent (a b : ascii) (s : list ascii) :
  b <> newline ->
  forall in_comment,
    contains [a; b] s = false ->
    contains [a; b] (remove_line_comments_from in_comment s) = false.
Proof.
  intros Hb. induction s as [s IH] using (induction_ltof1 _ (@length ascii)).
  unfold ltof in IH. intros in_comment Hs.
  destruct s as [|c rest]; [reflexivity|].
  apply contains_two_cons_inv in Hs. destruct Hs as [Hrest Hhead].
  destruct in_comment; cbn [remove_line_comments_from].
  - destruct (Ascii.eqb_spec c newline) as [->|_].
    + apply contains_two_cons_false.
      * apply IH; [simpl; lia | exact Hrest].
      * intros Ha t Ht.
        destruct (remove_line_comments_outside_head rest)
          as [E | [[t' E] | (c' & r' & t' & Hs & E)]];
          rewrite E in Ht.
        -- discriminate Ht.
        -- injection Ht as Heq _. apply Hb. symmetry. exact Heq.
        -- injection Ht as Heq _. apply (Hhead Ha r').
           rewrite Hs, Heq. reflexivity.
    + apply IH; [simpl; lia | exact Hrest].
  - destruct rest as [|d rest'].
    + apply contains_two_cons_false; [reflexivity | intros _ t; discriminate].
    + destruct (Ascii.eqb c "-" && Ascii.eqb d "-").
      * apply contains_two_cons_inv in Hrest. destruct Hrest as [Hrest' _].
        apply IH; [simpl; lia | exact Hrest'].
      * apply contains_two_cons_false.
        -- apply IH; [simpl; lia | exact Hrest].
        -- intros Ha t Ht.
           destruct (remove_line_comments_outside_head (d :: rest'))
             as [E | [[t' E] | (c' & r' & t' & Hs & E)]];
             rewrite E in Ht.
           ++ discriminate Ht.
           ++ injection Ht as Heq _. apply Hb. symmetry. exact Heq.
           ++ injection Ht as Heq _. apply (Hhead Ha r').
              rewrite Hs, Heq. reflexivity.
Qed.

(** The text left by the removal of the line comments holds no [--]. *)
Lemma remove_line_comments_from_complete (s : list ascii) :
  forall in_comment,
    contains (chars "--") (remove_line_comments_from in_comment s) = false.
Proof.
  change (chars "--") with ["-"%char; "-"%char].
  induction s as [s IH] using (induction_ltof1 _ (@length ascii)).
  unfold ltof in IH. intros in_comment.
  destruct s as [|c rest]; [reflexivity|].
  destruct in_comment; cbn [remove_line_comments_from].
  - destruct (Ascii.eqb_spec c newline) as [->|_].
    + apply contains_two_cons_false; [apply IH; simpl; lia|].
      intros Ha. discriminate Ha.
    + apply IH. simpl. lia.
  - destruct rest as [|d rest'].
    + apply contains_two_cons_false; [reflexivity | intros _ t; discriminate].
    + destruct (Ascii.eqb c "-" && Ascii.eqb d "-") eqn:Hdash.
      * apply IH. simpl. lia.
      * apply contains_two_cons_false; [apply IH; simpl; lia|].
        intros -> t Ht.
        destruct (remove_line_comments_outside_head (d :: rest'))
          as [E | [[t' E] | (c' & r' & t' & Hs & E)]];
          rewrite E in Ht.
        -- discriminate Ht.
        -- discriminate Ht.
        -- injection Ht as Heq _. injection Hs as Hd _.
           rewrite Hd, Heq in Hdash. discriminate Hdash.
Qed.

(** ** Block comments *)

Lemma remove_between_from_skip (ignorecase : bool) (opening closing : list ascii)
    (s : list ascii) :
  forall skip,
    remove_between_from ignorecase opening closing skip s
    = remove_between_from ignorecase opening closing O (drop skip s).
Proof.
  induction s as [|c rest IH]; intros skip.
  - rewrite drop_nil. destruct skip; reflexivity.
  - destruct skip as [|k]; [reflexivity|].
    cbn [remove_between_from]. rewrite IH. reflexivity.
Qed.

(** One step of the removal: where the opening delimiter starts and a
    closing one follows, the scan goes on after it. *)
Lemma remove_between_from_cons (ignorecase : bool) (opening closing : list ascii)
    (c : ascii) (rest : list ascii) :
  remove_between_from ignorecase opening closing O (c :: rest)
  = match match_prefix ignorecase opening (c :: rest) with
    | Some body =>
        match find_end ignorecase closing body with
        | Some n =>
            remove_between_from ignorecase opening closing O
              (drop (length opening + n - 1) rest)
        | None => c :: remove_between_from ignorecase opening closing O rest
        end
    | None => c :: remove_between_from ignorecase opening closing O rest
    end.
Proof.
  cbn [remove_between_from].
  destruct (match_prefix ignorecase opening (c :: rest)) as [body|];
    [|reflexivity].
  destruct (find_end ignorecase closing body) as [n|]; [|reflexivity].
  apply remove_between_from_skip.
Qed.

Lemma contains_cons_false (p : list ascii) (c : ascii) (s : list ascii) :
  contains p (c :: s) = false -> contains p s = false.
Proof.
  cbn [contains]. intros H. apply orb_false_iff in H. exact (proj2 H).
Qed.

Lemma contains_drop_false (p s : list ascii) (k : nat) :
  contains p s = false -> contains p (drop k s) = false.
Proof.
  revert s. induction k as [|k IH]; intros s H; [exact H|].
  destruct s as [|c s]; [exact H|].
  simpl. apply IH. exact (contains_cons_false p c s H).
Qed.

Lemma find_end_contains (p s : list ascii) :
  match find_end false p s with
  | Some _ => contains p s = true
  | None => contains p s = false
  end.
Proof.
  induction s as [|c s IH]; cbn [find_end contains]; unfold startswith.
  - destruct (match_prefix false p []); reflexivity.
  - destruct (match_prefix false p (c :: s)); [reflexivity|].
    destruct (find_end false p s); simpl; exact IH.
Qed.

(** Without a closing delimiter nothing is removed. *)
Lemma remove_between_no_closing (opening closing : list ascii) (s : list ascii) :
  contains closing s = false ->
  remove_between_from false opening closing O s = s.
Proof.
  induction s as [|c rest IH]; intros H; [reflexivity|].
  rewrite remove_between_from_cons.
  pose proof (contains_cons_false _ _ _ H) as Hrest.
  destruct (match_prefix false opening (c :: rest)) as [body|] eqn:E;
    [|rewrite IH by exact Hrest; reflexivity].
  apply match_prefix_exact in E.
  assert (Hbody : contains closing body = false).
  { apply (contains_false_part closing opening body []).
    rewrite app_nil_r, <- E. exact H. }
  pose proof (find_end_contains closing body) as Hf.
  destruct (find_end false closing body); [congruence|].
  rewrite IH by exact Hrest. reflexivity.
Qed.

Lemma block_free_tail (c : ascii) (s : list ascii) :
  block_free (c :: s) -> block_free s.
Proof.
  intros H before after ->. apply (H (c :: before) after). reflexivity.
Qed.

Lemma block_free_cons (c : ascii) (s : list ascii) :
  block_free s ->
  (c = "/"%char -> forall t, s = "*"%char :: t ->
                             contains (chars "*/") t = false) ->
  block_free (c :: s).
Proof.
  intros Hs Hhead before after E. destruct before as [|b before].
  - simpl in E. injection E as -> ->. apply Hhead; reflexivity.
  - simpl in E. injection E as _ ->. apply (Hs before after). reflexivity.
Qed.

Lemma block_free_short (c : ascii) : block_free [c].
Proof.
  intros before after E. apply (f_equal (@length ascii)) in E.
  rewrite !length_app in E. simpl in E. lia.
Qed.

Lemma block_free_nil : block_free [].
Proof.
  intros before after E. apply (f_equal (@length ascii)) in E.
  rewrite !length_app in E. simpl in E. lia.
Qed.

(** One pass over the block comments leaves no block comment, unless a
    slash stands just before an opening delimiter. *)
Lemma remove_between_block_free (s : list ascii) :
  contains (chars "//*") s = false ->
  block_free (remove_between false "/*" "*/" s).
Proof.
  unfold remove_between.
  induction s as [s IH] using (induction_ltof1 _ (@length ascii)).
  unfold ltof in IH. intros Hs.
  destruct s as [|c rest]; [apply block_free_nil|].
  pose proof (contains_cons_false _ _ _ Hs) as Hrest.
  assert (Hkept : (match_prefix false (chars "/*") (c :: rest) = None \/
                   exists body,
                     match_prefix false (chars "/*") (c :: rest) = Some body /\
                     find_end false (chars "*/") body = None) ->
                  block_free
                    (c :: remove_between_from false (chars "/*") (chars "*/")
                            O rest)).
  { intros Hcase. apply block_free_cons.
    - apply IH; [simpl; lia | exact Hrest].
    - intros -> t Ht.
      destruct rest as [|d rest']; [discriminate Ht|].
      rewrite remove_between_from_cons in Ht.
      destruct (match_prefix false (chars "/*") (d :: rest')) as [body'|] eqn:E'.
      + exfalso. apply match_prefix_exact in E'.
        assert (contains (chars "//*") ("/"%char :: d :: rest') = true).
        { apply contains_true. exists [], body'. rewrite E'. reflexivity. }
        congruence.
      + injection Ht as -> <-.
        destruct Hcase as [Hnone | (body & Hbody & Hend)];
          [discriminate Hnone|].
        injection Hbody as <-.
        pose proof (find_end_contains (chars "*/") rest') as Hc.
        rewrite Hend in Hc.
        rewrite remove_between_no_closing by exact Hc. exact Hc. }
  rewrite remove_between_from_cons.
  destruct (match_prefix false (chars "/*") (c :: rest)) as [body|] eqn:E;
    [|apply Hkept; left; reflexivity].
  destruct (find_end false (chars "*/") body) as [n|] eqn:En;
    [|apply Hkept; right; exists body; split; [reflexivity | exact En]].
  apply IH.
  - simpl. rewrite length_drop. lia.
  - apply contains_drop_false. exact Hrest.
Qed.

(** Removing the line comments creates no block comment. *)
Lemma remove_line_comments_from_block_free (s : list ascii) :
  forall in_comment,
    block_free s -> block_free (remove_line_comments_from in_comment s).
Proof.
  induction s as [s IH] using (induction_ltof1 _ (@length ascii)).
  unfold ltof in IH. intros in_comment Hs.
  destruct s as [|c rest]; [exact Hs|].
  pose proof (block_free_tail _ _ Hs) as Hrest.
  destruct in_comment; cbn [remove_line_comments_from].
  - destruct (Ascii.eqb_spec c newline) as [->|_].
    + apply block_free_cons.
      * apply IH; [simpl; lia | exact Hrest].
      * intros Hc. discriminate Hc.
    + apply IH; [simpl; lia | exact Hrest].
  - destruct rest as [|d rest']; [apply block_free_short|].
    destruct (Ascii.eqb c "-" && Ascii.eqb d "-") eqn:Hdash.
    + apply IH; [simpl; lia|]. exact (block_free_tail _ _ Hrest).
    + apply block_free_cons.
      * apply IH; [simpl; lia | exact Hrest].
      * intros -> t Ht.
        destruct (remove_line_comments_outside_head (d :: rest'))
          as [E | [[t' E] | (c' & r' & t' & Hcr & E)]]; rewrite E in Ht.
        -- discriminate Ht.
        -- injection Ht as Heq _. discriminate Heq.
        -- injection Ht as -> ->. injection Hcr as -> <-.
           assert (Hfree : contains (chars "*/") rest' = false).
           { apply (Hs [] rest'). reflexivity. }
           assert (Hstar : remove_line_comments_from false ("*"%char :: rest')
                           = "*"%char :: remove_line_comments_from false rest')
             by (destruct rest'; reflexivity).
           rewrite Hstar in E. injection E as <-.
           change (chars "*/") with ["*"%char; "/"%char].
           apply remove_line_comments_from_keeps_absent;
             [discriminate | exact Hfree].
Qed.

Lemma In_contains_false (a b : ascii) (s : list ascii) :
  ~ In b s -> contains [a; b] s = false.
Proof.
  intros H. destruct (contains [a; b] s) eqn:E; [|reflexivity].
  apply contains_true in E as (before & after & ->).
  exfalso. apply H. apply in_or_app. right. right. left. reflexivity.
Qed.

Lemma find_end_within (body tail : list ascii) (n : nat) :
  ~ In "/"%char tail ->
  find_end false (chars "*/") (body ++ tail) = Some n ->
  (n <= length body)%nat.
Proof.
  intros Htail. revert n. induction body as [|y body IH]; intros n H.
  - exfalso. pose proof (find_end_contains (chars "*/") tail) as Hc.
    cbn [app] in H. rewrite H in Hc.
    change (chars "*/") with ["*"%char; "/"%char] in Hc.
    rewrite (In_contains_false "*" "/" tail Htail) in Hc. discriminate.
  - cbn [app find_end] in H.
    destruct (match_prefix false (chars "*/") (y :: body ++ tail)) as [r|] eqn:E.
    + injection H as <-. destruct body as [|z body]; [|simpl; lia].
      exfalso. apply match_prefix_exact in E. simpl in E.
      destruct tail as [|t tail]; [discriminate|].
      injection E as _ -> _. apply Htail. left. reflexivity.
    + destruct (find_end false (chars "*/") (body ++ tail)) as [m|];
        [|discriminate].
      injection H as <-. specialize (IH m eq_refl). simpl. lia.
Qed.

(** The removal of the block comments keeps a tail that holds no slash
    and does not start with a star. *)
Lemma remove_between_keeps_tail (c : ascii) (tail : list ascii) (s : list ascii) :
  c <> "*"%char -> ~ In "/"%char (c :: tail) ->
  exists kept,
    remove_between false "/*" "*/" (s ++ c :: tail) = kept ++ c :: tail.
Proof.
  intros Hc Htail. unfold remove_between.
  induction s as [s IH] using (induction_ltof1 _ (@length ascii)).
  unfold ltof in IH.
  destruct s as [|x rest].
  - exists []. simpl app.
    apply remove_between_no_closing. apply In_contains_false. exact Htail.
  - change ((x :: rest) ++ c :: tail) with (x :: (rest ++ c :: tail)).
    rewrite remove_between_from_cons.
    assert (Hkeep : exists kept,
               x :: remove_between_from false (chars "/*") (chars "*/") O
                      (rest ++ c :: tail)
               = kept ++ c :: tail).
    { destruct (IH rest) as [kept Hk]; [simpl; lia|].
      exists (x :: kept). rewrite Hk. reflexivity. }
    destruct (match_prefix false (chars "/*") (x :: rest ++ c :: tail))
      as [body|] eqn:E; [|exact Hkeep].
    destruct (find_end false (chars "*/") body) as [n|] eqn:En; [|exact Hkeep].
    apply match_prefix_exact in E. simpl in E. injection E as -> E.
    destruct rest as [|y rest].
    { simpl in E. injection E as E _. contradiction. }
    simpl in E. injection E as -> <-.
    pose proof (find_end_within rest (c :: tail) n Htail En) as Hn.
    replace (drop (length (chars "/*") + n - 1)
               (("*"%char :: rest) ++ c :: tail))
      with (drop n rest ++ c :: tail).
    + apply IH. simpl. rewrite length_drop. lia.
    + simpl length. replace (2 + n - 1)%nat with (S n) by lia.
      simpl. rewrite drop_app_le by exact Hn. reflexivity.
Qed.

(** Where the input holds no hyphen, the output, trailing white space
    ignored, ends with a semicolon. *)
Lemma validate_chars_ends (q : list ascii) :
  ~ In "-"%char q ->
  endswith (chars ";") (rstrip (validate_chars q)) = true.
Proof.
  intros Hq. unfold validate_chars.
  set (y := ensure_semicolon (strip_by is_quote q)).
  assert (Hy : ~ In "-"%char y).
  { assert (Hsub : sublist y (q ++ chars ";")).
    { unfold y. etransitivity; [apply ensure_semicolon_sublist|].
      apply sublist_app; [apply strip_by_sublist | reflexivity]. }
    intros Hin. apply list_elem_of_In in Hin.
    pose proof (elem_of_sublist _ _ _ Hin Hsub) as Hin'.
    apply list_elem_of_In in Hin'. apply in_app_or in Hin' as [Hin' | Hin'].
    - exact (Hq Hin').
    - simpl in Hin'. destruct Hin' as [Hin' | []]. discriminate Hin'. }
  assert (Hend : endswith (chars ";") (rstrip y) = true).
  { unfold y, ensure_semicolon. change (chars ";") with [";"%char].
    destruct (endswith [";"%char] (rstrip (strip_by is_quote q))) eqn:E;
      cbn [negb]; [exact E|].
    unfold rstrip at 1. rewrite rstrip_by_snoc by reflexivity.
    apply endswith_snoc. }
  destruct (rstrip_by_prefix is_space y) as [spaces Hspaces].
  fold (rstrip y) in Hspaces.
  assert (Hlast : exists body, rstrip y = body ++ [";"%char]).
  { unfold endswith in Hend. apply startswith_true in Hend as [r Hr].
    exists (rev r). rewrite <- (rev_involutive (rstrip y)), Hr.
    rewrite rev_app_distr. reflexivity. }
  destruct Hlast as [body Hbody].
  assert (Hsp : forallb is_space spaces = true).
  { destruct (forallb is_space spaces) eqn:E; [reflexivity|].
    exfalso.
    assert (H1 : rstrip (rstrip y ++ spaces) = rstrip y) by (rewrite <- Hspaces; reflexivity).
    unfold rstrip in H1 at 1. rewrite rstrip_by_app in H1.
    destruct (rstrip_by is_space spaces) as [|k kept] eqn:Ek.
    - clear H1.
      assert (Hall : forall l, rstrip_by is_space l = [] -> forallb is_space l = true).
      { induction l as [|a l IHl]; [reflexivity|]. simpl.
        destruct (rstrip_by is_space l) as [|k kept] eqn:El.
        - destruct (is_space a) eqn:Ea; [|discriminate].
          intros _. simpl. apply IHl. reflexivity.
        - discriminate. }
      rewrite (Hall spaces Ek) in E. discriminate.
    - apply (f_equal (@length ascii)) in H1. rewrite length_app in H1.
      simpl in H1. lia. }
  assert (Hno : ~ In "/"%char (";"%char :: spaces)).
  { intros [Heq | Hin]; [discriminate Heq|].
    rewrite forallb_forall in Hsp. specialize (Hsp _ Hin). discriminate Hsp. }
  destruct (remove_between_keeps_tail ";" spaces body) as [kept Hkept];
    [discriminate | exact Hno |].
  assert (Hy2 : y = body ++ ";"%char :: spaces).
  { rewrite Hspaces, Hbody, <- app_assoc. reflexivity. }
  rewrite Hy2, Hkept.
  rewrite remove_line_comments_absent.
  - replace (kept ++ ";"%char :: spaces) with ((kept ++ [";"%char]) ++ spaces)
      by (rewrite <- app_assoc; reflexivity).
    unfold rstrip. rewrite rstrip_by_app, (rstrip_by_all is_space spaces Hsp).
    rewrite rstrip_by_snoc by reflexivity. apply endswith_snoc.
  - change (chars "--") with ["-"%char; "-"%char].
    apply In_contains_false. intros Hin. apply Hy.
    apply list_elem_of_In. apply list_elem_of_In in Hin.
    rewrite Hy2.
    refine (elem_of_sublist _ _ _ Hin _). rewrite <- Hkept.
    apply remove_between_sublist.
Qed.

(** C6, as stated, fails where the sanitizer keeps what it is given: a
    statement that already ends with semicolons, or with a semicolon and
    white space, is returned as it is, and one pass over the block
    comments can leave a block comment behind. *)
Lemma validate_sql_keeps_given_tail :
  validate_sql "SELECT 1;;" = "SELECT 1;;"%string /\
  endswith (chars ";;") (chars (validate_sql "SELECT 1;;")) = true /\
  validate_sql "SELECT 1; " = "SELECT 1; "%string /\
  endswith (chars ";") (chars (validate_sql "SELECT 1; ")) = false /\
  validate_sql "//* x */* y */;" = "/* y */;"%string /\
  contains (chars "/*") (chars (validate_sql "//* x */* y */;")) = true.
Proof. repeat split; vm_compute; reflexivity. Qed.

(** C6, amended.  For every input the output holds no [--], hence no line
    comment.  For every input in which no slash stands just before an
    opening [/*], the output holds no block comment: no [/*] that a [*/]
    follows; and for an input without [/*] the output holds no [/*] at
    all.  For every input without a hyphen the output, trailing white
    space ignored, ends with a semicolon.  For an input without comment
    markers the output is the input with the quotes stripped, to which a
    semicolon is appended (trailing white space dropped) exactly when
    that text, trailing white space ignored, does not already end with
    one. *)
Theorem validate_sql_postcondition (x : string) :
  contains (chars "--") (chars (validate_sql x)) = false /\
  (contains (chars "/*") (chars x) = false ->
   contains (chars "/*") (chars (validate_sql x)) = false) /\
  (contains (chars "/*") (chars x) = false ->
   contains (chars "--") (chars x) = false ->
   let stripped := strip_by is_quote (chars x) in
   endswith (chars ";") (rstrip (chars (validate_sql x))) = true /\
   (endswith (chars ";") (rstrip stripped) = false ->
    chars (validate_sql x) = rstrip stripped ++ chars ";" /\
    endswith (chars ";") (rstrip stripped ++ chars ";") = true) /\
   (endswith (chars ";") (rstrip stripped) = true ->
    chars (validate_sql x) = stripped)) /\
  (contains (chars "//*") (chars x) = false ->
   block_free (chars (validate_sql x))) /\
  (~ In "-"%char (chars x) ->
   endswith (chars ";") (rstrip (chars (validate_sql x))) = true).
Proof.
  unfold validate_sql. rewrite chars_text. split; [|split; [|split; [|split]]].
  - unfold validate_chars, remove_line_comments.
    apply remove_line_comments_from_complete.
  - intros Hblock. unfold validate_chars, remove_line_comments.
    change (chars "/*") with ["/"%char; "*"%char].
    apply remove_line_comments_from_keeps_absent; [discriminate|].
    rewrite remove_between_absent;
      apply (contains_false_prepared ["/"%char] "*"%char);
      try discriminate; exact Hblock.
  - intros Hblock Hline.
    rewrite validate_chars_without_comments by assumption.
    set (stripped := strip_by is_quote (chars x)). unfold ensure_semicolon.
    change (chars ";") with [";"%char].
    destruct (endswith [";"%char] (rstrip stripped)) eqn:E; cbn [negb].
    + split; [exact E|]. split; [discriminate | reflexivity].
    + assert (Hend : endswith [";"%char] (rstrip stripped ++ [";"%char]) = true)
        by apply endswith_snoc.
      split; [|split; [split; [reflexivity | exact Hend] | discriminate]].
      unfold rstrip at 1. rewrite rstrip_by_snoc by reflexivity. exact Hend.
  - intros Hglue. unfold validate_chars, remove_line_comments.
    apply remove_line_comments_from_block_free.
    apply remove_between_block_free.
    apply (contains_false_prepared ["/"%char; "/"%char] "*"%char);
      [discriminate | exact Hglue].
  - apply validate_chars_ends.
Qed.

Lemma validate_sql_postcondition_witness :
  (contains (chars "/*") (chars "'SELECT * FROM t' ") = false /\
   contains (chars "--") (chars "'SELECT * FROM t' ") = false) /\
  endswith (chars ";") (rstrip (chars (validate_sql "'SELECT * FROM t' ")))
  = true.
Proof.
  assert (Hblock : contains (chars "/*") (chars "'SELECT * FROM t' ") = false)
    by (vm_compute; reflexivity).
  assert (Hline : contains (chars "--") (chars "'SELECT * FROM t' ") = false)
    by (vm_compute; reflexivity).
  split; [split; [exact Hblock | exact Hline] |].
  exact (proj1 (proj1 (proj2 (proj2
           (validate_sql_postcondition "'SELECT * FROM t' "))) Hblock Hline)).
Defined.

(* ===================================================================== *)
(** * 16. The JSON writer and reader                                      *)
(* ===================================================================== *)

Module MiniJsonFacts.
Import MiniJson.

Lemma digit_value_digit_char (d : N) :
  (d < 10)%N -> digit_value (digit_char d) = Some (Z.of_N d).
Proof.
  intros H.
  assert (Hd : (d = 0 \/ d = 1 \/ d = 2 \/ d = 3 \/ d = 4 \/ d = 5 \/ d = 6
                \/ d = 7 \/ d = 8 \/ d = 9)%N) by lia.
  repeat destruct Hd as [Hd|Hd]; subst; reflexivity.
Qed.

Lemma digit_char_not_minus (d : N) :
  (d < 10)%N -> Ascii.eqb (digit_char d) "-" = false.
Proof.
  intros H.
  assert (Hd : (d = 0 \/ d = 1 \/ d = 2 \/ d = 3 \/ d = 4 \/ d = 5 \/ d = 6
                \/ d = 7 \/ d = 8 \/ d = 9)%N) by lia.
  repeat destruct Hd as [Hd|Hd]; subst; reflexivity.
Qed.

Lemma load_digits_end (acc : Z) (rest : list ascii) :
  ends_number rest = true -> load_digits acc rest = (acc, rest).
Proof.
  destruct rest as [|c rest]; [reflexivity|]. simpl.
  destruct (digit_value c); [discriminate | reflexivity].
Qed.

Lemma load_dump_digits (fuel : nat) :
  forall n : N,
    (n < 2 ^ N.of_nat fuel)%N ->
    exists k : Z,
      forall acc rest,
        load_digits acc (dump_digits fuel n ++ rest)
        = load_digits (acc * k + Z.of_N n) rest.
Proof.
  induction fuel as [|fuel IH]; intros n Hn.
  - exists 1. intros acc rest. simpl in *.
    assert (n = 0%N) by lia. subst. f_equal. lia.
  - cbn [dump_digits]. destruct (N.ltb_spec n 10) as [Hlt|Hge].
    + exists 10. intros acc rest. cbn [app load_digits].
      rewrite digit_value_digit_char by exact Hlt. f_equal. lia.
    + destruct (IH (n / 10)%N) as [k Hk].
      { rewrite Nat2N.inj_succ, N.pow_succ_r' in Hn.
        apply N.Div0.div_lt_upper_bound. lia. }
      exists (10 * k). intros acc rest.
      rewrite <- app_assoc. rewrite Hk. cbn [app load_digits].
      rewrite digit_value_digit_char by (apply N.mod_lt; lia).
      f_equal. rewrite (N.div_mod n 10) at 3 by lia.
      rewrite N2Z.inj_add, N2Z.inj_mul. simpl Z.of_N. lia.
Qed.

Lemma dump_digits_head (fuel : nat) :
  forall n : N,
    (1 <= n)%N -> (n < 2 ^ N.of_nat fuel)%N ->
    exists d tail,
      dump_digits fuel n = digit_char d :: tail /\ (1 <= d < 10)%N.
Proof.
  induction fuel as [|fuel IH]; intros n H1 Hn.
  - simpl in Hn. lia.
  - cbn [dump_digits]. destruct (N.ltb_spec n 10) as [Hlt|Hge].
    + exists n, []. split; [reflexivity | lia].
    + destruct (IH (n / 10)%N) as (d & tail & -> & Hd).
      { apply N.div_le_lower_bound; lia. }
      { rewrite Nat2N.inj_succ, N.pow_succ_r' in Hn.
        apply N.Div0.div_lt_upper_bound. lia. }
      exists d, (tail ++ [digit_char (n mod 10)]). split; [reflexivity | exact Hd].
Qed.

Lemma log2_fuel (n : N) : (n < 2 ^ N.of_nat (S (N.to_nat (N.log2 n))))%N.
Proof.
  rewrite Nat2N.inj_succ, N2Nat.id.
  destruct n as [|p]; [reflexivity|].
  apply N.log2_spec. reflexivity.
Qed.

Lemma load_unsigned_dump_N (n : N) (rest : list ascii) :
  ends_number rest = true ->
  load_unsigned (dump_N n ++ rest) = Some (Z.of_N n, rest).
Proof.
  intros Hrest. unfold dump_N.
  assert (Hend : forall x, (let '(m, rest') := (x, rest) in
            match rest' with
            | [] => Some (m, rest')
            | c' :: _ =>
                match digit_value c' with
                | Some _ => None
                | None => if starts_number_tail rest' then None
                          else Some (m, rest')
                end
            end) = Some (x : Z, rest)).
  { intros x. unfold ends_number in Hrest. destruct rest as [|c' r]; [reflexivity|].
    destruct (digit_value c'); [discriminate|].
    destruct (starts_number_tail (c' :: r)); [discriminate | reflexivity]. }
  destruct n as [|p].
  - cbn. apply (Hend 0).
  - pose proof (log2_fuel (N.pos p)) as Hfuel.
    destruct (dump_digits_head _ (N.pos p) ltac:(lia) Hfuel)
      as (d & tail & Hhead & Hd).
    destruct (load_dump_digits _ (N.pos p) Hfuel) as [k Hk].
    specialize (Hk 0 rest). rewrite Hhead in Hk |- *.
    cbn [app load_digits] in Hk. cbn [app load_unsigned].
    rewrite digit_value_digit_char in Hk |- * by lia.
    destruct (Z.eqb_spec (Z.of_N d) 0) as [H0|_]; [lia|].
    replace (10 * 0 + Z.of_N d) with (Z.of_N d) in Hk by lia.
    rewrite Hk. rewrite load_digits_end by exact Hrest.
    replace (0 * k + Z.of_N (N.pos p)) with (Z.of_N (N.pos p)) by lia.
    apply Hend.
Qed.

Lemma load_number_dump_int (z : Z) (rest : list ascii) :
  ends_number rest = true ->
  load_number (dump_int z ++ rest) = Some (PInt z, rest).
Proof.
  intros Hrest. destruct z as [|p|p]; unfold dump_int.
  - cbn. pose proof (load_unsigned_dump_N 0 rest Hrest) as H. cbn in H.
    rewrite H. reflexivity.
  - pose proof (load_unsigned_dump_N (N.pos p) rest Hrest) as H.
    destruct (dump_digits_head _ (N.pos p) ltac:(lia) (log2_fuel (N.pos p)))
      as (d & tail & Hhead & Hd).
    unfold dump_N in *. rewrite Hhead in *. cbn [app] in H.
    cbn [app load_number].
    rewrite digit_char_not_minus by lia. rewrite H. reflexivity.
  - cbn [app load_number]. rewrite Ascii.eqb_refl.
    rewrite load_unsigned_dump_N by exact Hrest. reflexivity.
Qed.

Lemma load_string_escape (c : ascii) (tail acc : list ascii) :
  load_string (escape_char c ++ tail) acc = load_string tail (c :: acc).
Proof.
  destruct c as [[] [] [] [] [] [] [] []]; reflexivity.
Qed.

Lemma load_string_escaped (cs : list ascii) :
  forall acc rest,
    load_string (concat (map escape_char cs) ++ dquote :: rest) acc
    = Some (text (rev acc ++ cs), rest).
Proof.
  induction cs as [|c cs IH]; intros acc rest.
  - cbn. rewrite app_nil_r. reflexivity.
  - cbn [map concat]. rewrite <- app_assoc, load_string_escape, IH.
    cbn [rev]. rewrite <- app_assoc. reflexivity.
Qed.

Lemma text_chars (s : string) : text (chars s) = s.
Proof. apply string_of_list_ascii_of_string. Qed.

Lemma load_string_dump (s : string) (rest : list ascii) :
  exists tail,
    dump_string s ++ rest = dquote :: tail /\
    load_string tail [] = Some (s, rest).
Proof.
  unfold dump_string. eexists. split.
  - cbn [app]. rewrite <- app_assoc. reflexivity.
  - cbn [app]. rewrite load_string_escaped. cbn [rev app].
    rewrite text_chars. reflexivity.
Qed.

Lemma pyval_nested_ind (P : pyval -> Prop) :
  P PNone ->
  (forall b, P (PBool b)) ->
  (forall z, P (PInt z)) ->
  (forall s, P (PStr s)) ->
  (forall items, Forall P items -> P (PList items)) ->
  (forall entries,
     Forall (fun entry : string * pyval => P (snd entry)) entries ->
     P (PDict entries)) ->
  forall v, P v.
Proof.
  intros HNone HBool HInt HStr HList HDict.
  fix IH 1. intros [ | b | z | s | items | entries].
  - exact HNone.
  - apply HBool.
  - apply HInt.
  - apply HStr.
  - apply HList. induction items as [|item items IHitems]; constructor.
    + apply IH.
    + exact IHitems.
  - apply HDict. induction entries as [|[key value] entries IHentries];
      constructor.
    + apply IH.
    + exact IHentries.
Qed.

Lemma skip_space_indentation (level : nat) (t : list ascii) :
  skip_space (indentation level ++ t) = skip_space t.
Proof.
  unfold indentation, skip_space. cbn [app lstrip_by].
  change (is_json_space newline) with true. cbn iota.
  induction (2 * level)%nat as [|n IH]; [reflexivity|].
  cbn [repeat app lstrip_by]. exact IH.
Qed.

Lemma skip_space_start (c : ascii) (t : list ascii) :
  is_json_space c = false -> skip_space (c :: t) = c :: t.
Proof. intros H. unfold skip_space. cbn [lstrip_by]. rewrite H. reflexivity. Qed.

Lemma load_value_skip (fuel : nat) (s t : list ascii) :
  skip_space s = skip_space t -> load_value fuel s = load_value fuel t.
Proof.
  intros H. destruct fuel as [|fuel]; [reflexivity|].
  cbn [load_value]. rewrite H. reflexivity.
Qed.

Lemma dump_int_head (z : Z) :
  exists c tail,
    dump_int z = c :: tail /\
    (c = "-"%char \/ exists d, (d < 10)%N /\ c = digit_char d).
Proof.
  destruct z as [|p|p].
  - exists "0"%char, []. split; [reflexivity|]. right. exists 0%N.
    split; [lia | reflexivity].
  - destruct (dump_digits_head _ (N.pos p) ltac:(lia) (log2_fuel (N.pos p)))
      as (d & tail & Hhead & Hd).
    exists (digit_char d), tail. split; [exact Hhead|]. right. exists d.
    split; [lia | reflexivity].
  - eexists _, _. split; [reflexivity|]. left. reflexivity.
Qed.

Lemma number_start_cases (c : ascii) :
  (c = "-"%char \/ exists d, (d < 10)%N /\ c = digit_char d) ->
  value_start c = true /\
  forall fuel t, load_value (S fuel) (c :: t) = load_number (c :: t).
Proof.
  intros [-> | (d & Hd & ->)].
  - split; reflexivity.
  - assert (Hc : (d = 0 \/ d = 1 \/ d = 2 \/ d = 3 \/ d = 4 \/ d = 5
                  \/ d = 6 \/ d = 7 \/ d = 8 \/ d = 9)%N) by lia.
    repeat destruct Hc as [Hc|Hc]; subst; split; reflexivity.
Qed.

Lemma dump_head (level : nat) (v : pyval) :
  exists c tail, dump level v = c :: tail /\ value_start c = true.
Proof.
  destruct v as [ | [|] | z | s | [|item items] | [|entry entries]];
    try (eexists _, _; split; [reflexivity | reflexivity]).
  destruct (dump_int_head z) as (c & tail & Hz & Hc).
  exists c, tail. split; [exact Hz|]. apply number_start_cases. exact Hc.
Qed.

Lemma load_value_indented (fuel level : nat) (t : list ascii) :
  load_value fuel (indentation level ++ t) = load_value fuel t.
Proof. apply load_value_skip, skip_space_indentation. Qed.

Lemma ends_number_indentation (level : nat) (t : list ascii) :
  ends_number (indentation level ++ t) = true.
Proof. reflexivity. Qed.

Lemma join_two (separator a b : list ascii) (parts : list (list ascii)) :
  join separator (a :: b :: parts)
  = a ++ separator ++ join separator (b :: parts).
Proof. reflexivity. Qed.

Lemma load_items_join (sep_level item_level end_level : nat) :
  forall items,
    items <> [] ->
    Forall reads_back items ->
    forallb well_formed items = true ->
    forall acc fuel rest,
      (list_sum (map (fun item => S (cost item)) items) <= fuel)%nat ->
      load_items fuel
        (indentation sep_level
         ++ join (chars "," ++ indentation sep_level)
              (map (dump item_level) items)
         ++ indentation end_level ++ chars "]" ++ rest) acc
      = Some (acc ++ items, rest).
Proof.
  induction items as [|x xs IH]; intros Hne Hall Hwf acc fuel rest Hfuel;
    [contradiction|].
  apply Forall_cons in Hall. destruct Hall as [Hx Hxs].
  cbn [forallb] in Hwf. apply andb_true_iff in Hwf. destruct Hwf as [Hwx Hwxs].
  cbn [map list_sum fold_right] in Hfuel.
  destruct fuel as [|fuel]; [lia|]. cbn [load_items].
  rewrite load_value_indented.
  destruct xs as [|y ys].
  - cbn [map join]. rewrite (Hx Hwx); [|lia|apply ends_number_indentation].
    rewrite skip_space_indentation. reflexivity.
  - cbn [map]. rewrite join_two, <- !app_assoc.
    rewrite (Hx Hwx); [|lia|reflexivity].
    change (chars ",") with [","%char]. cbn [app].
    rewrite skip_space_start by reflexivity.
    change (Ascii.eqb "," ",") with true. cbn iota.
    specialize (IH ltac:(discriminate) Hxs Hwxs (acc ++ [x]) fuel rest).
    cbn [map] in IH. change (chars ",") with [","%char] in IH.
    cbn [app] in IH. rewrite IH by (cbn [map list_sum fold_right] in *; lia).
    rewrite <- app_assoc. reflexivity.
Qed.

Lemma dict_set_fresh (key : string) (v : pyval) (acc : list (string * pyval)) :
  key ∉ map fst acc -> dict_set key v acc = acc ++ [(key, v)].
Proof.
  induction acc as [|[k w] acc IH]; intros Hfresh; simpl.
  - reflexivity.
  - simpl in Hfresh. apply not_elem_of_cons in Hfresh.
    destruct Hfresh as [Hne Hfresh].
    destruct (String.eqb_spec k key) as [->|_]; [contradiction|].
    rewrite IH by exact Hfresh. reflexivity.
Qed.

Lemma load_entries_step (fuel : nat) (s tail X rest1 REST R : list ascii)
    (acc : list (string * pyval)) (key : string) (v : pyval) (c : ascii) :
  skip_space s = dquote :: tail ->
  load_string tail [] = Some (key, X) ->
  skip_space X = ":"%char :: rest1 ->
  load_value fuel rest1 = Some (v, REST) ->
  skip_space REST = c :: R ->
  load_entries (S fuel) s acc
  = if Ascii.eqb c ","
    then load_entries fuel R (dict_set key v acc)
    else if Ascii.eqb c "}" then Some (dict_set key v acc, R) else None.
Proof.
  intros Hs Hkey HX Hv HR. cbn [load_entries].
  rewrite Hs. change (Ascii.eqb dquote dquote) with true. cbn iota.
  rewrite Hkey, HX. change (Ascii.eqb ":" ":") with true. cbn iota.
  rewrite Hv, HR. reflexivity.
Qed.

Lemma load_entries_join (sep_level item_level end_level : nat) :
  forall entries,
    entries <> [] ->
    Forall (fun entry : string * pyval => reads_back (snd entry)) entries ->
    forallb (fun entry : string * pyval => well_formed (snd entry)) entries
    = true ->
    forall acc fuel rest,
      NoDup (map fst (acc ++ entries)) ->
      (list_sum (map (fun entry : string * pyval => S (cost (snd entry)))
                     entries) <= fuel)%nat ->
      load_entries fuel
        (indentation sep_level
         ++ join (chars "," ++ indentation sep_level)
              (map (fun entry : string * pyval =>
                      dump_string (fst entry) ++ chars ": "
                      ++ dump item_level (snd entry)) entries)
         ++ indentation end_level ++ chars "}" ++ rest) acc
      = Some (acc ++ entries, rest).
Proof.
  induction entries as [|[key v] es IH];
    intros Hne Hall Hwf acc fuel rest Hkeys Hfuel; [contradiction|].
  apply Forall_cons in Hall. destruct Hall as [Hv Hes]. cbn [snd] in Hv.
  cbn [forallb snd] in Hwf. apply andb_true_iff in Hwf.
  destruct Hwf as [Hwv Hwes].
  cbn [map list_sum fold_right snd] in Hfuel.
  destruct fuel as [|fuel]; [lia|].
  assert (Hfresh : key ∉ map fst acc).
  { rewrite map_app in Hkeys. cbn [map fst] in Hkeys.
    apply NoDup_app in Hkeys. destruct Hkeys as (_ & Hdisj & _).
    intros Hin. apply (Hdisj key Hin). left. }
  assert (Hkeys' : NoDup (map fst ((acc ++ [(key, v)]) ++ es)))
    by (rewrite <- app_assoc; exact Hkeys).
  change (chars ",") with [","%char]. change (chars ": ") with [":"%char; " "%char].
  destruct es as [|e es'].
  - cbn [map join fst snd]. rewrite <- !app_assoc. cbn [app].
    match goal with
    | |- context [dump_string key ++ ?X] =>
        destruct (load_string_dump key X) as (tail & Htext & Hload)
    end.
    rewrite Htext.
    erewrite (load_entries_step fuel) with (key := key) (v := v)
                                           (c := "}"%char) (tail := tail);
      cycle 1.
    + rewrite skip_space_indentation. apply skip_space_start. reflexivity.
    + exact Hload.
    + apply skip_space_start. reflexivity.
    + match goal with
      | |- load_value _ (" "%char :: ?t) = _ =>
          rewrite (load_value_skip _ _ t) by reflexivity
      end.
      apply (Hv Hwv); [lia | reflexivity].
    + rewrite skip_space_indentation. apply skip_space_start. reflexivity.
    + rewrite dict_set_fresh by exact Hfresh. reflexivity.
  - cbn [map]. rewrite join_two. cbn [fst snd]. rewrite <- !app_assoc.
    cbn [app].
    match goal with
    | |- context [dump_string key ++ ?X] =>
        destruct (load_string_dump key X) as (tail & Htext & Hload)
    end.
    rewrite Htext.
    erewrite (load_entries_step fuel) with (key := key) (v := v)
                                           (c := ","%char) (tail := tail);
      cycle 1.
    + rewrite skip_space_indentation. apply skip_space_start. reflexivity.
    + exact Hload.
    + apply skip_space_start. reflexivity.
    + match goal with
      | |- load_value _ (" "%char :: ?t) = _ =>
          rewrite (load_value_skip _ _ t) by reflexivity
      end.
      apply (Hv Hwv); [lia | reflexivity].
    + apply skip_space_start. reflexivity.
    + change (Ascii.eqb "," ",") with true. cbn iota.
      rewrite dict_set_fresh by exact Hfresh.
      specialize (IH ltac:(discriminate) Hes Hwes (acc ++ [(key, v)]) fuel rest
                     Hkeys').
      cbn [map fst snd] in IH. change (chars ",") with [","%char] in IH.
      change (chars ": ") with [":"%char; " "%char] in IH.
      rewrite <- ?app_assoc in IH. cbn [app] in IH.
      rewrite IH by (cbn [map list_sum fold_right] in *; lia).
      reflexivity.
Qed.

Lemma load_value_list (fuel : nat) (T : list ascii) (c : ascii) :
  (exists t, skip_space T = c :: t) ->
  Ascii.eqb c "]" = false ->
  load_value (S fuel) ("["%char :: T)
  = match load_items fuel T [] with
    | Some (items, rest) => Some (PList items, rest)
    | None => None
    end.
Proof.
  intros [t HT] Hc. cbn [load_value].
  rewrite skip_space_start by reflexivity.
  change (Ascii.eqb "[" "n") with false. change (Ascii.eqb "[" "t") with false.
  change (Ascii.eqb "[" "f") with false.
  change (Ascii.eqb "[" dquote) with false.
  change (Ascii.eqb "[" "[") with true. cbn iota.
  rewrite HT, Hc. reflexivity.
Qed.

Lemma load_value_dict (fuel : nat) (T : list ascii) (c : ascii) :
  (exists t, skip_space T = c :: t) ->
  Ascii.eqb c "}" = false ->
  load_value (S fuel) ("{"%char :: T)
  = match load_entries fuel T [] with
    | Some (entries, rest) => Some (PDict entries, rest)
    | None => None
    end.
Proof.
  intros [t HT] Hc. cbn [load_value].
  rewrite skip_space_start by reflexivity.
  change (Ascii.eqb "{" "n") with false. change (Ascii.eqb "{" "t") with false.
  change (Ascii.eqb "{" "f") with false.
  change (Ascii.eqb "{" dquote) with false.
  change (Ascii.eqb "{" "[") with false.
  change (Ascii.eqb "{" "{") with true. cbn iota.
  rewrite HT, Hc. reflexivity.
Qed.

Lemma value_start_facts (c : ascii) :
  value_start c = true ->
  is_json_space c = false /\ Ascii.eqb c "]" = false /\ Ascii.eqb c "}" = false.
Proof.
  unfold value_start. intros H.
  apply andb_true_iff in H. destruct H as [H H3].
  apply andb_true_iff in H. destruct H as [H1 H2].
  apply negb_true_iff in H1, H2, H3. auto.
Qed.

(** Every well-formed value is read back from its text. *)
Lemma load_value_dump (v : pyval) : reads_back v.
Proof.
  induction v as [ | b | z | s | items IH | entries IH] using pyval_nested_ind;
    intros Hwf level fuel rest Hfuel Hrest;
    (destruct fuel as [|fuel]; [cbn [cost] in Hfuel; lia|]).
  - reflexivity.
  - destruct b; reflexivity.
  - destruct (dump_int_head z) as (c & tail & Hz & Hc).
    destruct (number_start_cases c Hc) as [_ Hnum].
    cbn [dump]. rewrite <- (load_number_dump_int z rest Hrest).
    rewrite Hz. cbn [app]. apply Hnum.
  - cbn [dump]. destruct (load_string_dump s rest) as (tail & Htext & Hload).
    rewrite Htext. cbn [load_value].
    rewrite skip_space_start by reflexivity.
    change (Ascii.eqb dquote "n") with false.
    change (Ascii.eqb dquote "t") with false.
    change (Ascii.eqb dquote "f") with false.
    change (Ascii.eqb dquote dquote) with true. cbn iota.
    rewrite Hload. reflexivity.
  - destruct items as [|x xs]; [reflexivity|].
    cbn [well_formed] in Hwf. cbn [cost] in Hfuel.
    cbn [dump]. change (chars "[") with ["["%char].
    rewrite <- !app_assoc. cbn [app].
    destruct (dump_head (S level) x) as (c & t & Hx & Hc).
    apply value_start_facts in Hc. destruct Hc as (Hc1 & Hc2 & _).
    rewrite (load_value_list fuel _ c); cycle 1.
    + rewrite skip_space_indentation.
      destruct xs as [|y ys]; cbn [map]; [cbn [join]|rewrite join_two];
        rewrite Hx; cbn [app]; eexists; apply skip_space_start; exact Hc1.
    + exact Hc2.
    + rewrite (load_items_join (S level) (S level) level (x :: xs));
        [reflexivity | discriminate | exact IH | exact Hwf | lia].
  - destruct entries as [|[key x] es]; [reflexivity|].
    cbn [well_formed] in Hwf. apply andb_true_iff in Hwf.
    destruct Hwf as [Hkeys Hwf]. apply bool_decide_eq_true in Hkeys.
    cbn [cost] in Hfuel.
    cbn [dump]. change (chars "{") with ["{"%char].
    rewrite <- !app_assoc. cbn [app].
    rewrite (load_value_dict fuel _ dquote); cycle 1.
    + rewrite skip_space_indentation.
      destruct es as [|e es']; cbn [map]; [cbn [join]|rewrite join_two];
        cbn [fst]; unfold dump_string; cbn [app]; eexists;
        apply skip_space_start; reflexivity.
    + reflexivity.
    + rewrite (load_entries_join (S level) (S level) level ((key, x) :: es));
        [reflexivity | discriminate | exact IH | exact Hwf | exact Hkeys | lia].
Qed.

Lemma join_length (separator : list ascii) (parts : list (list ascii)) :
  (1 <= length separator)%nat ->
  (list_sum (map (fun part => S (length part)) parts)
   <= S (length (join separator parts)))%nat.
Proof.
  intros Hsep. induction parts as [|p [|q parts] IH].
  - simpl. lia.
  - simpl. lia.
  - rewrite join_two. rewrite !length_app.
    unfold list_sum in *. cbn [map fold_right] in *. lia.
Qed.

Lemma list_sum_le {A} (f g : A -> nat) (l : list A) :
  Forall (fun x => (f x <= g x)%nat) l ->
  (list_sum (map f l) <= list_sum (map g l))%nat.
Proof.
  induction 1 as [|x l Hx Hl IH]; unfold list_sum in *; cbn [map fold_right] in *; lia.
Qed.

Lemma length_indentation (level : nat) : (1 <= length (indentation level))%nat.
Proof. unfold indentation. simpl. lia. Qed.

Lemma cost_le_length (v : pyval) :
  forall level, (cost v <= length (dump level v))%nat.
Proof.
  induction v as [ | b | z | s | items IH | entries IH] using pyval_nested_ind;
    intros level.
  - simpl. lia.
  - destruct b; simpl; lia.
  - destruct (dump_int_head z) as (c & tail & Hz & _).
    cbn [cost dump]. rewrite Hz. simpl. lia.
  - cbn [cost dump]. unfold dump_string. simpl. lia.
  - destruct items as [|x xs]; [simpl; lia|].
    cbn [cost dump]. rewrite !length_app.
    pose proof (length_indentation (S level)) as H1.
    pose proof (join_length (chars "," ++ indentation (S level))
                  (map (dump (S level)) (x :: xs))) as Hj.
    rewrite map_map in Hj.
    assert (Hs : (list_sum (map (fun item => S (cost item)) (x :: xs))
                  <= list_sum (map (fun item => S (length (dump (S level) item)))
                                   (x :: xs)))%nat).
    { apply list_sum_le. eapply Forall_impl; [exact IH|].
      intros item Hitem. cbn beta. specialize (Hitem (S level)). lia. }
    specialize (Hj ltac:(rewrite length_app; simpl; lia)).
    change (length (chars "[")) with 1%nat. lia.
  - destruct entries as [|e es]; [simpl; lia|].
    cbn [cost dump]. rewrite !length_app.
    pose proof (length_indentation (S level)) as H1.
    pose proof (join_length (chars "," ++ indentation (S level))
                  (map (fun entry : string * pyval =>
                          dump_string (fst entry) ++ chars ": "
                          ++ dump (S level) (snd entry)) (e :: es))) as Hj.
    rewrite map_map in Hj.
    assert (Hs : (list_sum (map (fun entry : string * pyval =>
                                   S (cost (snd entry))) (e :: es))
                  <= list_sum
                       (map (fun entry : string * pyval =>
                               S (length (dump_string (fst entry) ++ chars ": "
                                          ++ dump (S level) (snd entry))))
                            (e :: es)))%nat).
    { apply list_sum_le. eapply Forall_impl; [exact IH|].
      intros entry Hentry. cbn beta. specialize (Hentry (S level)).
      rewrite !length_app. lia. }
    specialize (Hj ltac:(rewrite length_app; simpl; lia)).
    change (length (chars "{")) with 1%nat. lia.
Qed.

Lemma length_text (l : list ascii) : String.length (text l) = length l.
Proof. induction l as [|c l IH]; simpl; [reflexivity | f_equal; exact IH]. Qed.

(** The reader gives back every well-formed value that the writer wrote. *)
Theorem loads_dumps (v : pyval) :
  well_formed v = true -> loads (dumps v) = Some v.
Proof.
  intros Hwf. unfold loads, dumps. rewrite chars_text, length_text.
  rewrite <- (app_nil_r (dump O v)) at 2.
  rewrite (load_value_dump v Hwf O); [reflexivity | | reflexivity].
  pose proof (cost_le_length v O). lia.
Qed.
End MiniJsonFacts.

(** The records built by [add_operation] from well-formed arguments are
    well formed. *)
Lemma make_operation_well_formed (now : string)
    (operation_type query natural_query affected_rows result rollback_sql : pyval) :
  well_formed operation_type = true -> well_formed query = true ->
  well_formed natural_query = true -> well_formed affected_rows = true ->
  well_formed result = true -> well_formed rollback_sql = true ->
  well_formed (make_operation now operation_type query natural_query
                              affected_rows result rollback_sql) = true.
Proof.
  intros H1 H2 H3 H4 H5 H6. cbn [well_formed make_operation forallb snd].
  rewrite H1, H2, H3, H4, H5, H6. reflexivity.
Qed.

(** With this writer and reader the assumption of
    [save_then_load_outcome] holds for every history of well-formed
    records: the file gives back the sequence, with the cursor on the
    last entry. *)
Lemma save_then_load_mini_json (filename : string)
    (self target : OperationHistory) (fs : gmap string file_node) :
  forallb well_formed (history self) = true ->
  fs !! filename <> Some Locked ->
  load_from_file MiniJson.impl filename target
    (fst (save_to_file MiniJson.impl filename self fs))
  = Loaded true
      (mkHistory (history self) (len (history self) - 1) (max_history target)).
Proof.
  intros Hwf Hfile.
  apply (save_then_load_outcome MiniJson.impl filename self target fs);
    [|exact Hfile].
  apply (MiniJsonFacts.loads_dumps (PList (history self))). exact Hwf.
Qed.

(* ===================================================================== *)
(** * 17. OperationHistory: navigation and restart                        *)
(* ===================================================================== *)

Lemma can_undo_true (self : OperationHistory) :
  0 <= current_index self -> can_undo self = true.
Proof.
  intros H. unfold can_undo.
  destruct (Z.geb_spec (current_index self) 0); [reflexivity | lia].
Qed.

Lemma can_undo_false (self : OperationHistory) :
  current_index self < 0 -> can_undo self = false.
Proof.
  intros H. unfold can_undo.
  destruct (Z.geb_spec (current_index self) 0); [lia | reflexivity].
Qed.

Lemma can_redo_true (self : OperationHistory) :
  current_index self < len (history self) - 1 -> can_redo self = true.
Proof.
  intros H. unfold can_redo.
  destruct (Z.ltb_spec (current_index self) (len (history self) - 1));
    [reflexivity | lia].
Qed.

Lemma can_redo_false (self : OperationHistory) :
  len (history self) - 1 <= current_index self -> can_redo self = false.
Proof.
  intros H. unfold can_redo.
  destruct (Z.ltb_spec (current_index self) (len (history self) - 1));
    [lia | reflexivity].
Qed.

Lemma py_index_some {A} (l : list A) (i : Z) :
  0 <= i < len l -> exists x, py_index l i = Some x /\ l !! Z.to_nat i = Some x.
Proof.
  intros H. destruct (lookup_in_range l i H) as [x Hx].
  exists x. rewrite py_index_in_range by exact H. split; exact Hx.
Qed.

(** What one undo does when the cursor is on an entry. *)
Lemma get_previous_operation_step (self : OperationHistory) :
  0 <= current_index self <= len (history self) - 1 ->
  exists operation,
    history self !! Z.to_nat (current_index self) = Some operation /\
    get_previous_operation self
    = (set_index self (current_index self - 1), inr operation).
Proof.
  intros H.
  destruct (py_index_some (history self) (current_index self)) as (op & Hop & Hl);
    [lia|].
  exists op. split; [exact Hl|].
  unfold get_previous_operation. rewrite can_undo_true by lia. simpl.
  rewrite Hop. reflexivity.
Qed.

(** What one redo does when an entry follows the cursor. *)
Lemma get_next_operation_step (self : OperationHistory) :
  -1 <= current_index self < len (history self) - 1 ->
  exists operation,
    history self !! Z.to_nat (current_index self + 1) = Some operation /\
    get_next_operation self
    = (set_index self (current_index self + 1), inr operation).
Proof.
  intros H.
  destruct (py_index_some (history self) (current_index self + 1))
    as (op & Hop & Hl); [lia|].
  exists op. split; [exact Hl|].
  unfold get_next_operation. rewrite can_redo_true by lia. simpl.
  rewrite Hop. reflexivity.
Qed.

Lemma set_index_same (self : OperationHistory) :
  set_index self (current_index self) = self.
Proof. destruct self; reflexivity. Qed.

Lemma undo_then_redo (self : OperationHistory) :
  0 <= current_index self <= len (history self) - 1 ->
  fst (get_next_operation (fst (get_previous_operation self))) = self.
Proof.
  intros H. destruct (get_previous_operation_step self H) as (op & _ & ->).
  simpl.
  destruct (get_next_operation_step (set_index self (current_index self - 1)))
    as (op' & _ & ->); [simpl; lia|].
  simpl. unfold set_index. simpl.
  replace (current_index self - 1 + 1) with (current_index self) by lia.
  destruct self; reflexivity.
Qed.

Lemma redo_times_last (n : nat) (self : OperationHistory) :
  redo_times (S n) self = fst (get_next_operation (redo_times n self)).
Proof.
  revert self. induction n as [|n IH]; intros self; [reflexivity|].
  change (redo_times (S (S n)) self)
    with (redo_times (S n) (fst (get_next_operation self))).
  rewrite IH. reflexivity.
Qed.

(** X1.  In every history produced from the empty one by additions, undo,
    redo, clearing and loads of files that hold a JSON array, in any
    order, [get_previous_operation] and [get_next_operation] raise
    nothing: each returns [None] when there is nothing to undo or redo and
    the entry under the moved cursor otherwise, and neither changes the
    stored sequence or the capacity.  (After the load of a document that
    is not an array the attribute is not a list, and indexing it can
    raise: such an object is not in the scope of this statement.) *)
Theorem navigation_never_raises (capacity : Z) (h : OperationHistory) :
  reachable capacity h ->
  (if can_undo h
   then exists operation,
          history h !! Z.to_nat (current_index h) = Some operation /\
          get_previous_operation h
          = (set_index h (current_index h - 1), inr operation)
   else get_previous_operation h = (h, inr PNone)) /\
  (if can_redo h
   then exists operation,
          history h !! Z.to_nat (current_index h + 1) = Some operation /\
          get_next_operation h
          = (set_index h (current_index h + 1), inr operation)
   else get_next_operation h = (h, inr PNone)) /\
  history (fst (get_previous_operation h)) = history h /\
  history (fst (get_next_operation h)) = history h /\
  max_history (fst (get_previous_operation h)) = max_history h /\
  max_history (fst (get_next_operation h)) = max_history h.
Proof.
  intros Hr. pose proof (reachable_cursor_range capacity h Hr) as Hc.
  assert (Hu : if can_undo h
               then exists operation,
                   history h !! Z.to_nat (current_index h) = Some operation /\
                   get_previous_operation h
                   = (set_index h (current_index h - 1), inr operation)
               else get_previous_operation h = (h, inr PNone)).
  { destruct (can_undo h) eqn:E.
    - apply get_previous_operation_step. unfold can_undo in E. lia.
    - unfold get_previous_operation. rewrite E. reflexivity. }
  assert (Hd : if can_redo h
               then exists operation,
                   history h !! Z.to_nat (current_index h + 1) = Some operation /\
                   get_next_operation h
                   = (set_index h (current_index h + 1), inr operation)
               else get_next_operation h = (h, inr PNone)).
  { destruct (can_redo h) eqn:E.
    - apply get_next_operation_step. unfold can_redo in E. lia.
    - unfold get_next_operation. rewrite E. reflexivity. }
  split; [exact Hu|]. split; [exact Hd|].
  destruct (can_undo h); destruct (can_redo h);
    repeat match goal with
           | H : exists _, _ |- _ => destruct H as (? & _ & ->)
           | H : _ = (_, _) |- _ => rewrite H; clear H
           end; repeat split.
Qed.

Lemma navigation_never_raises_witness :
  get_previous_operation (add_B (add_A init_default))
  = (set_index (add_B (add_A init_default)) 0, inr op_B) /\
  get_next_operation (add_B (add_A init_default))
  = (add_B (add_A init_default), inr PNone).
Proof.
  assert (Hr : reachable 100 (add_B (add_A init_default))).
  { unfold add_B, add_A, add_operation. simpl.
    apply reachable_add, reachable_add, reachable_init. }
  pose proof (navigation_never_raises 100 (add_B (add_A init_default)) Hr)
    as (Hu & Hd & _).
  split.
  - change (can_undo (add_B (add_A init_default))) with true in Hu.
    destruct Hu as (operation & Hop & Heq).
    rewrite Heq. vm_compute in Hop. injection Hop as <-. reflexivity.
  - exact Hd.
Defined.

(** X2.  Redo followed by undo is the identity: when an entry follows the
    cursor, [get_next_operation] and then [get_previous_operation] return
    the same record, the one after the cursor, and leave the history,
    cursor included, as it was. *)
Theorem redo_then_undo_restores_cursor (self : OperationHistory) :
  -1 <= current_index self ->
  current_index self < len (history self) - 1 ->
  can_redo self = true /\
  exists operation,
    history self !! Z.to_nat (current_index self + 1) = Some operation /\
    snd (get_next_operation self) = inr operation /\
    current_index (fst (get_next_operation self)) = current_index self + 1 /\
    snd (get_previous_operation (fst (get_next_operation self)))
    = inr operation /\
    fst (get_previous_operation (fst (get_next_operation self))) = self.
Proof.
  intros Hlo Hhi. split; [apply can_redo_true; exact Hhi|].
  destruct (get_next_operation_step self) as (op & Hop & Hn); [lia|].
  exists op. rewrite Hn. simpl.
  split; [exact Hop|]. split; [reflexivity|]. split; [reflexivity|].
  destruct (get_previous_operation_step
              (set_index self (current_index self + 1)))
    as (op' & Hop' & ->); [simpl; lia|].
  simpl in Hop'. rewrite Hop in Hop'. injection Hop' as <-. simpl.
  split; [reflexivity|]. unfold set_index. simpl.
  replace (current_index self + 1 - 1) with (current_index self) by lia.
  destruct self; reflexivity.
Qed.

Lemma redo_then_undo_restores_cursor_witness :
  (-1 <= 0 /\ 0 < len [op_A; op_B; op_C] - 1) /\
  can_redo (mkHistory [op_A; op_B; op_C] 0 100) = true.
Proof.
  assert (Hlo : -1 <= current_index (mkHistory [op_A; op_B; op_C] 0 100))
    by (simpl; lia).
  assert (Hhi : current_index (mkHistory [op_A; op_B; op_C] 0 100)
                < len (history (mkHistory [op_A; op_B; op_C] 0 100)) - 1)
    by (vm_compute; reflexivity).
  split; [split; [exact Hlo | exact Hhi] |].
  exact (proj1 (redo_then_undo_restores_cursor
                  (mkHistory [op_A; op_B; op_C] 0 100) Hlo Hhi)).
Defined.

(** X3.  Undoing [n] times and then redoing [n] times gives the history
    back, cursor included, as long as [n] entries lie at or before the
    cursor; the [n] undos move the cursor back by [n]. *)
Theorem undo_times_then_redo_times (n : nat) (self : OperationHistory) :
  Z.of_nat n <= current_index self + 1 ->
  current_index self <= len (history self) - 1 ->
  current_index (undo_times n self) = current_index self - Z.of_nat n /\
  history (undo_times n self) = history self /\
  redo_times n (undo_times n self) = self.
Proof.
  revert self. induction n as [|n IH]; intros self Hn Hhi.
  - simpl. repeat split. lia.
  - assert (Hc : 0 <= current_index self <= len (history self) - 1) by lia.
    destruct (get_previous_operation_step self Hc) as (op & _ & Hp).
    assert (Hfst : fst (get_previous_operation self)
                   = set_index self (current_index self - 1))
      by (rewrite Hp; reflexivity).
    destruct (IH (fst (get_previous_operation self))) as (Hi & Hh & Hback).
    + rewrite Hfst. simpl. lia.
    + rewrite Hfst. simpl. lia.
    + change (undo_times (S n) self)
        with (undo_times n (fst (get_previous_operation self))).
      split; [rewrite Hi, Hfst; simpl; lia|].
      split; [rewrite Hh, Hfst; reflexivity|].
      rewrite redo_times_last, Hback. apply undo_then_redo. exact Hc.
Qed.

Lemma undo_times_then_redo_times_witness :
  (Z.of_nat 2 <= 2 + 1 /\ 2 <= len [op_A; op_B; op_C] - 1) /\
  redo_times 2 (undo_times 2 (mkHistory [op_A; op_B; op_C] 2 100))
  = mkHistory [op_A; op_B; op_C] 2 100.
Proof.
  assert (Hn : Z.of_nat 2
               <= current_index (mkHistory [op_A; op_B; op_C] 2 100) + 1)
    by (vm_compute; discriminate).
  assert (Hhi : current_index (mkHistory [op_A; op_B; op_C] 2 100)
                <= len (history (mkHistory [op_A; op_B; op_C] 2 100)) - 1)
    by (vm_compute; discriminate).
  split; [split; [exact Hn | exact Hhi] |].
  exact (proj2 (proj2 (undo_times_then_redo_times 2
                         (mkHistory [op_A; op_B; op_C] 2 100) Hn Hhi))).
Defined.

(** X4.  A history created with a capacity of zero or less never stores
    anything: whatever is added, undone, redone or cleared, the sequence
    stays empty and the cursor stays at [-1], so every added record is
    dropped at once. *)
Theorem no_capacity_stores_nothing (capacity : Z) (h : OperationHistory) :
  capacity <= 0 ->
  built capacity h ->
  history h = [] /\ current_index h = -1 /\ max_history h = capacity.
Proof.
  intros Hcap Hb. induction Hb as [|h op Hb IH|h Hb IH|h Hb IH|h Hb IH].
  - repeat split.
  - destruct IH as (Hh & Hc & Hm).
    unfold append_operation, truncate_after_cursor. rewrite Hh, Hc, Hm.
    simpl. unfold evict_oldest.
    destruct (Z.gtb_spec (len [op]) capacity) as [_ | Hle].
    + repeat split.
    + change (len [op]) with 1 in Hle. lia.
  - destruct IH as (Hh & Hc & Hm).
    unfold get_previous_operation. rewrite can_undo_false by lia. simpl.
    repeat split; assumption.
  - destruct IH as (Hh & Hc & Hm).
    unfold get_next_operation. rewrite can_redo_false; simpl.
    + repeat split; assumption.
    + rewrite Hh, Hc. rewrite len_nil. lia.
  - destruct IH as (Hh & Hc & Hm). repeat split. exact Hm.
Qed.

Lemma no_capacity_stores_nothing_witness :
  (0 <= 0 /\ built 0 (add_B (add_A (init 0)))) /\
  history (add_B (add_A (init 0))) = [].
Proof.
  assert (Hcap : 0 <= 0) by lia.
  assert (Hb : built 0 (add_B (add_A (init 0)))).
  { unfold add_B, add_A, add_operation. simpl.
    apply built_add, built_add, built_init. }
  split; [split; [exact Hcap | exact Hb] |].
  exact (proj1 (no_capacity_stores_nothing 0 (add_B (add_A (init 0))) Hcap Hb)).
Defined.

(** X5.  What the application does around a restart: after
    [add_operation], [save_to_file] followed by [load_from_file] into a
    new history of the same capacity gives back the whole object, cursor
    included, since the cursor of a history that has just received a
    record is on its last entry. *)
Theorem add_then_save_then_load_restores_history
    (json : json_module) (filename now : string)
    (operation_type query natural_query affected_rows result rollback_sql : pyval)
    (self : OperationHistory) (fs : gmap string file_node) :
  let self' :=
    snd (add_operation now operation_type query natural_query
                       affected_rows result rollback_sql self) in
  json_loads json (json_dumps json (PList (history self')))
  = Some (PList (history self')) ->
  fs !! filename <> Some Locked ->
  snd (save_to_file json filename self' fs) = true /\
  load_from_file json filename (init (max_history self))
    (fst (save_to_file json filename self' fs))
  = Loaded true self'.
Proof.
  intros self' Hjson Hfile.
  destruct (save_then_load_outcome json filename self'
              (init (max_history self)) fs Hjson Hfile) as [Hs Hl].
  split; [exact Hs|]. rewrite Hl. reflexivity.
Qed.

Lemma add_then_save_then_load_restores_history_witness :
  load_from_file MiniJson.impl "operation_history.json" (init 100)
    (fst (save_to_file MiniJson.impl "operation_history.json"
            (add_B (add_A init_default)) ∅))
  = Loaded true (add_B (add_A init_default)).
Proof.
  assert (Hjson :
    json_loads MiniJson.impl
      (json_dumps MiniJson.impl
         (PList (history (add_B (add_A init_default)))))
    = Some (PList (history (add_B (add_A init_default)))))
    by (vm_compute; reflexivity).
  assert (Hfile : (∅ : gmap string file_node) !! "operation_history.json"%string
                  <> Some Locked)
    by (rewrite lookup_empty; discriminate).
  exact (proj2 (add_then_save_then_load_restores_history MiniJson.impl
                  "operation_history.json" "2024-01-01 10:00:01" (PStr "INSERT")
                  (PStr "INSERT INTO t VALUES (1);") (PStr "B") (PInt 1)
                  (PStr "ok") (PStr "DELETE FROM t WHERE x = 1;")
                  (add_A init_default) ∅ Hjson Hfile)).
Defined.

(* ===================================================================== *)
(** * 18. database.py: single statements                                  *)
(* ===================================================================== *)

Lemma detect_operation_type_cases (sql : string) :
  In (detect_operation_type sql)
     ["SELECT"%string; "INSERT"%string; "UPDATE"%string; "DELETE"%string;
      "CREATE"%string; "ALTER"%string; "DROP"%string; "UNKNOWN"%string].
Proof.
  unfold detect_operation_type.
  repeat match goal with
         | |- context [if ?b then _ else _] => destruct b
         end; simpl; tauto.
Qed.

Section Modifications.

Context {session db : Type} (drv : driver session) (pd : pandas_module)
        (durable visible : session -> db).
Hypothesis contract : transactional drv durable visible.

Lemma execute_modification_durable (s s' : session) (sql message : string) :
  execute_modification drv (Some s) sql = (Some s', inl message) ->
  durable s' = durable s.
Proof.
  unfold execute_modification.
  destruct (negb (drv_is_connected drv s)); [intros H; inversion H; reflexivity|].
  destruct (negb (existsb _ modification_types));
    [intros H; inversion H; reflexivity|].
  pose proof (execute_keeps_durable drv durable visible contract
                (validate_sql sql) s) as He.
  destruct (drv_execute drv (validate_sql sql) s) as [s1 [err|]]; simpl in He.
  - intros H. inversion H; subst.
    rewrite (rollback_if_connected_durable drv durable visible
               (transactional_session_contract _ _ _ contract)).
    exact He.
  - destruct (drv_commit drv s1) as [s2 [err|]] eqn:Hc; intros H;
      inversion H; subst.
    rewrite (rollback_if_connected_durable drv durable visible
               (transactional_session_contract _ _ _ contract)).
    rewrite (failed_commit_keeps_durable drv durable visible contract _ _ _ Hc).
    exact He.
Qed.

Lemma execute_query_durable (s s' : session) (query : string)
    (outcome : py_exn + option dataframe) :
  execute_query drv pd (Some s) query = (Some s', outcome) ->
  durable s' = durable s.
Proof.
  unfold execute_query.
  pose proof (execute_keeps_durable drv durable visible contract
                (validate_sql query) s) as He.
  destruct (drv_execute drv (validate_sql query) s) as [s1 [err|]];
    simpl in He.
  - intros H. inversion H; subst. exact He.
  - pose proof (fetchall_keeps_durable drv durable visible contract s1) as Hf.
    destruct (drv_fetchall drv s1) as [s2 [err|rows]]; simpl in Hf;
      intros H; inversion H; subst; congruence.
Qed.

End Modifications.

(** The results collected by the loop of [execute_transaction] answer the
    statements one after the other. *)
Lemma execute_statements_answers {session} (drv : driver session)
    (pd : pandas_module) (sql_list : list string) :
  forall (s s' : session) (results results' : list statement_result),
    execute_statements drv pd sql_list s results = (s', inr results') ->
    exists new,
      results' = results ++ new /\
      answers_in_order drv pd s sql_list new s'.
Proof.
  induction sql_list as [|sql rest IH]; intros s s' results results' H.
  - simpl in H. injection H as <- <-. exists []. rewrite app_nil_r.
    split; [reflexivity | constructor].
  - cbn [execute_statements] in H.
    destruct (execute_statement drv pd sql s) as [s1 [err|r]] eqn:Hone;
      [discriminate|].
    destruct (IH _ _ _ _ H) as (new & -> & Hnew).
    exists (r :: new). rewrite <- app_assoc. split; [reflexivity|].
    apply (answers_cons drv pd s sql r s1); [|exact Hnew].
    unfold execute_statement in Hone. unfold answers.
    destruct (drv_execute drv sql s) as [s2 [err|]]; [discriminate|].
    exists s2. split; [reflexivity|].
    destruct (startswith (chars "SELECT") (chars (detect_operation_type sql))).
    + destruct (drv_fetchall drv s2) as [s3 [err|rows]]; [discriminate|].
      injection Hone as <- <-. exists rows. split; reflexivity.
    + injection Hone as <- <-. split; reflexivity.
Qed.

Lemma answers_in_order_length {session} (drv : driver session)
    (pd : pandas_module) (s s' : session) (sql_list : list string)
    (results : list statement_result) :
  answers_in_order drv pd s sql_list results s' ->
  length results = length sql_list.
Proof.
  intros H. induction H as [|s sql r s1 rest results s2 _ _ IH];
    [reflexivity|]. simpl. rewrite IH. reflexivity.
Qed.

(** X6.  Over a driver that keeps the transactional contract, whenever
    [execute_modification] reports a failure (no live connection, a kind
    that is not accepted, an error of the statement or of the commit) the
    committed contents of the database are those of before the call. *)
Theorem execute_modification_failure_keeps_database
    {session db : Type} (drv : driver session)
    (durable visible : session -> db)
    (s s' : session) (sql message : string) :
  transactional drv durable visible ->
  execute_modification drv (Some s) sql = (Some s', inl message) ->
  durable s' = durable s.
Proof.
  intros contract H.
  exact (execute_modification_durable drv durable visible contract _ _ _ _ H).
Qed.

Lemma execute_modification_failure_keeps_database_witness :
  let s := ToyDriver.mkSession [CInt 1] [CInt 1] None (-1) true in
  let duplicate := "1062 (23000): Duplicate entry for key 't.x'"%string in
  execute_modification ToyDriver.drv (Some s) "INSERT INTO t VALUES (1)"
  = (Some s, inl (handle_exception duplicate "执行修改操作")) /\
  ToyDriver.committed s = [CInt 1].
Proof.
  intros s duplicate.
  assert (Hrun :
    execute_modification ToyDriver.drv (Some s) "INSERT INTO t VALUES (1)"
    = (Some s, inl (handle_exception duplicate "执行修改操作")))
    by (vm_compute; reflexivity).
  split; [exact Hrun|].
  exact (execute_modification_failure_keeps_database ToyDriver.drv
           ToyDriver.committed ToyDriver.working s s _ _
           toy_driver_transactional Hrun).
Defined.

(** X7.  [execute_modification] sends a statement to the server only when
    the kind detected on the sanitized statement is one of the six
    modifying kinds: a statement detected as [SELECT] or [UNKNOWN] is
    refused with a message naming the kind, and the session is left as it
    was; these two are the only kinds refused. *)
Theorem execute_modification_refuses_other_kinds
    {session : Type} (drv : driver session) (s : session) (sql : string) :
  drv_is_connected drv s = true ->
  let kind := detect_operation_type (validate_sql sql) in
  (In kind modification_types \/ kind = "SELECT"%string
   \/ kind = "UNKNOWN"%string) /\
  (kind = "SELECT"%string \/ kind = "UNKNOWN"%string ->
   execute_modification drv (Some s) sql
   = (Some s, inl ("不支持的操作类型: " +:+ kind)%string)) /\
  (In kind modification_types ->
   fst (execute_modification drv (Some s) sql)
   = match drv_execute drv (validate_sql sql) s with
     | (s1, Some err) => Some (rollback_if_connected drv s1)
     | (s1, None) =>
         match drv_commit drv s1 with
         | (s2, Some err) => Some (rollback_if_connected drv s2)
         | (s2, None) => Some s2
         end
     end).
Proof.
  intros Hconn kind. split; [|split].
  - pose proof (detect_operation_type_cases (validate_sql sql)) as H.
    fold kind in H. unfold modification_types. simpl in H |- *.
    intuition (subst; auto 10).
  - intros Hkind. unfold execute_modification. rewrite Hconn. cbn [negb].
    fold kind.
    destruct Hkind as [-> | ->]; reflexivity.
  - intros Hkind. unfold execute_modification. rewrite Hconn. cbn [negb].
    fold kind.
    assert (Hin : existsb (String.eqb kind) modification_types = true).
    { apply existsb_exists. exists kind. split; [exact Hkind|].
      apply String.eqb_refl. }
    rewrite Hin. cbn [negb].
    destruct (drv_execute drv (validate_sql sql) s) as [s1 [err|]];
      [reflexivity|].
    destruct (drv_commit drv s1) as [s2 [err|]]; reflexivity.
Qed.

Lemma execute_modification_refuses_other_kinds_witness :
  drv_is_connected ToyDriver.drv (ToyDriver.connect []) = true /\
  execute_modification ToyDriver.drv (Some (ToyDriver.connect []))
    "SELECT x FROM t"
  = (Some (ToyDriver.connect []), inl "不支持的操作类型: SELECT"%string).
Proof.
  assert (Hconn : drv_is_connected ToyDriver.drv (ToyDriver.connect []) = true)
    by reflexivity.
  split; [exact Hconn|].
  apply (proj1 (proj2 (execute_modification_refuses_other_kinds ToyDriver.drv
                         (ToyDriver.connect []) "SELECT x FROM t" Hconn))).
  left. vm_compute. reflexivity.
Defined.

(** X8.  When [execute_transaction] succeeds, the list of statements was
    not empty and the returned list holds one result per statement, in
    the order of the statements, each statement being run from the
    session that the one before left: for a statement whose kind starts
    with [SELECT], the frame built from the rows fetched after it and the
    column names of the cursor; for every other statement, the detected
    kind with the row count that the cursor shows after it.  The commit
    comes after the last statement. *)
Theorem execute_transaction_results_in_order
    {session : Type} (drv : driver session) (pd : pandas_module)
    (connection connection' : option session) (sql_list : list string)
    (results : list statement_result) :
  execute_transaction drv pd connection sql_list = (connection', inr results) ->
  length results = length sql_list /\
  sql_list <> [] /\
  exists s s1 s2,
    connection = Some s /\
    drv_is_connected drv s = true /\
    answers_in_order drv pd s sql_list results s1 /\
    drv_commit drv s1 = (s2, None) /\
    connection' = Some s2.
Proof.
  unfold execute_transaction. intros H.
  destruct connection as [s|]; [|discriminate].
  destruct (drv_is_connected drv s) eqn:Hconn; [|discriminate]. cbn [negb] in H.
  destruct (negb (list_truthy sql_list)) eqn:Hne; [discriminate|].
  destruct (execute_statements drv pd sql_list s []) as [s1 [err|results1]]
    eqn:Hs; [discriminate|].
  destruct (drv_commit drv s1) as [s2 [err|]] eqn:Hc; [discriminate|].
  injection H as <- <-.
  destruct (execute_statements_answers drv pd _ _ _ _ _ Hs) as (new & -> & Hnew).
  simpl. split; [exact (answers_in_order_length _ _ _ _ _ _ Hnew)|].
  split; [intros ->; discriminate|].
  exists s, s1, s2. repeat split; assumption.
Qed.

Lemma execute_transaction_results_in_order_witness :
  let statements :=
    ["INSERT INTO t VALUES (1)"%string; "SELECT x FROM t"%string] in
  let results :=
    [ModifyResult "INSERT" 1;
     SelectResult (mkFrame ["x"%string] [[Kept (CInt 1)]])] in
  execute_transaction ToyDriver.drv MiniPandas.impl
    (Some (ToyDriver.connect [])) statements
  = (Some (ToyDriver.mkSession [CInt 1] [CInt 1] None 1 true), inr results) /\
  length results = length statements.
Proof.
  intros statements results.
  assert (Hrun :
    execute_transaction ToyDriver.drv MiniPandas.impl
      (Some (ToyDriver.connect [])) statements
    = (Some (ToyDriver.mkSession [CInt 1] [CInt 1] None 1 true), inr results))
    by (vm_compute; reflexivity).
  split; [exact Hrun|].
  exact (proj1 (execute_transaction_results_in_order ToyDriver.drv
                  MiniPandas.impl _ _ _ _ Hrun)).
Defined.

(** X9.  [execute_query] never commits: over a driver that keeps the
    transactional contract, whatever the statement and whether the call
    returns a data frame or [None], the committed contents of the
    database are those of before the call. *)
Theorem execute_query_keeps_database
    {session db : Type} (drv : driver session) (pd : pandas_module)
    (durable visible : session -> db)
    (s s' : session) (query : string) (outcome : py_exn + option dataframe) :
  transactional drv durable visible ->
  execute_query drv pd (Some s) query = (Some s', outcome) ->
  durable s' = durable s.
Proof.
  intros contract H.
  exact (execute_query_durable drv pd durable visible contract _ _ _ _ H).
Qed.

Lemma execute_query_keeps_database_witness :
  let s' := ToyDriver.mkSession [] [CInt 1] None 1 true in
  execute_query ToyDriver.drv MiniPandas.impl (Some (ToyDriver.connect []))
    "INSERT INTO t VALUES (1)"
  = (Some s', inr None) /\
  ToyDriver.committed s' = [].
Proof.
  intros s'.
  assert (Hrun :
    execute_query ToyDriver.drv MiniPandas.impl (Some (ToyDriver.connect []))
      "INSERT INTO t VALUES (1)"
    = (Some s', inr None))
    by (vm_compute; reflexivity).
  split; [exact Hrun|].
  exact (execute_query_keeps_database ToyDriver.drv MiniPandas.impl
           ToyDriver.committed ToyDriver.working _ _ _ _
           toy_driver_transactional Hrun).
Defined.

(** X10.  Without a connection object, as before [connect] and after
    [close], and whatever the driver, [execute_modification] and
    [execute_transaction] return the failure [数据库未连接], while
    [execute_query], which has no such test, raises [AttributeError]. *)
Theorem calls_without_connection
    {session : Type} (drv : driver session) (pd : pandas_module)
    (connection : option session)
    (sql : string) (sql_list : list string) :
  is_connected drv (close connection) = false /\
  execute_modification drv (close connection) sql
  = (None, inl "数据库未连接"%string) /\
  execute_transaction drv pd (close connection) sql_list
  = (None, inl "数据库未连接"%string) /\
  execute_query drv pd (close connection) sql = (None, inl AttributeError).
Proof. repeat split. Qed.

(* ===================================================================== *)
(** * 19. The kind of a statement                                         *)
(* ===================================================================== *)

(** [str.upper] keeps white space, and gives no white space from another
    character. *)
Lemma upper_char_space (c : ascii) :
  (is_space c = true /\ upper_char c = [c]) \/
  (is_space c = false /\
   exists d rest, upper_char c = rest ++ [d] /\ is_space d = false /\
                  match rest with
                  | [] => True
                  | e :: _ => is_space e = false
                  end).
Proof.
  destruct c as [[] [] [] [] [] [] [] []];
    first [ left; split; reflexivity
          | right; split; [reflexivity|];
            first [ eexists _, []; split; [reflexivity|];
                    split; [reflexivity | exact I]
                  | eexists _, [_]; split; [reflexivity|];
                    split; reflexivity ] ].
Qed.

Lemma upper_cons (c : ascii) (s : list ascii) :
  upper (c :: s) = upper_char c ++ upper s.
Proof. reflexivity. Qed.

Lemma upper_nil_inv (s : list ascii) : upper s = [] -> s = [].
Proof.
  destruct s as [|c s]; [reflexivity|]. rewrite upper_cons.
  destruct (upper_char_space c) as [[_ ->] | (_ & d & rest & -> & _)];
    [discriminate|].
  destruct rest; discriminate.
Qed.

Lemma lstrip_upper (s : list ascii) :
  lstrip_by is_space (upper s) = upper (lstrip_by is_space s).
Proof.
  induction s as [|c s IH]; [reflexivity|]. rewrite upper_cons. simpl.
  destruct (upper_char_space c) as [[Hc E] | (Hc & d & rest & E & Hd & Hr)];
    rewrite Hc.
  - rewrite E. simpl. rewrite Hc. exact IH.
  - rewrite upper_cons, E.
    destruct rest as [|e rest]; simpl.
    + rewrite Hd. reflexivity.
    + rewrite Hr. reflexivity.
Qed.

Lemma rstrip_upper (s : list ascii) :
  rstrip_by is_space (upper s) = upper (rstrip_by is_space s).
Proof.
  induction s as [|c s IH]; [reflexivity|].
  rewrite upper_cons, rstrip_by_app, IH. simpl.
  destruct (rstrip_by is_space s) as [|k kept] eqn:Hk.
  - simpl.
    destruct (upper_char_space c) as [[Hc E] | (Hc & d & rest & E & Hd & _)];
      rewrite Hc.
    + rewrite E. simpl. rewrite Hc. reflexivity.
    + rewrite upper_cons. change (upper []) with (@nil ascii).
      rewrite app_nil_r, E. apply rstrip_by_snoc. exact Hd.
  - destruct (upper (k :: kept)) eqn:E.
    + apply upper_nil_inv in E. discriminate.
    + rewrite <- E. reflexivity.
Qed.

Lemma strip_upper (s : list ascii) : strip (upper s) = upper (strip s).
Proof.
  unfold strip, strip_by. rewrite lstrip_upper, rstrip_upper. reflexivity.
Qed.

(** X11.  [detect_operation_type] ignores the white space around the
    statement: the kind of a statement padded with white space on both
    sides is the kind of the statement. *)
Theorem detect_operation_type_ignores_padding (before sql after : string) :
  forallb is_space (chars before) = true ->
  forallb is_space (chars after) = true ->
  detect_operation_type (before +:+ sql +:+ after)
  = detect_operation_type sql.
Proof.
  intros Hb Ha. unfold detect_operation_type.
  rewrite !chars_append. unfold strip.
  rewrite strip_by_padded by assumption. reflexivity.
Qed.

Lemma detect_operation_type_ignores_padding_witness :
  detect_operation_type "   drop table t;  " = "DROP"%string.
Proof.
  assert (Hb : forallb is_space (chars "   ") = true) by reflexivity.
  assert (Ha : forallb is_space (chars "  ") = true) by reflexivity.
  exact (eq_trans
           (detect_operation_type_ignores_padding "   " "drop table t;" "  " Hb Ha)
           eq_refl).
Defined.

(** X12.  [detect_operation_type] ignores the case of the letters: two
    statements with the same upper-case form have the same kind. *)
Theorem detect_operation_type_ignores_case (sql sql' : string) :
  upper (chars sql) = upper (chars sql') ->
  detect_operation_type sql = detect_operation_type sql'.
Proof.
  intros H. unfold detect_operation_type.
  rewrite <- !strip_upper, H. reflexivity.
Qed.

Lemma detect_operation_type_ignores_case_witness :
  upper (chars "Insert Into t Values (1)")
  = upper (chars "INSERT INTO T VALUES (1)") /\
  detect_operation_type "Insert Into t Values (1)" = "INSERT"%string.
Proof.
  assert (H : upper (chars "Insert Into t Values (1)")
              = upper (chars "INSERT INTO T VALUES (1)")) by reflexivity.
  split; [exact H|].
  exact (eq_trans
           (detect_operation_type_ignores_case "Insert Into t Values (1)"
              "INSERT INTO T VALUES (1)" H)
           eq_refl).
Defined.

(* ===================================================================== *)
(** * 20. Sanitizers only remove                                          *)
(* ===================================================================== *)

Lemma strip_open_fence_sublist (lang : string) (s : list ascii) :
  sublist (strip_open_fence lang s) s.
Proof.
  unfold strip_open_fence.
  destruct (match_prefix true (chars "```") s) as [after_ticks|] eqn:E1;
    [|reflexivity].
  destruct (match_prefix true (chars lang) (lstrip_by is_space after_ticks))
    as [after_lang|] eqn:E2; [|reflexivity].
  apply match_prefix_suffix in E1 as (m1 & -> & _).
  apply match_prefix_suffix in E2 as (m2 & E2 & _).
  apply sublist_inserts_l.
  etransitivity; [apply lstrip_by_sublist|].
  etransitivity; [|apply (lstrip_by_sublist is_space)].
  rewrite E2. apply sublist_inserts_l. reflexivity.
Qed.

Lemma strip_close_fence_sublist (s : list ascii) :
  sublist (strip_close_fence s) s.
Proof.
  induction s as [|c rest IH]; cbn [strip_close_fence]; [reflexivity|].
  destruct (match_prefix true (chars "```") (c :: rest)) as [tail|];
    [|apply sublist_skip, IH].
  destruct (forallb is_space tail);
    [apply sublist_nil_l | apply sublist_skip, IH].
Qed.

Lemma _preprocess_thinking_tags_sublist (content : list ascii) :
  sublist (_preprocess_thinking_tags content) content.
Proof.
  unfold _preprocess_thinking_tags.
  destruct (negb (list_truthy content)); [reflexivity|].
  repeat (etransitivity; [apply remove_between_sublist|]). reflexivity.
Qed.

Lemma find_keyword_unfold (s : list ascii) :
  find_keyword s
  = if starts_with_keyword s then Some s
    else match s with
         | [] => None
         | c :: rest => if Ascii.eqb c newline then None else find_keyword rest
         end.
Proof. destruct s; reflexivity. Qed.

Lemma find_keyword_suffix (s from_keyword : list ascii) :
  find_keyword s = Some from_keyword ->
  starts_with_keyword from_keyword = true /\
  exists before, s = before ++ from_keyword /\ ~ In newline before.
Proof.
  induction s as [|c rest IH]; rewrite find_keyword_unfold.
  - destruct (starts_with_keyword []) eqn:E; [|discriminate].
    intros H. injection H as <-. split; [exact E|].
    exists []. split; [reflexivity | apply in_nil].
  - destruct (starts_with_keyword (c :: rest)) eqn:E.
    + intros H. injection H as <-. split; [exact E|].
      exists []. split; [reflexivity | apply in_nil].
    + destruct (Ascii.eqb_spec c newline) as [|Hc]; [discriminate|].
      intros H. destruct (IH H) as (Hk & before & -> & Hn).
      split; [exact Hk|]. exists (c :: before). split; [reflexivity|].
      intros [Heq | Hin]; [apply Hc; exact Heq | exact (Hn Hin)].
Qed.

Lemma drop_before_keyword_sublist (s : list ascii) :
  sublist (drop_before_keyword s) s.
Proof.
  unfold drop_before_keyword.
  destruct (find_keyword s) as [t|] eqn:E; [|reflexivity].
  apply find_keyword_suffix in E as (_ & before & -> & _).
  apply sublist_inserts_l. reflexivity.
Qed.

Lemma before_semicolon_sublist (s : list ascii) :
  sublist (before_semicolon s) s.
Proof.
  induction s as [|c rest IH]; simpl; [reflexivity|].
  destruct (Ascii.eqb c ";"); [apply sublist_nil_l | apply sublist_skip, IH].
Qed.

Lemma semicolons_before_semicolon (s : list ascii) :
  semicolons (before_semicolon s) = O.
Proof.
  unfold semicolons. induction s as [|c rest IH]; simpl; [reflexivity|].
  destruct (Ascii.eqb c ";") eqn:E; [reflexivity|].
  simpl. rewrite E. exact IH.
Qed.

Lemma sql_text_sublist (s : list ascii) : sublist (sql_text s) s.
Proof.
  unfold sql_text.
  etransitivity; [apply strip_close_fence_sublist|].
  etransitivity; [apply strip_open_fence_sublist|].
  repeat (etransitivity; [apply remove_between_sublist|]). reflexivity.
Qed.

Lemma char_match_angle (b : ascii) :
  char_match true "<" b = Ascii.eqb "<" b.
Proof. destruct b as [[] [] [] [] [] [] [] []]; reflexivity. Qed.

Lemma char_match_bracket (b : ascii) :
  char_match true "[" b = Ascii.eqb "[" b.
Proof. destruct b as [[] [] [] [] [] [] [] []]; reflexivity. Qed.

(** Where the first character of the opening delimiter does not occur,
    nothing is removed. *)
Lemma remove_between_first_absent (opening closing : string)
    (o : ascii) (p : string) (s : list ascii) :
  opening = String o p ->
  (forall b, char_match true o b = Ascii.eqb o b) ->
  ~ In o s ->
  remove_between true opening closing s = s.
Proof.
  intros -> Ho. unfold remove_between.
  induction s as [|c rest IH]; intros Hs; [reflexivity|].
  rewrite remove_between_from_no_match.
  - rewrite IH; [reflexivity|]. intros Hin. apply Hs. right. exact Hin.
  - cbn [chars list_ascii_of_string match_prefix]. rewrite Ho.
    destruct (Ascii.eqb_spec o c) as [->|]; [|reflexivity].
    exfalso. apply Hs. left. reflexivity.
Qed.

Lemma _preprocess_thinking_tags_plain (content : list ascii) :
  ~ In "<"%char content -> ~ In "["%char content ->
  _preprocess_thinking_tags content = content.
Proof.
  intros Ha Hb. unfold _preprocess_thinking_tags.
  destruct (negb (list_truthy content)); [reflexivity|].
  rewrite (remove_between_first_absent "<think>" _ "<" "think>")
    by (try reflexivity; try apply char_match_angle; exact Ha).
  rewrite (remove_between_first_absent "<thinking>" _ "<" "thinking>")
    by (try reflexivity; try apply char_match_angle; exact Ha).
  rewrite (remove_between_first_absent "<thoughts>" _ "<" "thoughts>")
    by (try reflexivity; try apply char_match_angle; exact Ha).
  rewrite (remove_between_first_absent "[THINKING]" _ "[" "THINKING]")
    by (try reflexivity; try apply char_match_bracket; exact Hb).
  reflexivity.
Qed.

(** ** Thinking blocks *)

Lemma lower_ascii_idempotent (c : ascii) :
  lower_ascii (lower_ascii c) = lower_ascii c.
Proof. destruct c as [[] [] [] [] [] [] [] []]; reflexivity. Qed.

Lemma char_match_lower (a b : ascii) :
  char_match true a (lower_ascii b) = char_match true a b.
Proof. unfold char_match. rewrite lower_ascii_idempotent. reflexivity. Qed.

Lemma match_prefix_app (p o rest : list ascii) :
  match_prefix true p o = Some [] ->
  match_prefix true p (o ++ rest) = Some rest.
Proof.
  revert o. induction p as [|a p IH]; intros o H.
  - simpl in H. injection H as ->. reflexivity.
  - destruct o as [|b o]; [discriminate|]. cbn [match_prefix app] in *.
    destruct (char_match true a b); [|discriminate]. apply IH. exact H.
Qed.

Lemma is_tag_lower (tag : string) (o : list ascii) :
  is_tag tag o ->
  map lower_ascii o = map lower_ascii (chars tag).
Proof.
  unfold is_tag. generalize (chars tag). intros p. revert o.
  induction p as [|a p IH]; intros o H.
  - simpl in H. injection H as ->. reflexivity.
  - destruct o as [|b o]; [discriminate|]. cbn [match_prefix] in H.
    destruct (char_match true a b) eqn:E; [|discriminate].
    unfold char_match in E. apply Ascii.eqb_eq in E.
    simpl. rewrite (IH o H), E. reflexivity.
Qed.

Lemma is_tag_length (tag : string) (o : list ascii) :
  is_tag tag o -> length o = length (chars tag).
Proof.
  intros H. apply is_tag_lower in H.
  apply (f_equal (@length ascii)) in H. rewrite !length_map in H. exact H.
Qed.

(** Whether a literal matches depends on the lower-case form of the text
    only. *)
Lemma match_prefix_lower (p s : list ascii) :
  match_prefix true p s = None <->
  match_prefix true p (map lower_ascii s) = None.
Proof.
  revert s. induction p as [|a p IH]; intros s.
  - simpl. split; discriminate.
  - destruct s as [|b s]; [reflexivity|].
    cbn [map match_prefix]. rewrite char_match_lower.
    destruct (char_match true a b); [apply IH | reflexivity].
Qed.

(** A literal that differs from a tag does not match where the tag
    stands, in whatever case the tag is written. *)
Lemma other_tag_blocks (p : list ascii) (tag : string) (o rest : list ascii) :
  (forall r, match_prefix true p (map lower_ascii (chars tag) ++ r) = None) ->
  is_tag tag o ->
  match_prefix true p (o ++ rest) = None.
Proof.
  intros Hdiff Htag. apply match_prefix_lower.
  rewrite map_app, (is_tag_lower tag o Htag). apply Hdiff.
Qed.

Lemma inert_app (u v : list ascii) : inert u -> inert v -> inert (u ++ v).
Proof.
  intros [Hu1 Hu2] [Hv1 Hv2]. split; intros Hin;
    apply in_app_or in Hin as [Hin | Hin]; tauto.
Qed.

Lemma inert_tail (c : ascii) (u : list ascii) : inert (c :: u) -> inert u.
Proof. intros [H1 H2]. split; intros Hin; [apply H1 | apply H2]; right; exact Hin. Qed.

(** The opening character of a tag matches itself only. *)
Lemma opener_char_match (o0 b : ascii) :
  o0 = "<"%char \/ o0 = "["%char ->
  char_match true o0 b = Ascii.eqb o0 b.
Proof.
  intros [-> | ->]; [apply char_match_angle | apply char_match_bracket].
Qed.

Lemma inert_head (o0 c : ascii) (u : list ascii) :
  o0 = "<"%char \/ o0 = "["%char -> inert (c :: u) -> Ascii.eqb o0 c = false.
Proof.
  intros Ho [H1 H2]. destruct (Ascii.eqb_spec o0 c) as [<-|]; [|reflexivity].
  exfalso. destruct Ho as [-> | ->]; [apply H1 | apply H2]; left; reflexivity.
Qed.

(** An inert text is copied by the removal. *)
Lemma remove_between_inert (o0 : ascii) (opening closing : list ascii)
    (u s : list ascii) :
  o0 = "<"%char \/ o0 = "["%char ->
  inert u ->
  remove_between_from true (o0 :: opening) closing O (u ++ s)
  = u ++ remove_between_from true (o0 :: opening) closing O s.
Proof.
  intros Ho. induction u as [|c u IH]; intros Hu; [reflexivity|].
  cbn [app]. rewrite remove_between_from_no_match.
  - rewrite IH by exact (inert_tail c u Hu). reflexivity.
  - cbn [match_prefix]. rewrite (opener_char_match o0 c Ho).
    rewrite (inert_head o0 c u Ho Hu). reflexivity.
Qed.

Lemma remove_between_inert_all (o0 : ascii) (opening closing : list ascii)
    (u : list ascii) :
  o0 = "<"%char \/ o0 = "["%char ->
  inert u ->
  remove_between_from true (o0 :: opening) closing O u = u.
Proof.
  intros Ho Hu.
  rewrite <- (app_nil_r u) at 1.
  rewrite (remove_between_inert o0 opening closing u [] Ho Hu).
  apply app_nil_r.
Qed.

(** The end of a closing tag that follows an inert text. *)
Lemma find_end_inert (c0 : ascii) (closing : list ascii) (u t : list ascii) :
  c0 = "<"%char \/ c0 = "["%char ->
  inert u ->
  find_end true (c0 :: closing) (u ++ t)
  = option_map (fun n => (length u + n)%nat) (find_end true (c0 :: closing) t).
Proof.
  intros Hc. induction u as [|x u IH]; intros Hu.
  - simpl. destruct (find_end true (c0 :: closing) t); reflexivity.
  - cbn [app find_end]. cbn [match_prefix].
    rewrite (opener_char_match c0 x Hc), (inert_head c0 x u Hc Hu).
    rewrite IH by exact (inert_tail x u Hu).
    destruct (find_end true (c0 :: closing) t); reflexivity.
Qed.


(** A tag is its opening character followed by an inert text, in
    whatever case it is written. *)
Lemma is_tag_shape (tag : string) (o : list ascii) :
  tag_shape tag -> is_tag tag o ->
  exists o0 rest o',
    chars tag = o0 :: rest /\ (o0 = "<"%char \/ o0 = "["%char) /\
    o = o0 :: o' /\ inert o'.
Proof.
  intros (o0 & rest & Htag & Ho & Ha & Hb) H.
  pose proof (is_tag_lower tag o H) as Hl. rewrite Htag in Hl.
  unfold is_tag in H. rewrite Htag in H.
  destruct o as [|x o']; [discriminate|].
  cbn [match_prefix] in H. rewrite (opener_char_match o0 x Ho) in H.
  destruct (Ascii.eqb_spec o0 x) as [<-|]; [|discriminate].
  exists o0, rest, o'. split; [exact Htag|]. split; [exact Ho|].
  split; [reflexivity|].
  simpl in Hl. injection Hl as Hl.
  split; intros Hin; [apply Ha | apply Hb]; rewrite <- Hl;
    apply in_map_iff; eexists; (split; [|exact Hin]); reflexivity.
Qed.

(** The pass of another pattern than the one of the block changes
    nothing. *)
Lemma remove_between_other_tag (opening closing tag_open tag_close : string)
    (before o body c after : list ascii) :
  tag_shape opening -> tag_shape tag_open -> tag_shape tag_close ->
  (forall r, match_prefix true (chars opening)
               (map lower_ascii (chars tag_open) ++ r) = None) ->
  (forall r, match_prefix true (chars opening)
               (map lower_ascii (chars tag_close) ++ r) = None) ->
  inert before -> inert body -> inert after ->
  is_tag tag_open o -> is_tag tag_close c ->
  remove_between true opening closing (before ++ o ++ body ++ c ++ after)
  = before ++ o ++ body ++ c ++ after.
Proof.
  intros (o0 & orest & Hopen & Ho & _) Hso Hsc Hdo Hdc Hb Hbody Ha Htago Htagc.
  pose proof (fun rest => other_tag_blocks _ _ o rest (Hdo) Htago) as Hx.
  pose proof (fun rest => other_tag_blocks _ _ c rest (Hdc) Htagc) as Hy.
  destruct (is_tag_shape _ _ Hso Htago) as (x0 & _ & o' & _ & _ & -> & Ho').
  destruct (is_tag_shape _ _ Hsc Htagc) as (y0 & _ & c' & _ & _ & -> & Hc').
  unfold remove_between. rewrite Hopen in *.
  rewrite (remove_between_inert o0 orest (chars closing) before _ Ho Hb).
  f_equal.
  cbn [app]. rewrite remove_between_from_no_match.
  2:{ exact (Hx (body ++ y0 :: c' ++ after)). }
  f_equal.
  rewrite (remove_between_inert o0 orest (chars closing) o' _ Ho Ho'). f_equal.
  rewrite (remove_between_inert o0 orest (chars closing) body _ Ho Hbody).
  f_equal.
  rewrite remove_between_from_no_match by exact (Hy after).
  f_equal.
  rewrite (remove_between_inert o0 orest (chars closing) c' _ Ho Hc'). f_equal.
  apply (remove_between_inert_all o0 orest (chars closing) after Ho Ha).
Qed.

(** The pass of the pattern of the block removes the block. *)
Lemma remove_between_same_tag (opening closing : string)
    (before o body c after : list ascii) :
  tag_shape opening -> tag_shape closing ->
  inert before -> inert body -> inert after ->
  is_tag opening o -> is_tag closing c ->
  remove_between true opening closing (before ++ o ++ body ++ c ++ after)
  = before ++ after.
Proof.
  intros (o0 & orest & Hopen & Ho & _) (c0 & crest & Hclose & Hc & _)
         Hb Hbody Ha Htago Htagc.
  unfold remove_between. rewrite Hopen.
  rewrite (remove_between_inert o0 orest (chars closing) before _ Ho Hb).
  f_equal.
  pose proof (is_tag_length _ _ Htago) as Hlo.
  pose proof (is_tag_length _ _ Htagc) as Hlc.
  destruct o as [|x o']; [rewrite Hopen in Hlo; discriminate|].
  cbn [app]. rewrite remove_between_from_cons.
  change (x :: o' ++ body ++ c ++ after)
    with ((x :: o') ++ body ++ c ++ after).
  rewrite <- Hopen.
  rewrite (match_prefix_app (chars opening) (x :: o') _ Htago).
  rewrite Hclose.
  rewrite (find_end_inert c0 crest body (c ++ after) Hc Hbody).
  assert (Hend : find_end true (c0 :: crest) (c ++ after)
                 = Some (length (c0 :: crest))).
  { destruct c as [|y c']; [rewrite Hclose in Hlc; discriminate|].
    cbn [app find_end]. rewrite <- Hclose.
    change (y :: c' ++ after) with ((y :: c') ++ after).
    rewrite (match_prefix_app (chars closing) (y :: c') after Htagc).
    reflexivity. }
  rewrite Hend. cbn [option_map].
  replace (drop (length (chars opening) + (length body + length (c0 :: crest)) - 1)
             (o' ++ body ++ c ++ after))
    with after.
  - rewrite Hopen.
    apply (remove_between_inert_all o0 orest (c0 :: crest) after Ho Ha).
  - symmetry.
    replace (o' ++ body ++ c ++ after) with ((o' ++ body ++ c) ++ after)
      by (rewrite <- !app_assoc; reflexivity).
    apply drop_app_length'.
    rewrite <- Hlo, <- Hclose, <- Hlc, !length_app. simpl length. lia.
Qed.

Lemma remove_between_inert_tag (opening closing : string) (s : list ascii) :
  tag_shape opening -> inert s ->
  remove_between true opening closing s = s.
Proof.
  intros (o0 & orest & Hopen & Ho & _) Hs.
  unfold remove_between. rewrite Hopen.
  apply (remove_between_inert_all o0 orest (chars closing) s Ho Hs).
Qed.

Ltac tag_shape_tac :=
  eexists _, _; split; [reflexivity|];
  split; [(left; reflexivity) || (right; reflexivity)|];
  split; intros Hin; cbv in Hin;
  repeat (destruct Hin as [Hin|Hin]; [discriminate|]); exact Hin.

Lemma thinking_tags_shape (opening closing : string) :
  In (opening, closing) thinking_tags ->
  tag_shape opening /\ tag_shape closing.
Proof.
  intros Hin. cbn [thinking_tags In] in Hin.
  repeat (destruct Hin as [Hin | Hin];
          [injection Hin as <- <-; split; tag_shape_tac|]).
  destruct Hin.
Qed.

(** A thinking block written with one of the four tag pairs, in any
    case, in a text that holds no other [<] or opening square bracket,
    is removed and the text around it kept. *)
Lemma _preprocess_thinking_tags_removes_block (opening closing : string)
    (before o body c after : list ascii) :
  In (opening, closing) thinking_tags ->
  is_tag opening o -> is_tag closing c ->
  inert before -> inert body -> inert after ->
  _preprocess_thinking_tags (before ++ o ++ body ++ c ++ after)
  = before ++ after.
Proof.
  intros Hin Htago Htagc Hb Hbody Ha.
  pose proof (inert_app _ _ Hb Ha) as Hba.
  unfold _preprocess_thinking_tags.
  assert (Htruthy : list_truthy (before ++ o ++ body ++ c ++ after) = true).
  { pose proof (is_tag_length _ _ Htago) as Hlo.
    destruct before; [|reflexivity].
    destruct o; [|reflexivity].
    cbn [thinking_tags In] in Hin.
    repeat (destruct Hin as [Hin | Hin];
            [injection Hin as <- <-; discriminate|]).
    destruct Hin. }
  rewrite Htruthy. cbn [negb].
  cbn [thinking_tags In] in Hin.
  destruct Hin as [Hin | [Hin | [Hin | [Hin | []]]]];
    injection Hin as <- <-.
  - rewrite (remove_between_same_tag "<think>" "</think>")
      by (assumption || tag_shape_tac).
    rewrite (remove_between_inert_tag "<thinking>" "</thinking>")
      by (assumption || tag_shape_tac).
    rewrite (remove_between_inert_tag "<thoughts>" "</thoughts>")
      by (assumption || tag_shape_tac).
    rewrite (remove_between_inert_tag "[THINKING]" "[/THINKING]")
      by (assumption || tag_shape_tac).
    reflexivity.
  - rewrite (remove_between_other_tag "<think>" "</think>"
               "<thinking>" "</thinking>")
      by (assumption || tag_shape_tac || (intros r; reflexivity)).
    rewrite (remove_between_same_tag "<thinking>" "</thinking>")
      by (assumption || tag_shape_tac).
    rewrite (remove_between_inert_tag "<thoughts>" "</thoughts>")
      by (assumption || tag_shape_tac).
    rewrite (remove_between_inert_tag "[THINKING]" "[/THINKING]")
      by (assumption || tag_shape_tac).
    reflexivity.
  - rewrite (remove_between_other_tag "<think>" "</think>"
               "<thoughts>" "</thoughts>")
      by (assumption || tag_shape_tac || (intros r; reflexivity)).
    rewrite (remove_between_other_tag "<thinking>" "</thinking>"
               "<thoughts>" "</thoughts>")
      by (assumption || tag_shape_tac || (intros r; reflexivity)).
    rewrite (remove_between_same_tag "<thoughts>" "</thoughts>")
      by (assumption || tag_shape_tac).
    rewrite (remove_between_inert_tag "[THINKING]" "[/THINKING]")
      by (assumption || tag_shape_tac).
    reflexivity.
  - rewrite (remove_between_other_tag "<think>" "</think>"
               "[THINKING]" "[/THINKING]")
      by (assumption || tag_shape_tac || (intros r; reflexivity)).
    rewrite (remove_between_other_tag "<thinking>" "</thinking>"
               "[THINKING]" "[/THINKING]")
      by (assumption || tag_shape_tac || (intros r; reflexivity)).
    rewrite (remove_between_other_tag "<thoughts>" "</thoughts>"
               "[THINKING]" "[/THINKING]")
      by (assumption || tag_shape_tac || (intros r; reflexivity)).
    rewrite (remove_between_same_tag "[THINKING]" "[/THINKING]")
      by (assumption || tag_shape_tac).
    reflexivity.
Qed.

Lemma In_sublist {A} (x : A) (l k : list A) : sublist l k -> In x l -> In x k.
Proof.
  intros Hs Hin. apply list_elem_of_In. apply list_elem_of_In in Hin.
  exact (elem_of_sublist _ _ _ Hin Hs).
Qed.

Lemma _process_response_sublist (content : string) (result : list ascii) :
  _process_response (Some content) = Some result ->
  sublist result (chars content).
Proof.
  unfold _process_response.
  destruct (list_truthy (strip (chars content))); [|discriminate].
  intros H. injection H as <-.
  etransitivity; [apply _preprocess_thinking_tags_sublist|].
  apply strip_by_sublist.
Qed.

(** X13.  [validate_sql] only removes characters, apart from the one
    semicolon it may append: the returned text is the given text followed
    by a semicolon with some of the characters left out, in the same
    order. *)
Theorem validate_sql_only_removes (query : string) :
  sublist (chars (validate_sql query)) (chars query ++ chars ";") /\
  (length (chars (validate_sql query)) <= length (chars query) + 1)%nat.
Proof.
  unfold validate_sql. rewrite chars_text.
  pose proof (validate_chars_sublist (chars query)) as H.
  split; [exact H|].
  apply sublist_length in H. rewrite length_app in H. exact H.
Qed.

(** X14.  [_process_response] answers [None] for a content that is
    missing or blank; otherwise it returns the stripped content with
    nothing added or reordered, and a content holding neither [<] nor the
    opening square bracket comes back stripped and otherwise unchanged.
    Where the stripped content is a thinking block, written with one of
    the four tag pairs in any letter case, between two texts, and neither
    these texts nor the inside of the block hold [<] or the opening square
    bracket, the block is left out and the two texts are returned, joined.
    Each pattern is applied in one pass: a block that the removal of
    another block puts together stays, as in the last example. *)
Theorem _process_response_only_removes (content : option string) :
  match content with
  | None => _process_response content = None
  | Some c =>
      if list_truthy (strip (chars c))
      then exists result,
             _process_response content = Some result /\
             sublist result (strip (chars c)) /\
             sublist result (chars c) /\
             (~ In "<"%char (chars c) -> ~ In "["%char (chars c) ->
              result = strip (chars c))
      else _process_response content = None
  end /\
  (forall c opening closing before o body cl after,
     content = Some c ->
     strip (chars c) = before ++ o ++ body ++ cl ++ after ->
     In (opening, closing) thinking_tags ->
     is_tag opening o -> is_tag closing cl ->
     inert before -> inert body -> inert after ->
     _process_response content = Some (before ++ after)) /\
  _process_response (Some "<thi<think>x</think>nk>y</think>"%string)
  = Some (chars "<think>y</think>").
Proof.
  split; [|split; [|reflexivity]].
  - destruct content as [c|]; [|reflexivity].
    unfold _process_response.
    destruct (list_truthy (strip (chars c))); [|reflexivity].
    eexists. split; [reflexivity|].
    pose proof (_preprocess_thinking_tags_sublist (strip (chars c))) as H.
    split; [exact H|]. split.
    + etransitivity; [exact H | apply strip_by_sublist].
    + intros Ha Hb. apply _preprocess_thinking_tags_plain.
      * intros Hin. apply Ha.
        exact (In_sublist _ _ _ (strip_by_sublist is_space (chars c)) Hin).
      * intros Hin. apply Hb.
        exact (In_sublist _ _ _ (strip_by_sublist is_space (chars c)) Hin).
  - intros c opening closing before o body cl after -> Hs Hin Ho Hcl Hb Hbody Ha.
    unfold _process_response. rewrite Hs.
    assert (Htruthy : list_truthy (before ++ o ++ body ++ cl ++ after) = true).
    { pose proof (is_tag_length _ _ Ho) as Hlo.
      destruct before; [|reflexivity].
      destruct o; [|reflexivity].
      cbn [thinking_tags In] in Hin.
      repeat (destruct Hin as [Hin | Hin];
              [injection Hin as <- <-; discriminate|]).
      destruct Hin. }
    rewrite Htruthy. f_equal.
    exact (_preprocess_thinking_tags_removes_block opening closing
             before o body cl after Hin Ho Hcl Hb Hbody Ha).
Qed.

Lemma _process_response_only_removes_witness :
  _process_response (Some " <Think>step 1</THINK>SELECT 2 "%string)
  = Some (chars "SELECT 2").
Proof.
  refine (proj1 (proj2 (_process_response_only_removes
                          (Some " <Think>step 1</THINK>SELECT 2 "%string)))
            " <Think>step 1</THINK>SELECT 2 "%string
            "<think>"%string "</think>"%string
            [] (chars "<Think>") (chars "step 1") (chars "</THINK>")
            (chars "SELECT 2") eq_refl eq_refl _ eq_refl eq_refl _ _ _).
  - left. reflexivity.
  - split; intros [].
  - split; intros Hin; cbv in Hin;
      repeat (destruct Hin as [Hin|Hin]; [discriminate|]); exact Hin.
  - split; intros Hin; cbv in Hin;
      repeat (destruct Hin as [Hin|Hin]; [discriminate|]); exact Hin.
Defined.

(** X15.  Whatever [natural_to_sql] returns holds exactly one semicolon,
    its last character, and what stands before it is taken from the
    content of the reply, nothing added or reordered: a reply with several
    statements is cut after the first one. *)
Theorem natural_to_sql_single_statement (reply : completion) (sql : string) :
  natural_to_sql reply = Some sql ->
  exists content body,
    reply = ApiReply (Some content) /\
    chars sql = body ++ chars ";" /\
    semicolons body = O /\
    semicolons (chars sql) = 1%nat /\
    sublist body (chars content).
Proof.
  unfold natural_to_sql. intros H.
  destruct reply as [|[c|]]; try discriminate.
  destruct (_process_response (Some c)) as [result|] eqn:Hr; [|discriminate].
  pose proof (_process_response_sublist c result Hr) as Hsub.
  unfold clean_sql in H.
  destruct (negb (list_truthy result)); [discriminate|].
  injection H as <-. rewrite chars_text.
  exists c, (before_semicolon (drop_before_keyword (sql_text result))).
  split; [reflexivity|]. split; [reflexivity|].
  split; [apply semicolons_before_semicolon|]. split.
  - unfold first_statement, semicolons. rewrite List.filter_app, length_app.
    fold (semicolons (before_semicolon (drop_before_keyword (sql_text result)))).
    rewrite semicolons_before_semicolon. reflexivity.
  - etransitivity; [apply before_semicolon_sublist|].
    etransitivity; [apply drop_before_keyword_sublist|].
    etransitivity; [apply sql_text_sublist | exact Hsub].
Qed.

Lemma natural_to_sql_single_statement_witness :
  natural_to_sql
    (ApiReply (Some "<think>two tables</think>```sql SELECT x FROM t; DROP TABLE t; ```"))
  = Some "SELECT x FROM t;"%string /\
  semicolons (chars "SELECT x FROM t;") = 1%nat.
Proof.
  assert (Hrun :
    natural_to_sql
      (ApiReply (Some "<think>two tables</think>```sql SELECT x FROM t; DROP TABLE t; ```"))
    = Some "SELECT x FROM t;"%string) by (vm_compute; reflexivity).
  split; [exact Hrun|].
  destruct (natural_to_sql_single_statement _ _ Hrun)
    as (content & body & _ & _ & _ & Hone & _).
  exact Hone.
Defined.

(* ===================================================================== *)
(** * 21. What the translations return                                    *)
(* ===================================================================== *)

Lemma keyword_chars_no_semicolon :
  Forall (fun keyword =>
            forallb (fun a => negb (char_match true a ";")) (chars keyword)
            = true) sql_keywords.
Proof. repeat constructor. Qed.

Lemma match_prefix_before_semicolon (p s rest tail : list ascii) :
  forallb (fun a => negb (char_match true a ";")) p = true ->
  match_prefix true p s = Some rest ->
  exists rest', match_prefix true p (before_semicolon s ++ tail) = Some rest'.
Proof.
  revert s. induction p as [|a p IH]; intros s Hp H.
  - simpl. eauto.
  - cbn [forallb] in Hp. apply andb_true_iff in Hp as [Ha Hp].
    destruct s as [|b s]; [discriminate|]. cbn [match_prefix] in H.
    destruct (char_match true a b) eqn:Hab; [|discriminate].
    cbn [before_semicolon]. destruct (Ascii.eqb_spec b ";") as [->|_].
    + rewrite Hab in Ha. discriminate.
    + cbn [app match_prefix]. rewrite Hab. exact (IH s Hp H).
Qed.

Lemma starts_with_keyword_before_semicolon (s tail : list ascii) :
  starts_with_keyword s = true ->
  starts_with_keyword (before_semicolon s ++ tail) = true.
Proof.
  unfold starts_with_keyword. intros H.
  apply existsb_exists in H as (keyword & Hin & Hm).
  apply existsb_exists. exists keyword. split; [exact Hin|].
  destruct (match_prefix true (chars keyword) s) as [rest|] eqn:E;
    [|discriminate].
  pose proof keyword_chars_no_semicolon as Hall.
  rewrite List.Forall_forall in Hall.
  destruct (match_prefix_before_semicolon _ _ _ tail (Hall keyword Hin) E)
    as [rest' ->].
  reflexivity.
Qed.

Lemma find_keyword_found (before from_keyword : list ascii) :
  ~ In newline before ->
  starts_with_keyword from_keyword = true ->
  exists found,
    find_keyword (before ++ from_keyword) = Some found /\
    starts_with_keyword found = true.
Proof.
  intros Hn Hk. induction before as [|c before IH].
  - simpl. rewrite find_keyword_unfold, Hk. eauto.
  - rewrite find_keyword_unfold.
    destruct (starts_with_keyword ((c :: before) ++ from_keyword)) eqn:E;
      [eauto|].
    cbn [app]. destruct (Ascii.eqb_spec c newline) as [->|_].
    + exfalso. apply Hn. left. reflexivity.
    + apply IH. intros Hin. apply Hn. right. exact Hin.
Qed.

Lemma dict_set_keys (key : string) (v : pyval) (entries : list (string * pyval)) :
  dict_has key entries = true ->
  map fst (dict_set key v entries) = map fst entries.
Proof.
  unfold dict_has. induction entries as [|[k w] rest IH]; simpl.
  - discriminate.
  - destruct (String.eqb k key); [reflexivity|].
    intros H. simpl. rewrite IH by exact H. reflexivity.
Qed.

Lemma dict_get_set_other (key key' : string) (v : pyval)
    (entries : list (string * pyval)) :
  key' <> key ->
  dict_get key' (dict_set key v entries) = dict_get key' entries.
Proof.
  intros Hne. induction entries as [|[k w] rest IH]; simpl.
  - destruct (String.eqb_spec key key'); [congruence | reflexivity].
  - destruct (String.eqb_spec k key) as [->|Hk]; simpl.
    + destruct (String.eqb_spec key key'); [congruence | reflexivity].
    + rewrite IH. reflexivity.
Qed.

Lemma ensure_semicolon_ends (q : list ascii) :
  endswith (chars ";") (rstrip (ensure_semicolon q)) = true.
Proof.
  unfold ensure_semicolon.
  destruct (endswith (chars ";") (rstrip q)) eqn:E; simpl; [exact E|].
  unfold rstrip at 1. rewrite rstrip_by_snoc by reflexivity.
  apply endswith_snoc.
Qed.

Lemma rstrip_by_first (f : ascii -> bool) (c : ascii) (rest : list ascii) :
  rstrip_by f (c :: rest) = [] \/
  exists kept, rstrip_by f (c :: rest) = c :: kept.
Proof.
  simpl. destruct (rstrip_by f rest) as [|k kept].
  - destruct (f c); [left; reflexivity | right; eauto].
  - right. eauto.
Qed.

(** The statement stored by [natural_to_modify_sql] is not empty and does
    not start with a quote. *)
Lemma cleaned_statement_head (sql : list ascii) :
  exists c rest,
    ensure_semicolon (strip_by is_quote sql) = c :: rest /\
    is_quote c = false.
Proof.
  unfold ensure_semicolon.
  destruct (strip_by_head is_quote sql) as [-> | (c & rest & -> & Hc)].
  - simpl. exists ";"%char, []. split; reflexivity.
  - destruct (negb (endswith (chars ";") (rstrip (c :: rest))));
      [|eauto].
    unfold rstrip.
    destruct (rstrip_by_first is_space c rest) as [-> | [kept ->]].
    + exists ";"%char, []. split; reflexivity.
    + exists c, (kept ++ chars ";"). split; [reflexivity | exact Hc].
Qed.

(** X16.  When a keyword of [clean_sql] ([SELECT], [INSERT], [UPDATE],
    [DELETE], [CREATE], [ALTER], [DROP], [SHOW], [USE], in any case)
    occurs on the first line of the text left by the removal of the
    thinking blocks and of the fences, the statement returned by
    [clean_sql] starts with a keyword: the words before the first one are
    dropped. *)
Theorem clean_sql_starts_with_keyword (sql before from_keyword : list ascii) :
  sql <> [] ->
  sql_text sql = before ++ from_keyword ->
  ~ In newline before ->
  starts_with_keyword from_keyword = true ->
  exists cleaned,
    clean_sql sql = Some cleaned /\
    starts_with_keyword cleaned = true.
Proof.
  intros Hne Htext Hline Hk. unfold clean_sql.
  destruct sql as [|c sql]; [contradiction|]. cbn [list_truthy negb].
  eexists. split; [reflexivity|].
  unfold first_statement, drop_before_keyword. rewrite Htext.
  destruct (find_keyword_found before from_keyword Hline Hk)
    as (found & -> & Hfound).
  apply starts_with_keyword_before_semicolon. exact Hfound.
Qed.

Lemma clean_sql_starts_with_keyword_witness :
  exists cleaned,
    clean_sql (chars "Here is the query: select x from t; it lists t")
    = Some cleaned /\
    starts_with_keyword cleaned = true.
Proof.
  assert (Hne : chars "Here is the query: select x from t; it lists t" <> [])
    by discriminate.
  assert (Htext :
    sql_text (chars "Here is the query: select x from t; it lists t")
    = chars "Here is the query: " ++ chars "select x from t; it lists t")
    by (vm_compute; reflexivity).
  assert (Hline : ~ In newline (chars "Here is the query: ")).
  { intros Hin. vm_compute in Hin.
    repeat (destruct Hin as [Hin|Hin]; [discriminate Hin|]). exact Hin. }
  assert (Hk : starts_with_keyword (chars "select x from t; it lists t") = true)
    by (vm_compute; reflexivity).
  exact (clean_sql_starts_with_keyword _ _ _ Hne Htext Hline Hk).
Defined.

(** X17.  [natural_to_sql] returns [None] only when the request fails,
    the content is missing, or nothing is left of the content once
    stripped and without its thinking blocks.  Every other reply is
    returned as a statement, whether or not it holds SQL. *)
Theorem natural_to_sql_none (reply : completion) :
  natural_to_sql reply = None <->
  match reply with
  | ApiError => True
  | ApiReply None => True
  | ApiReply (Some content) =>
      _preprocess_thinking_tags (strip (chars content)) = []
  end.
Proof.
  unfold natural_to_sql, _process_response, clean_sql.
  destruct reply as [|[c|]]; [tauto| |tauto].
  destruct (strip (chars c)) as [|a rest] eqn:E.
  - simpl. tauto.
  - cbn [list_truthy].
    destruct (_preprocess_thinking_tags (a :: rest)) as [|b kept];
      cbn [list_truthy negb]; split; intros H; try reflexivity; discriminate.
Qed.

(** X18.  A descriptor returned by [natural_to_modify_sql] is the parsed
    JSON object with its [sql] field cleaned and nothing else changed: the
    keys and their order are those of the document, every other field has
    its value, and the statement, taken from the one of the document with
    the surrounding quotes removed, starts with no quote and ends, white
    space apart, with a semicolon. *)
Theorem natural_to_modify_sql_cleans_statement
    (json : json_module) (reply : completion) (v : pyval) :
  natural_to_modify_sql json reply = Some v ->
  exists response content entries sql entries',
    reply = ApiReply response /\
    _process_response response = Some content /\
    json_loads json (mutation_document content) = Some (PDict entries) /\
    dict_get "sql" entries = Some (PStr sql) /\
    v = PDict entries' /\
    map fst entries' = map fst entries /\
    (forall key, key <> "sql"%string ->
                 dict_get key entries' = dict_get key entries) /\
    dict_get "sql" entries'
    = Some (PStr (text (ensure_semicolon (strip_by is_quote (chars sql))))) /\
    endswith (chars ";")
      (rstrip (ensure_semicolon (strip_by is_quote (chars sql)))) = true /\
    (exists c rest,
       ensure_semicolon (strip_by is_quote (chars sql)) = c :: rest /\
       is_quote c = false) /\
    sublist (ensure_semicolon (strip_by is_quote (chars sql)))
            (chars sql ++ chars ";").
Proof.
  unfold natural_to_modify_sql. intros H.
  destruct reply as [|response]; [discriminate|].
  destruct (_process_response response) as [content|] eqn:Hcontent;
    [|discriminate].
  destruct (negb (list_truthy content)); [discriminate|].
  destruct (json_loads json (mutation_document content)) as [result|] eqn:Hjson;
    [|discriminate].
  destruct (check_required required_fields result) as [[|]|] eqn:Hreq;
    try discriminate.
  apply check_required_fields in Hreq. destruct Hreq as [_ Hsql].
  unfold clean_sql_field in H. rewrite Hsql in H.
  destruct result as [| | | str | items | entries]; try discriminate.
  unfold py_in in Hsql. injection Hsql as Hsql.
  destruct (dict_get "sql" entries) as [[| | | sql | |]|] eqn:Hget;
    try discriminate.
  injection H as <-.
  exists response, content, entries, sql. eexists.
  split; [reflexivity|]. split; [exact Hcontent|]. split; [exact Hjson|].
  split; [exact Hget|]. split; [reflexivity|].
  split; [apply dict_set_keys; exact Hsql|].
  split; [intros key Hkey; apply dict_get_set_other; exact Hkey|].
  split; [apply dict_get_set|].
  split; [apply ensure_semicolon_ends|].
  split; [apply cleaned_statement_head|].
  etransitivity; [apply ensure_semicolon_sublist|].
  apply sublist_app; [apply strip_by_sublist | reflexivity].
Qed.

Lemma natural_to_modify_sql_cleans_statement_witness :
  natural_to_modify_sql MiniJson.impl (ApiReply (Some reply_complete))
  = Some (PDict [ ("operation_type"%string, PStr "INSERT");
                  ("sql"%string, PStr "INSERT INTO t VALUES (1);");
                  ("affected_table"%string, PStr "t");
                  ("rollback_sql"%string, PStr "DELETE FROM t WHERE x = 1;");
                  ("description"%string, PStr "adds a row") ]) /\
  exists entries' : list (string * pyval),
    map fst entries'
    = ["operation_type"%string; "sql"%string; "affected_table"%string;
       "rollback_sql"%string; "description"%string].
Proof.
  assert (Hrun :
    natural_to_modify_sql MiniJson.impl (ApiReply (Some reply_complete))
    = Some (PDict [ ("operation_type"%string, PStr "INSERT");
                    ("sql"%string, PStr "INSERT INTO t VALUES (1);");
                    ("affected_table"%string, PStr "t");
                    ("rollback_sql"%string, PStr "DELETE FROM t WHERE x = 1;");
                    ("description"%string, PStr "adds a row") ]))
    by (vm_compute; reflexivity).
  split; [exact Hrun|].
  destruct (natural_to_modify_sql_cleans_statement _ _ _ Hrun)
    as (response & content & entries & sql & entries' & _ & _ & _ & _
        & Hv & _).
  injection Hv as Hv. exists entries'. rewrite <- Hv. reflexivity.
Defined.

(* ===================================================================== *)
(** * 22. Rows on their way to the prompt and to the screen               *)
(* ===================================================================== *)

(** The inner loop of the sample rows, started at column [i] with the
    dictionary [row_data]. *)
Lemma sample_row_data_from (column_names : list string) (row : list cell) :
  NoDup column_names ->
  forall (i : nat) (row_data : gmap string cell),
    (i + length row <= length column_names)%nat ->
    exists result,
      sample_row_data column_names i row row_data = Some result /\
      (forall k name value,
         column_names !! (i + k)%nat = Some name ->
         row !! k = Some value ->
         result !! name = Some (render_sample_value value)) /\
      (forall name,
         (forall k, (k < length row)%nat ->
                    column_names !! (i + k)%nat <> Some name) ->
         result !! name = row_data !! name).
Proof.
  intros Hnd. induction row as [|value rest IH]; intros i row_data Hlen.
  - exists row_data. split; [reflexivity|]. split; [|reflexivity].
    intros k name value _ Hk. rewrite lookup_nil in Hk. discriminate.
  - cbn [sample_row_data]. simpl in Hlen.
    destruct (lookup_lt_is_Some_2 column_names i) as [column Hcolumn]; [lia|].
    rewrite Hcolumn.
    destruct (IH (S i) (<[column := render_sample_value value]> row_data))
      as (result & Hrun & Hfilled & Hkept); [lia|].
    exists result. split; [exact Hrun|]. split.
    + intros k name v Hname Hv. destruct k as [|k].
      * simpl in Hv. injection Hv as <-.
        rewrite Nat.add_0_r, Hcolumn in Hname. injection Hname as <-.
        rewrite Hkept; [apply lookup_insert_eq|].
        intros k _ Hk.
        pose proof (NoDup_lookup _ _ _ _ Hnd Hcolumn Hk). lia.
      * apply (Hfilled k); [|exact Hv].
        replace (S i + k)%nat with (i + S k)%nat by lia. exact Hname.
    + intros name Hfree. rewrite Hkept.
      * apply lookup_insert_ne. intros ->.
        apply (Hfree O); [simpl; lia|]. rewrite Nat.add_0_r. exact Hcolumn.
      * intros k Hk. replace (S i + k)%nat with (i + S k)%nat by lia.
        apply Hfree. simpl. lia.
Qed.

Lemma sample_row_data_short (column_names : list string) (row : list cell) :
  forall (i : nat) (row_data : gmap string cell),
    (i <= length column_names)%nat ->
    (length column_names < i + length row)%nat ->
    sample_row_data column_names i row row_data = None.
Proof.
  induction row as [|value rest IH]; intros i row_data Hi Hlen.
  - simpl in Hlen. lia.
  - cbn [sample_row_data].
    destruct (column_names !! i) as [column|] eqn:E; [|reflexivity].
    apply lookup_lt_Some in E.
    apply IH; [lia|]. simpl in Hlen. lia.
Qed.

Lemma cleaned_from_refl (row : list frame_value) : cleaned_from row row.
Proof. split; [reflexivity|]. intros j c H. left. exact H. Qed.

Lemma cleaned_from_alter (k : nat) (row row' : list frame_value) :
  cleaned_from row row' -> cleaned_from row (alter display_value k row').
Proof.
  intros [Hlen Hcells]. split; [rewrite length_alter; exact Hlen|].
  intros j c Hc. destruct (decide (k = j)) as [->|Hne].
  - rewrite list_lookup_alter_eq.
    destruct (Hcells j c Hc) as [-> | [Hb ->]]; simpl.
    + destruct c as [[]| |]; simpl; auto.
    + right. split; [exact Hb|]. destruct c as [[]| |]; reflexivity.
  - rewrite list_lookup_alter_ne by exact Hne. exact (Hcells j c Hc).
Qed.

Lemma preprocess_loop_cleaned_from (columns todo : list string) :
  forall rows rows',
    Forall2 cleaned_from rows rows' ->
    Forall2 cleaned_from rows (preprocess_loop todo columns rows').
Proof.
  induction todo as [|col rest IH]; intros rows rows' H; simpl.
  - exact H.
  - destruct (positions col columns 0) as [|k [|]]; try exact H.
    apply IH. apply Forall2_fmap_r.
    eapply Forall2_impl; [exact H|].
    intros row row'. apply cleaned_from_alter.
Qed.

(** X19.  The conversion of a sample row in [get_schema_info]: with
    distinct column names and a row no longer than the list of names, the
    dictionary of the row gives, under the name of each column, the
    rendering of the value of that column, and holds no other key; a row
    longer than the list of names raises (the [IndexError] that ends the
    loop over the sample rows). *)
Theorem sample_row_data_by_column (column_names : list string) (row : list cell) :
  NoDup column_names ->
  ((length row <= length column_names)%nat ->
   exists row_data,
     sample_row_data column_names O row ∅ = Some row_data /\
     (forall i name value,
        column_names !! i = Some name -> row !! i = Some value ->
        row_data !! name = Some (render_sample_value value)) /\
     (forall name,
        name ∉ take (length row) column_names -> row_data !! name = None)) /\
  ((length column_names < length row)%nat ->
   sample_row_data column_names O row ∅ = None).
Proof.
  intros Hnd. split.
  - intros Hlen.
    destruct (sample_row_data_from column_names row Hnd O ∅)
      as (result & Hrun & Hfilled & Hkept); [simpl; lia|].
    exists result. split; [exact Hrun|]. split.
    + intros i. exact (Hfilled i).
    + intros name Hname. rewrite Hkept; [apply lookup_empty|].
      intros k Hk Hcol. apply Hname. apply list_elem_of_lookup. exists k.
      rewrite lookup_take_lt by exact Hk. exact Hcol.
  - intros Hlen. apply sample_row_data_short; simpl; lia.
Qed.

Lemma sample_row_data_by_column_witness :
  NoDup ["id"%string; "photo"%string] /\
  sample_row_data ["id"%string; "photo"%string] O
    [CInt 7; CBytes [Byte.x00]; CNone] ∅ = None.
Proof.
  assert (Hnd : NoDup ["id"%string; "photo"%string])
    by (apply (bool_decide_unpack _); vm_compute; exact I).
  split; [exact Hnd|].
  apply (proj2 (sample_row_data_by_column ["id"%string; "photo"%string]
                  [CInt 7; CBytes [Byte.x00]; CNone] Hnd)).
  simpl. lia.
Defined.

(** X20.  The clean-up of the data frame in [execute_sql_query] changes
    nothing but binary cells: the column names, the number of rows and the
    length of each row are kept, and every cell is left as it is or, when
    it is binary, replaced by its placeholder. *)
Theorem preprocess_results_keeps_other_cells (results : dataframe) :
  df_columns (preprocess_results results) = df_columns results /\
  length (df_rows (preprocess_results results)) = length (df_rows results) /\
  forall i row,
    df_rows results !! i = Some row ->
    exists row',
      df_rows (preprocess_results results) !! i = Some row' /\
      length row' = length row /\
      forall j c,
        row !! j = Some c ->
        row' !! j = Some c \/
        (holds_bytes c = true /\ row' !! j = Some (display_value c)).
Proof.
  assert (H : Forall2 cleaned_from (df_rows results)
                (df_rows (preprocess_results results))).
  { unfold preprocess_results. simpl. apply preprocess_loop_cleaned_from.
    apply Forall2_same_length_lookup. split; [reflexivity|].
    intros i x y Hx Hy. rewrite Hx in Hy. injection Hy as <-.
    apply cleaned_from_refl. }
  split; [reflexivity|].
  split; [symmetry; exact (Forall2_length _ _ _ H)|].
  intros i row Hrow.
  destruct (Forall2_lookup_l _ _ _ _ _ H Hrow) as (row' & Hrow' & Hlen & Hcells).
  exists row'. split; [exact Hrow'|]. split; [exact Hlen | exact Hcells].
Qed.

(* ===================================================================== *)
(** * 23. The history dialog and the settings                             *)
(* ===================================================================== *)



Lemma value_insert (settings : gmap string string) (key v default_value : string) :
  value (<[key := v]> settings) key default_value = v.
Proof. unfold value. rewrite lookup_insert_eq. reflexivity. Qed.

Lemma value_insert_other (settings : gmap string string)
    (key key' v default_value : string) :
  key <> key' ->
  value (<[key := v]> settings) key' default_value
  = value settings key' default_value.
Proof.
  intros H. unfold value. rewrite lookup_insert_ne by exact H. reflexivity.
Qed.

(** X22.  The model name and the base address are stored per provider:
    what [set_model] and [set_api_base_url] store is what [get_model] and
    [get_api_base_url] return while the provider is the same, the provider
    itself is not changed by them, and after a switch between [ollama] and
    any other provider the getters return what they returned for that
    provider before the setters were called. *)
Theorem provider_settings_are_separate
    (settings : gmap string string) (model api_base_url api_type : string) :
  let stored := set_api_base_url api_base_url (set_model model settings) in
  get_model stored = model /\
  get_api_base_url stored = api_base_url /\
  get_api_type stored = get_api_type settings /\
  get_api_key stored = get_api_key settings /\
  (String.eqb api_type "ollama"
   <> String.eqb (get_api_type settings) "ollama" ->
   get_model (set_api_type api_type stored)
   = get_model (set_api_type api_type settings) /\
   get_api_base_url (set_api_type api_type stored)
   = get_api_base_url (set_api_type api_type settings)).
Proof.
  intros stored. unfold stored, set_api_base_url, set_model, get_model,
    get_api_base_url, get_api_key, set_api_type, get_api_type.
  destruct (String.eqb (value settings "api_type" "openai") "ollama") eqn:E;
    repeat first [ rewrite value_insert
                 | rewrite value_insert_other by discriminate
                 | rewrite E ];
    (do 4 (split; [reflexivity|]));
    intros Hswitch;
    destruct (String.eqb api_type "ollama"); try congruence;
    repeat first [ rewrite value_insert
                 | rewrite value_insert_other by discriminate ];
    split; reflexivity.
Qed.

(** X23.  After [save_db_connection] the four getters of the connection
    return the four values given, and the provider, the key, the model and
    the base address are those of before. *)
Theorem save_db_connection_round_trip
    (settings : gmap string string) (host user password db_name : string) :
  let stored := save_db_connection host user password db_name settings in
  get_db_host stored = host /\
  get_db_user stored = user /\
  get_db_password stored = password /\
  get_db_name stored = db_name /\
  get_api_type stored = get_api_type settings /\
  get_api_key stored = get_api_key settings /\
  get_model stored = get_model settings /\
  get_api_base_url stored = get_api_base_url settings.
Proof.
  intros stored. unfold stored, save_db_connection, set_db_name,
    set_db_password, set_db_user, set_db_host, get_db_host, get_db_user,
    get_db_password, get_db_name, get_model, get_api_base_url, get_api_key,
    get_api_type.
  repeat split;
    repeat first [ rewrite value_insert
                 | rewrite value_insert_other by discriminate ];
    reflexivity.
Qed.

(* ===================================================================== *)
(** * 24. Further edge cases                                              *)
(* ===================================================================== *)

Lemma get_current_operation_on_entry (self : OperationHistory) :
  0 <= current_index self <= len (history self) - 1 ->
  exists operation,
    history self !! Z.to_nat (current_index self) = Some operation /\
    get_current_operation self = operation.
Proof.
  intros H.
  destruct (py_index_some (history self) (current_index self))
    as (op & Hop & Hl); [lia|].
  exists op. split; [exact Hl|]. unfold get_current_operation.
  destruct (Z.ltb_spec (current_index self) 0); [lia|].
  destruct (Z.geb_spec (current_index self) (len (history self))); [lia|].
  simpl. rewrite Hop. reflexivity.
Qed.

(** X24.  In every history produced from the empty one by additions,
    undo, redo, clearing and loads of files that hold a JSON array, undo
    returns the record that [get_current_operation] returned before the
    call, redo returns the record that [get_current_operation] returns
    after it, and when there is nothing to undo [get_current_operation]
    returns [None]. *)
Theorem navigation_returns_current_operation
    (capacity : Z) (h : OperationHistory) :
  reachable capacity h ->
  (can_undo h = true ->
   snd (get_previous_operation h) = inr (get_current_operation h)) /\
  (can_redo h = true ->
   snd (get_next_operation h)
   = inr (get_current_operation (fst (get_next_operation h)))) /\
  (can_undo h = false -> get_current_operation h = PNone).
Proof.
  intros Hr. pose proof (reachable_cursor_range capacity h Hr) as Hc.
  split; [|split].
  - intros Hu. unfold can_undo in Hu.
    assert (Hon : 0 <= current_index h <= len (history h) - 1) by lia.
    destruct (get_previous_operation_step h Hon) as (op & Hop & ->).
    destruct (get_current_operation_on_entry h Hon) as (op' & Hop' & ->).
    simpl. congruence.
  - intros Hd. unfold can_redo in Hd.
    destruct (get_next_operation_step h) as (op & Hop & ->); [lia|].
    destruct (get_current_operation_on_entry
                (set_index h (current_index h + 1)))
      as (op' & Hop' & Hcur); [simpl; lia|].
    simpl in *. rewrite Hcur. congruence.
  - intros Hu. unfold can_undo in Hu. unfold get_current_operation.
    destruct (Z.ltb_spec (current_index h) 0); [reflexivity | lia].
Qed.

Lemma navigation_returns_current_operation_witness :
  snd (get_previous_operation (add_B (add_A init_default)))
  = inr (get_current_operation (add_B (add_A init_default))) /\
  get_current_operation (add_B (add_A init_default)) = op_B.
Proof.
  assert (Hr : reachable 100 (add_B (add_A init_default))).
  { unfold add_B, add_A, add_operation. simpl.
    apply reachable_add, reachable_add, reachable_init. }
  split; [|vm_compute; reflexivity].
  exact (proj1 (navigation_returns_current_operation 100
                  (add_B (add_A init_default)) Hr) eq_refl).
Defined.

(** X25.  When the file holds a JSON document that is not an array,
    [load_from_file] still assigns it to [history], which stops being a
    list.  For a string or an object the call returns [True], with the
    cursor at the length minus one, or at [-1] when the value is empty.
    For a value without a length, [len] raises inside the [try] block and
    the call returns [False] with the attribute already replaced: the
    cursor is then [-1] for [null], [false] and [0], where [len] is first
    called in the message, after the cursor was set, and is left as it
    was for [true] and a number other than zero, where [len] is called in
    the assignment of the cursor. *)
Theorem load_from_file_non_array_document
    (json : json_module) (filename text : string) (v : pyval)
    (self : OperationHistory) (fs : gmap string file_node) :
  fs !! filename = Some (TextFile text) ->
  json_loads json text = Some v ->
  (forall items, v <> PList items) ->
  exists ok index,
    load_from_file json filename self fs = LoadedNonList v ok index /\
    (ok = true <-> exists n, py_len v = Some n) /\
    (forall n, py_len v = Some n ->
               index = if py_truthy v then n - 1 else -1) /\
    (py_len v = None ->
     index = if py_truthy v then current_index self else -1) /\
    (v = PNone \/ v = PBool false \/ v = PInt 0 -> ok = false /\ index = -1).
Proof.
  intros Hfile Hjson Hnot. unfold load_from_file. rewrite Hfile, Hjson.
  destruct v as [| b | z | s | items | entries];
    try (exfalso; exact (Hnot items eq_refl));
    destruct (py_truthy _) eqn:Ht; cbn [py_len];
    eexists _, _; (split; [reflexivity|]);
    (split; [split; [intros H; try discriminate H; eauto
                    | intros [n H]; try discriminate H; reflexivity]|]);
    (split; [intros n H; try discriminate H; injection H as <-; reflexivity|]);
    (split; [intros H; try discriminate H; reflexivity|]);
    intros [H | [H | H]]; try discriminate H; try (split; reflexivity);
    inversion H; subst; discriminate Ht.
Qed.

Lemma load_from_file_non_array_document_witness :
  load_from_file MiniJson.impl "operation_history.json"
    (add_A init_default)
    {[ "operation_history.json"%string := TextFile "null" ]}
  = LoadedNonList PNone false (-1).
Proof.
  assert (Hfile :
    ({[ "operation_history.json"%string := TextFile "null" ]}
       : gmap string file_node) !! "operation_history.json"%string
    = Some (TextFile "null")) by apply lookup_singleton_eq.
  assert (Hjson : json_loads MiniJson.impl "null" = Some PNone)
    by (vm_compute; reflexivity).
  assert (Hnot : forall items, PNone <> PList items) by discriminate.
  destruct (load_from_file_non_array_document MiniJson.impl
              "operation_history.json" "null" PNone (add_A init_default)
              _ Hfile Hjson Hnot) as (ok & index & -> & _ & _ & _ & Hnull).
  destruct (Hnull (or_introl eq_refl)) as [-> ->]. reflexivity.
Defined.

Lemma leading_all {A} (f : A -> bool) (s : list A) :
  forallb f (leading f s) = true.
Proof.
  induction s as [|c rest IH]; simpl; [reflexivity|].
  destruct (f c) eqn:E; [|reflexivity]. simpl. rewrite E. exact IH.
Qed.

Lemma leading_prefix {A} (f : A -> bool) (s : list A) :
  exists rest, s = leading f s ++ rest.
Proof.
  induction s as [|c s [rest IH]]; simpl.
  - exists []. reflexivity.
  - destruct (f c).
    + exists rest. simpl. f_equal. exact IH.
    + exists (c :: s). reflexivity.
Qed.

Lemma after_leading_suffix {A} (f : A -> bool) (s : list A) :
  exists dropped, s = dropped ++ after_leading f s.
Proof.
  induction s as [|c s [d IH]]; simpl.
  - exists []. reflexivity.
  - destruct (f c).
    + exists (c :: d). simpl. f_equal. exact IH.
    + exists []. reflexivity.
Qed.

Lemma match_literal_suffix (p : list ascii) (s rest : list N) :
  match_literal p s = Some rest ->
  s = map N_of_ascii p ++ rest.
Proof.
  revert s. induction p as [|a p IH]; intros s H; simpl in H.
  - injection H as <-. reflexivity.
  - destruct s as [|b s]; [discriminate|].
    destruct (N.eqb_spec (N_of_ascii a) b) as [<-|]; [|discriminate].
    simpl. f_equal. apply IH. exact H.
Qed.

Lemma name_after_spec (rest name : list N) :
  name_after rest = Some name ->
  name <> [] /\ forallb is_word name = true /\
  exists before after, rest = before ++ name ++ after.
Proof.
  unfold name_after. destruct rest as [|c rest']; [discriminate|].
  destruct (is_white c); [|discriminate].
  destruct (leading is_word (after_leading is_white (c :: rest')))
    as [|a name'] eqn:E; [discriminate|].
  intros H. injection H as <-. split; [discriminate|].
  split; [rewrite <- E; apply leading_all|].
  destruct (after_leading_suffix is_white (c :: rest')) as [before Hb].
  destruct (leading_prefix is_word (after_leading is_white (c :: rest')))
    as [after Ha].
  exists before, after. rewrite <- E, <- Ha. exact Hb.
Qed.

Lemma search_name_spec (p : list ascii) (s name : list N) :
  search_name p s = Some name ->
  name <> [] /\ forallb is_word name = true /\
  exists before after, s = before ++ name ++ after.
Proof.
  induction s as [|c s IH]; cbn [search_name].
  - destruct (match_literal p []) as [rest|] eqn:E; [|discriminate].
    destruct (name_after rest) as [found|] eqn:En; [|discriminate].
    intros H. injection H as <-.
    destruct (name_after_spec _ _ En) as (Hne & Hw & before & after & ->).
    apply match_literal_suffix in E.
    split; [exact Hne|]. split; [exact Hw|].
    exists (map N_of_ascii p ++ before), after.
    rewrite E, <- app_assoc. reflexivity.
  - destruct (match match_literal p (c :: s) with
              | Some rest => name_after rest
              | None => None
              end) as [found|] eqn:Eh.
    + intros H. injection H as <-.
      destruct (match_literal p (c :: s)) as [rest|] eqn:E;
        [|discriminate].
      destruct (name_after_spec _ _ Eh) as (Hne & Hw & before & after & ->).
      apply match_literal_suffix in E.
      split; [exact Hne|]. split; [exact Hw|].
      exists (map N_of_ascii p ++ before), after.
      rewrite E, <- app_assoc. reflexivity.
    + intros H. destruct (IH H) as (Hne & Hw & before & after & ->).
      split; [exact Hne|]. split; [exact Hw|].
      exists (c :: before), after. reflexivity.
Qed.

(** The code point that stands for a character of [upper] in
    [upper_points]. *)
Lemma upper_point_upper_char (c : ascii) :
  upper_point c
  = map (fun d => if (N_of_ascii d =? 181)%N then 924%N
                  else if (N_of_ascii d =? 255)%N then 376%N
                  else N_of_ascii d) (upper_char c).
Proof. destruct c as [[] [] [] [] [] [] [] []]; reflexivity. Qed.

Lemma N_of_ascii_inj (a b : ascii) : N_of_ascii a = N_of_ascii b -> a = b.
Proof.
  intros H. rewrite <- (ascii_N_embedding a), <- (ascii_N_embedding b), H.
  reflexivity.
Qed.

(** A literal found at the start of the upper case as code points stands
    at the start of the upper case as characters. *)
Lemma match_literal_upper (p : list ascii) (s : list ascii) :
  starts_with p (upper_points s) = true ->
  startswith p (upper s) = true.
Proof.
  unfold starts_with, startswith, upper_points, upper.
  assert (Hgen : forall u : list ascii,
            match_literal p
              (map (fun d => if (N_of_ascii d =? 181)%N then 924%N
                             else if (N_of_ascii d =? 255)%N then 376%N
                             else N_of_ascii d) u) <> None ->
            match_prefix false p u <> None).
  { induction p as [|a p IH]; intros u; [discriminate|].
    destruct u as [|b u]; [intros H; exfalso; apply H; reflexivity|].
    cbn [map match_literal match_prefix char_match].
    pose proof (N_ascii_bounded a) as Ha.
    destruct (N.eqb_spec (N_of_ascii b) 181) as [E1 | E1].
    { destruct (N.eqb_spec (N_of_ascii a) 924) as [E|]; [lia|].
      intros H. exfalso. apply H. reflexivity. }
    destruct (N.eqb_spec (N_of_ascii b) 255) as [E2 | E2].
    { destruct (N.eqb_spec (N_of_ascii a) 376) as [E|]; [lia|].
      intros H. exfalso. apply H. reflexivity. }
    destruct (N.eqb_spec (N_of_ascii a) (N_of_ascii b)) as [E|E].
    - apply N_of_ascii_inj in E. subst b. rewrite Ascii.eqb_refl. apply IH.
    - intros H. exfalso. apply H. reflexivity. }
  assert (Hmap : concat (map upper_point s)
                 = map (fun d => if (N_of_ascii d =? 181)%N then 924%N
                                 else if (N_of_ascii d =? 255)%N then 376%N
                                 else N_of_ascii d) (concat (map upper_char s))).
  { induction s as [|c s IHs]; [reflexivity|].
    cbn [map concat]. rewrite map_app, IHs, upper_point_upper_char.
    reflexivity. }
  intros H. rewrite Hmap in H.
  specialize (Hgen (concat (map upper_char s))).
  destruct (match_prefix false p (concat (map upper_char s)));
    [reflexivity|].
  exfalso. apply Hgen; [|reflexivity].
  intros E. rewrite E in H. discriminate.
Qed.

(** [str.upper] changes no code point of a text in upper case: one below
    256 is its own upper case, the others are the two capitals. *)
Lemma upper_point_fixed (c : ascii) (n : N) :
  In n (upper_point c) ->
  (forall d, N_of_ascii d = n -> upper_point d = [n]) /\
  ((n < 256)%N \/ n = 376%N \/ n = 924%N).
Proof.
  destruct c as [[] [] [] [] [] [] [] []]; simpl;
    intros H; repeat (destruct H as [<- | H]; [|]); try contradiction;
    (split;
     [ intros d Hd; pose proof (N_ascii_bounded d) as Hb;
       first [ exfalso; lia
             | apply (f_equal ascii_of_N) in Hd;
               rewrite ascii_N_embedding in Hd; subst d; reflexivity ]
     | first [ left; reflexivity | right; left; reflexivity
             | right; right; reflexivity ] ]).
Qed.

Lemma upper_points_fixed (s : list ascii) (n : N) :
  In n (upper_points s) ->
  (forall d, N_of_ascii d = n -> upper_point d = [n]) /\
  ((n < 256)%N \/ n = 376%N \/ n = 924%N).
Proof.
  unfold upper_points. induction s as [|c s IH]; [contradiction|].
  cbn [map concat]. intros H. apply in_app_or in H as [H | H].
  - exact (upper_point_fixed c n H).
  - exact (IH H).
Qed.

(** X26.  A table name found by [extract_table_name] is never empty, is
    made of word characters and is a piece of the upper-case form of the
    stripped statement, on which the search runs: whatever the case used
    in the statement, every character of the name is its own upper case,
    the micro sign and y with diaeresis coming back as the capitals
    U+039C and U+0178.  A name is found only in a statement whose
    detected kind is [INSERT], [UPDATE], [DELETE] or [SELECT]. *)
Theorem extract_table_name_upper_case (sql : string) (name : list N) :
  extract_table_name sql = Some name ->
  name <> [] /\
  forallb is_word name = true /\
  (exists before after,
     upper_points (strip (chars sql)) = before ++ name ++ after) /\
  (forall n, In n name ->
     (forall d, N_of_ascii d = n -> upper_point d = [n]) /\
     ((n < 256)%N \/ n = 376%N \/ n = 924%N)) /\
  In (detect_operation_type sql)
     ["INSERT"%string; "UPDATE"%string; "DELETE"%string; "SELECT"%string].
Proof.
  unfold extract_table_name, detect_operation_type.
  set (s := strip (chars sql)).
  intros H.
  assert (Hname : forall p, search_name p (upper_points s) = Some name ->
            name <> [] /\
            forallb is_word name = true /\
            (exists before after, upper_points s = before ++ name ++ after) /\
            (forall n, In n name ->
               (forall d, N_of_ascii d = n -> upper_point d = [n]) /\
               ((n < 256)%N \/ n = 376%N \/ n = 924%N))).
  { intros p Hp.
    destruct (search_name_spec _ _ _ Hp) as (Hne & Hw & b & a & Hs).
    split; [exact Hne|]. split; [exact Hw|].
    split; [exists b, a; exact Hs|].
    intros n Hn. apply (upper_points_fixed s). rewrite Hs.
    apply in_or_app. right. apply in_or_app. left. exact Hn. }
  destruct (starts_with (chars "INSERT INTO") (upper_points s)) eqn:E1.
  { destruct (Hname _ H) as (H1 & H2 & H3 & H4).
    do 4 (split; [assumption|]).
    apply match_literal_upper, startswith_true in E1 as [rest ->].
    simpl. tauto. }
  destruct (starts_with (chars "UPDATE") (upper_points s)) eqn:E2.
  { destruct (Hname _ H) as (H1 & H2 & H3 & H4).
    do 4 (split; [assumption|]).
    apply match_literal_upper, startswith_true in E2 as [rest ->].
    simpl. tauto. }
  destruct (starts_with (chars "DELETE FROM") (upper_points s)) eqn:E3.
  { destruct (Hname _ H) as (H1 & H2 & H3 & H4).
    do 4 (split; [assumption|]).
    apply match_literal_upper, startswith_true in E3 as [rest ->].
    simpl. tauto. }
  destruct (starts_with (chars "SELECT") (upper_points s)) eqn:E4;
    [|discriminate].
  destruct (Hname _ H) as (H1 & H2 & H3 & H4).
  do 4 (split; [assumption|]).
  apply match_literal_upper in E4. rewrite E4. simpl. tauto.
Qed.

Lemma extract_table_name_upper_case_witness :
  extract_table_name
    (String (ascii_of_nat 32)
       (String.append "update caf" (String (ascii_of_nat 233)
          (String (ascii_of_nat 181) " set x = 1"))))
  = Some [67; 65; 70; 201; 924]%N /\
  forallb is_word [67; 65; 70; 201; 924]%N = true.
Proof.
  assert (Hrun : extract_table_name
                   (String (ascii_of_nat 32)
                      (String.append "update caf" (String (ascii_of_nat 233)
                         (String (ascii_of_nat 181) " set x = 1"))))
                 = Some [67; 65; 70; 201; 924]%N) by (vm_compute; reflexivity).
  split; [exact Hrun|].
  exact (proj1 (proj2 (extract_table_name_upper_case _ _ Hrun))).
Defined.

(** X27.  [validate_sql] ignores the quote characters at both ends of the
    statement, whatever their number: in particular the closing quote of
    a string literal that ends the statement is lost, and the statement
    sent to the server is the one without it. *)
Theorem validate_sql_ignores_outer_quotes (before query after : string) :
  forallb is_quote (chars before) = true ->
  forallb is_quote (chars after) = true ->
  validate_sql (before +:+ query +:+ after) = validate_sql query.
Proof.
  intros Hb Ha. unfold validate_sql, validate_chars.
  rewrite !chars_append, strip_by_padded by assumption. reflexivity.
Qed.

Lemma validate_sql_ignores_outer_quotes_witness :
  validate_sql "SELECT x FROM t WHERE y = 'a'"
  = "SELECT x FROM t WHERE y = 'a;"%string.
Proof.
  assert (Hb : forallb is_quote (chars "") = true) by reflexivity.
  assert (Ha : forallb is_quote (chars "'") = true) by reflexivity.
  exact (eq_trans
           (validate_sql_ignores_outer_quotes ""
              "SELECT x FROM t WHERE y = 'a" "'" Hb Ha)
           eq_refl).
Defined.

(** X28.  A history of capacity at least zero that holds more entries
    than its capacity, as after loading a longer file, is not brought back within the capacity by
    [add_operation]: with the cursor on the last entry, each addition
    drops the oldest entry and appends the new one, so the number of
    entries stays the same and the history is still over its capacity,
    its cursor on the last entry, after the call. *)
Theorem add_operation_keeps_excess
    (now : string)
    (operation_type query natural_query affected_rows result rollback_sql : pyval)
    (self : OperationHistory) :
  0 <= max_history self ->
  max_history self < len (history self) ->
  current_index self = len (history self) - 1 ->
  let operation :=
    make_operation now operation_type query natural_query
                   affected_rows result rollback_sql in
  let self' :=
    snd (add_operation now operation_type query natural_query
                       affected_rows result rollback_sql self) in
  history self' = slice_from_1 (history self) ++ [operation] /\
  len (history self') = len (history self) /\
  max_history self' < len (history self') /\
  current_index self' = len (history self') - 1.
Proof.
  intros Hcap Hover Htail operation self'.
  assert (Hh : history self'
               = slice_from_1 (history self) ++ [operation]).
  { unfold self', add_operation, append_operation, truncate_after_cursor.
    cbn [snd history].
    destruct (Z.ltb_spec (current_index self) (len (history self) - 1));
      [lia|].
    fold operation.
    destruct (evict_oldest_spec (max_history self) (history self ++ [operation]))
      as [[Hle _] | [_ ->]].
    - rewrite len_app in Hle. change (len [operation]) with 1 in Hle. lia.
    - destruct (history self) as [|oldest rest]; [|reflexivity].
      rewrite len_nil in Hover. lia. }
  assert (Hl : len (history self') = len (history self)).
  { rewrite Hh, len_app, len_drop_1. change (len [operation]) with 1. lia. }
  split; [exact Hh|]. split; [exact Hl|]. split.
  - rewrite Hl. exact Hover.
  - reflexivity.
Qed.

Lemma add_operation_keeps_excess_witness :
  (0 <= 2 /\ 2 < len [op_A; op_B; op_C] /\
   2 = len [op_A; op_B; op_C] - 1) /\
  history
    (snd (add_operation "2024-01-01 10:00:03" (PStr "DELETE")
            (PStr "DELETE FROM t WHERE x = 2;") (PStr "D") (PInt 1)
            (PStr "ok") PNone (mkHistory [op_A; op_B; op_C] 2 2)))
  = [op_B; op_C; op_D].
Proof.
  assert (Hcap : 0 <= max_history (mkHistory [op_A; op_B; op_C] 2 2))
    by (simpl; lia).
  assert (Hover : max_history (mkHistory [op_A; op_B; op_C] 2 2)
                  < len (history (mkHistory [op_A; op_B; op_C] 2 2)))
    by (vm_compute; reflexivity).
  assert (Htail : current_index (mkHistory [op_A; op_B; op_C] 2 2)
                  = len (history (mkHistory [op_A; op_B; op_C] 2 2)) - 1)
    by (vm_compute; reflexivity).
  split; [split; [exact Hcap | split; [exact Hover | exact Htail]] |].
  exact (proj1 (add_operation_keeps_excess "2024-01-01 10:00:03"
                  (PStr "DELETE") (PStr "DELETE FROM t WHERE x = 2;")
                  (PStr "D") (PInt 1) (PStr "ok") PNone
                  (mkHistory [op_A; op_B; op_C] 2 2) Hcap Hover Htail)).
Defined.
